(** * devio: the server end of the ImDisk proxy protocol

    A shallow embedding of [src/devio/devio.c]: the endian codecs, the
    backing-store layer ([physical_read], [physical_write]), the dynamic
    VHD engine ([vhd_read], [vhd_write]), the buffer management
    ([buf_realloc], [alloc_drv_buffer]), the request handlers
    ([read_data], [write_data], [send_info], the loop of [do_comm]) and
    the startup of [main] (the size argument, the VHD autodetection,
    the partition selection).

    Conventions of the embedding.
    - C integers are [Z]; every conversion to a fixed width is written
      out with [u64], [s64] or [u32].  The typedefs [off_t_64],
      [safeio_size_t] and [safeio_ssize_t] are declared in headers
      that [devio.c] includes; they are taken at their values on a
      64-bit target: [off_t_64] and [safeio_ssize_t] are signed 64-bit,
      [safeio_size_t] is unsigned 64-bit.
    - A byte is a [Z] in [0, 256); a memory region is the [list Z] of its
      bytes, starting at the pointer the C code holds.
    - Global variables that change during a session are fields of
      [state]; those fixed by [main] before the session are fields of
      [config].
    - The backing store and the host (heap, socket, events, driver) are
      interfaces: the type classes [Backing] and [Host].
    - A function whose C loop or recursion is not structural takes a
      [fuel]; that enough fuel gives a result is proved with it.

    The embedding comes first, the properties after it. *)

From Stdlib Require Import String Ascii ZArith List Lia Bool.
Import ListNotations.
Local Open Scope Z_scope.

(* ================================================================= *)
(** ** Fixed-width integers *)

Definition u64 (x : Z) : Z := x mod 2 ^ 64.
Definition s64 (x : Z) : Z := (x + 2 ^ 63) mod 2 ^ 64 - 2 ^ 63.
Definition u32 (x : Z) : Z := x mod 2 ^ 32.

(** [(safeio_size_t)-1 >> 1], the clamp of [buf_realloc]. *)
Definition SIZE_HALF : Z := Z.shiftr (u64 (-1)) 1.

Definition E2BIG : Z := 7.
Definition EBADF : Z := 9.
Definition ENOMEM : Z := 12.
Definition ENODEV : Z := 19.
Definition EINVAL : Z := 22.

(* ================================================================= *)
(** ** Endian codecs *)

(** A byte of a file seen through an [int8_t *]. *)
Definition int8 (b : Z) : Z := if b <? 128 then b else b - 256.

(** [GetBigEndian64]: the loop runs [i] from [0] to [sizeof(int64_t)-1];
    [storage[i]] is an [int8_t], so the cast to [int64_t] sign-extends. *)
Fixpoint GetBigEndian64_loop (storage : list Z) (i : Z) (n : nat) (number : Z) : Z :=
  match n with
  | O => number
  | S n' =>
      GetBigEndian64_loop storage (i + 1) n'
        (Z.lor number
           (s64 (Z.shiftl (s64 (nth (Z.to_nat i) storage 0))
                          (Z.shiftl (8 - i - 1) 3))))
  end.

Definition GetBigEndian64 (storage : list Z) : Z :=
  GetBigEndian64_loop storage 0 8 0.

(** [GetLittleEndian32U]: [storage[i]] is a [uint8_t]. *)
Fixpoint GetLittleEndian32U_loop (storage : list Z) (i : Z) (n : nat) (number : Z) : Z :=
  match n with
  | O => number
  | S n' =>
      GetLittleEndian32U_loop storage (i + 1) n'
        (Z.lor number (u32 (Z.shiftl (u32 (nth (Z.to_nat i) storage 0)) (Z.shiftl i 3))))
  end.

Definition GetLittleEndian32U (storage : list Z) : Z :=
  GetLittleEndian32U_loop storage 0 4 0.

(** The value the VHD format assigns to eight bytes [b] (each in
    [0, 256)): the sum of [b[i] * 2^(8*(7-i))]. *)
Fixpoint big_endian_sum (b : list Z) : Z :=
  match b with
  | [] => 0
  | x :: r => x * 2 ^ (8 * Z.of_nat (length r)) + big_endian_sum r
  end.

(** [ntohl] of a 32-bit object, given the four bytes it occupies in
    memory, and the bytes [htonl x] leaves in memory. *)
Definition ntohl_bytes (b : list Z) : Z :=
  nth 0 b 0 * 2 ^ 24 + nth 1 b 0 * 2 ^ 16 + nth 2 b 0 * 2 ^ 8 + nth 3 b 0.

Definition htonl_bytes (x : Z) : list Z :=
  [Z.shiftr (u32 x) 24 mod 256; Z.shiftr (u32 x) 16 mod 256;
   Z.shiftr (u32 x) 8 mod 256; u32 x mod 256].

(** Host-order (little-endian) 64-bit fields of the wire records. *)
Fixpoint le_decode (b : list Z) : Z :=
  match b with
  | [] => 0
  | x :: r => x + 256 * le_decode r
  end.

Fixpoint le_encode (n : nat) (x : Z) : list Z :=
  match n with
  | O => []
  | S n' => x mod 256 :: le_encode n' (x / 256)
  end.

(* ================================================================= *)
(** ** The backing store and the host *)

(** Result of a call into the backing store: [Done a] is a successful
    return that leaves [errno] alone, [Fail e] is a return of [-1] with
    [errno] set to [e]. *)
Inductive outcome (A : Type) : Type :=
| Done (a : A)
| Fail (e : Z).
Arguments Done {A} a.
Arguments Fail {A} e.

(** What [physical_read], [physical_write] and [_lseeki64] reach: the
    image file through [pread]/[pwrite], or the plugin through
    [dll_read]/[dll_write] when [dll_mode] is set.  [bk_pread w size off]
    gives the bytes the call leaves at the destination (their number is
    the return value); [bk_pwrite w data off] gives the new store and
    the number of bytes the call reports as written. *)
Class Backing (W : Type) : Type := {
  bk_pread : W -> Z -> Z -> outcome (list Z);
  bk_pwrite : W -> list Z -> Z -> W * outcome Z;
  bk_seek_end : W -> Z -> outcome Z
}.

(** Answer of the three calls [CreateFileMapping], [MapViewOfFile] and
    [VirtualQuery] of [alloc_drv_buffer]. *)
Inductive map_result : Type :=
| CreateFileMappingFailed
| MapViewOfFileFailed
| VirtualQueryFailed
| Mapped (RegionSize : Z).

(** Answer of the exchange ioctl of [drv_flush], after the wait for a
    pending request: completion (with the header area and the buffer as
    the driver left them), or the error code. *)
Inductive exchange_result : Type :=
| ExchangeComplete (hdr payload : list Z)
| ERROR_INSUFFICIENT_BUFFER
| ERROR_DEV_NOT_EXIST
| ExchangeOtherError.

(** The host: heap, stream transport ([safe_read] and [safe_write] of
    safeio.h), the events of the shared-memory transport and the ioctls
    of the driver transport.  Every call threads the host state [E].
    [malloc] answers [None] for [NULL], or the unspecified contents of
    the fresh block, byte by byte. *)
Class Host (E : Type) : Type := {
  malloc : Z -> E -> option (Z -> Z) * E;
  safe_read : Z -> E -> option (list Z) * E;
  safe_write : list Z -> E -> bool * E;
  SetEvent : E -> bool * E;
  WaitForSingleObject : E -> option (list Z * list Z) * E;
  map_region : Z -> E -> map_result * E;
  lock_memory : Z -> E -> bool * E;
  wait_memory_unlock : E -> bool * E;
  exchange_io : E -> exchange_result * E
}.

(** ** Events of the physical layer (ghost state) *)

(** Which statement of the VHD engine issued a physical call. *)
Inductive purpose : Type := BatEntry | NewBlock | Data | Bitmap.

Inductive event : Type :=
| EvRead (p : purpose) (offset size ret : Z)
| EvWrite (p : purpose) (offset : Z) (data : list Z) (ret : Z) (err : Z)
| EvSeek (ret : Z).

(** ** Configuration and session state *)

(** Globals that [main] fixes before [do_comm] runs, and the constants
    of imdproxy.h the code refers to. *)
Record config : Type := mkConfig {
  win32 : bool;
  shm_mode : bool;
  drv_mode : bool;
  vhd_mode : bool;
  image_offset : Z;
  devio_info_file_size : Z;
  devio_info_req_alignment : Z;
  devio_info_flags : Z;
  block_size : Z;
  sector_size : Z;
  table_offset : Z;
  block_shift : Z;
  sector_shift : Z;
  current_size : Z;
  vhd_Footer : list Z;
  IMDPROXY_HEADER_SIZE : Z;
  DEVIODRV_BUFFER_HEADER_SIZE : Z;
  IMDPROXY_REQ_INFO : Z;
  IMDPROXY_REQ_READ : Z;
  IMDPROXY_REQ_WRITE : Z;
  IMDPROXY_FLAG_RO : Z
}.

Record state (W E : Type) : Type := mkState {
  st_world : W;
  st_errno : Z;
  st_trace : list event;
  st_host : E;
  st_buffer_size : Z;
  st_buf : list Z;
  st_buf2 : option Z;
  st_shm_hdr : list Z;
  st_shm_readptr : option Z;
  st_shm_writeptr : option Z;
  st_sent : list (list Z);
  st_syslog : list string
}.
Arguments mkState {W E}.
Arguments st_world {W E}.
Arguments st_errno {W E}.
Arguments st_trace {W E}.
Arguments st_host {W E}.
Arguments st_buffer_size {W E}.
Arguments st_buf {W E}.
Arguments st_buf2 {W E}.
Arguments st_shm_hdr {W E}.
Arguments st_shm_readptr {W E}.
Arguments st_shm_writeptr {W E}.
Arguments st_sent {W E}.
Arguments st_syslog {W E}.

(** How a handler ends: it returns, the process dies on an access
    outside an allocated region, or a loop of the model ran out of
    fuel. *)
Inductive run (A S : Type) : Type :=
| Ret (a : A) (s : S)
| Crash (s : S)
| Diverge.
Arguments Ret {A S} a s.
Arguments Crash {A S} s.
Arguments Diverge {A S}.

Section Setters.
Context {W E : Type}.
Implicit Type s : state W E.

Definition set_world (w : W) s : state W E :=
  mkState w (st_errno s) (st_trace s) (st_host s) (st_buffer_size s) (st_buf s)
    (st_buf2 s) (st_shm_hdr s) (st_shm_readptr s) (st_shm_writeptr s) (st_sent s)
    (st_syslog s).

Definition set_errno (e : Z) s : state W E :=
  mkState (st_world s) e (st_trace s) (st_host s) (st_buffer_size s) (st_buf s)
    (st_buf2 s) (st_shm_hdr s) (st_shm_readptr s) (st_shm_writeptr s) (st_sent s)
    (st_syslog s).

Definition add_event (ev : event) s : state W E :=
  mkState (st_world s) (st_errno s) (st_trace s ++ [ev]) (st_host s)
    (st_buffer_size s) (st_buf s) (st_buf2 s) (st_shm_hdr s) (st_shm_readptr s)
    (st_shm_writeptr s) (st_sent s) (st_syslog s).

Definition set_host (e : E) s : state W E :=
  mkState (st_world s) (st_errno s) (st_trace s) e (st_buffer_size s) (st_buf s)
    (st_buf2 s) (st_shm_hdr s) (st_shm_readptr s) (st_shm_writeptr s) (st_sent s)
    (st_syslog s).

Definition set_buffer_size (n : Z) s : state W E :=
  mkState (st_world s) (st_errno s) (st_trace s) (st_host s) n (st_buf s)
    (st_buf2 s) (st_shm_hdr s) (st_shm_readptr s) (st_shm_writeptr s) (st_sent s)
    (st_syslog s).

Definition set_buf (b : list Z) s : state W E :=
  mkState (st_world s) (st_errno s) (st_trace s) (st_host s) (st_buffer_size s) b
    (st_buf2 s) (st_shm_hdr s) (st_shm_readptr s) (st_shm_writeptr s) (st_sent s)
    (st_syslog s).

Definition set_buf2 (b : option Z) s : state W E :=
  mkState (st_world s) (st_errno s) (st_trace s) (st_host s) (st_buffer_size s)
    (st_buf s) b (st_shm_hdr s) (st_shm_readptr s) (st_shm_writeptr s) (st_sent s)
    (st_syslog s).

Definition set_shm_hdr (h : list Z) s : state W E :=
  mkState (st_world s) (st_errno s) (st_trace s) (st_host s) (st_buffer_size s)
    (st_buf s) (st_buf2 s) h (st_shm_readptr s) (st_shm_writeptr s) (st_sent s)
    (st_syslog s).

Definition set_shm_readptr (p : option Z) s : state W E :=
  mkState (st_world s) (st_errno s) (st_trace s) (st_host s) (st_buffer_size s)
    (st_buf s) (st_buf2 s) (st_shm_hdr s) p (st_shm_writeptr s) (st_sent s)
    (st_syslog s).

Definition set_shm_writeptr (p : option Z) s : state W E :=
  mkState (st_world s) (st_errno s) (st_trace s) (st_host s) (st_buffer_size s)
    (st_buf s) (st_buf2 s) (st_shm_hdr s) (st_shm_readptr s) p (st_sent s)
    (st_syslog s).

Definition add_sent (d : list Z) s : state W E :=
  mkState (st_world s) (st_errno s) (st_trace s) (st_host s) (st_buffer_size s)
    (st_buf s) (st_buf2 s) (st_shm_hdr s) (st_shm_readptr s) (st_shm_writeptr s)
    (st_sent s ++ [d]) (st_syslog s).

Definition syslog (msg : string) s : state W E :=
  mkState (st_world s) (st_errno s) (st_trace s) (st_host s) (st_buffer_size s)
    (st_buf s) (st_buf2 s) (st_shm_hdr s) (st_shm_readptr s) (st_shm_writeptr s)
    (st_sent s) (st_syslog s ++ [msg]).

(** [if (errno == 0) errno = E2BIG;] *)
Definition errno_e2big s : state W E :=
  if st_errno s =? 0 then set_errno E2BIG s else s.

End Setters.

(** ** Memory regions *)

(** [memset(p, c, n)] on the region that starts at [p]. *)
Definition memset (io : list Z) (c n : Z) : list Z :=
  repeat c (Z.to_nat n) ++ skipn (Z.to_nat n) io.

(** The region after [data] was stored at its start. *)
Definition store_at (io data : list Z) : list Z :=
  data ++ skipn (length data) io.

(** The region after [data] was stored at byte offset [pos]. *)
Definition store_at_pos (io : list Z) (pos : Z) (data : list Z) : list Z :=
  firstn (Z.to_nat pos) io ++ store_at (skipn (Z.to_nat pos) io) data.

(** A fresh block of [n] bytes with contents [g]. *)
Definition fresh_block (g : Z -> Z) (n : Z) : list Z :=
  map (fun i => g (Z.of_nat i)) (seq 0 (Z.to_nat n)).

(** The 64-bit word [((long long * )io_ptr)[i]]. *)
Definition qword_at (io : list Z) (i : Z) : Z :=
  le_decode (firstn 8 (skipn (Z.to_nat (8 * i)) io)).

(* ================================================================= *)
(** ** The physical layer and the VHD engine *)

Section Engine.
Context {W E : Type} {BK : Backing W} {HO : Host E}.
Variable cfg : config.
Implicit Type s : state W E.

(** [physical_read(io_ptr, size, offset)]: the return value, the bytes
    left at [io_ptr], the new state. *)
Definition physical_read (p : purpose) (size offset : Z) s
  : Z * list Z * state W E :=
  match bk_pread (st_world s) size offset with
  | Done data =>
      let r := Z.of_nat (length data) in
      (r, data, add_event (EvRead p offset size r) s)
  | Fail e => (-1, [], add_event (EvRead p offset size (-1)) (set_errno e s))
  end.

(** [physical_write(io_ptr, size, offset)], [data] being the [size]
    bytes at [io_ptr]. *)
Definition physical_write (p : purpose) (data : list Z) (offset : Z) s
  : Z * state W E :=
  match bk_pwrite (st_world s) data offset with
  | (w, Done n) =>
      (n, add_event (EvWrite p offset data n (st_errno s)) (set_world w s))
  | (w, Fail e) =>
      (-1, add_event (EvWrite p offset data (-1) e) (set_errno e (set_world w s)))
  end.

(** [_lseeki64(image_fd, d, SEEK_END)] *)
Definition lseek_end (d : Z) s : Z * state W E :=
  match bk_seek_end (st_world s) d with
  | Done pos => (pos, add_event (EvSeek pos) s)
  | Fail e => (-1, add_event (EvSeek (-1)) (set_errno e s))
  end.

(** [block_offset == 0xFFFFFFFF], on the four bytes of [block_offset]. *)
Definition is_sparse (block_offset : list Z) : bool :=
  match block_offset with
  | [a; b; c; d] => (a =? 255) && (b =? 255) && (c =? 255) && (d =? 255)
  | _ => false
  end.

(** The split of a request at the block boundary, common to [vhd_read]
    and [vhd_write]: [in_block_offset], [first_size], [second_size],
    [second_offset]. *)
Definition in_block_offset_of (offset : Z) : Z :=
  Z.land (u64 offset) (u64 (block_size cfg - 1)).

Definition crosses_block (size offset : Z) : bool :=
  block_size cfg <? u64 (size + in_block_offset_of offset).

Definition first_size_of (size offset : Z) : Z :=
  if crosses_block size offset
  then u64 (block_size cfg - in_block_offset_of offset) else size.

Definition second_size_of (size offset : Z) : Z :=
  if crosses_block size offset
  then u64 (size - first_size_of size offset) else 0.

Definition second_offset_of (size offset : Z) : Z :=
  if crosses_block size offset
  then s64 (offset + first_size_of size offset) else 0.

(** Physical offset of the data of a block whose BAT entry, after
    [ntohl], is [block_offset]. *)
Definition data_offset_of (block_offset in_block_offset : Z) : Z :=
  s64 (Z.shiftl block_offset (sector_shift cfg) + sector_size cfg + in_block_offset).

(** [vhd_read(io_ptr, size, offset)]; [io] is the region at [io_ptr].
    The result is the return value, the region, the state. *)
Fixpoint vhd_read_rec (fuel : nat) (io : list Z) (size offset : Z) s
  : option (Z * list Z * state W E) :=
  if u64 (current_size cfg) <? u64 (offset + size) then Some (0, io, s) else
  let block_number := s64 (u64 (Z.shiftr offset (block_shift cfg))) in
  let data_offset := s64 (table_offset cfg + Z.shiftl block_number 2) in
  let in_block_offset := in_block_offset_of offset in
  let first_size := first_size_of size offset in
  let second_size := second_size_of size offset in
  let second_offset := second_offset_of size offset in
  let '(readdone, block_offset, s) := physical_read BatEntry 4 data_offset s in
  if negb (readdone =? 4) then
    Some (-1, io, errno_e2big (syslog "vhd_read: Error reading block table" s))
  else
  let io := memset io 0 size in
  let '(readdone, io, s, failed) :=
    if is_sparse block_offset then (s64 first_size, io, s, false)
    else
      let data_offset := data_offset_of (ntohl_bytes block_offset) in_block_offset in
      let '(_, d1, s) := physical_read Data first_size data_offset s in
      let io := store_at io d1 in
      let '(readdone, d2, s) := physical_read Data first_size data_offset s in
      (readdone, store_at io d2, s, readdone =? -1) in
  if failed then Some (-1, io, s) else
  if 0 <? second_size then
    match fuel with
    | O => None
    | S fuel' =>
        match vhd_read_rec fuel' (skipn (Z.to_nat first_size) io)
                second_size second_offset s with
        | None => None
        | Some (r, tail, s) =>
            let second_read := u64 r in
            let io := firstn (Z.to_nat first_size) io ++ tail in
            if second_read =? u64 (-1) then Some (-1, io, s)
            else Some (s64 (readdone + second_read), io, s)
        end
    end
  else Some (readdone, io, s).

Definition vhd_read (io : list Z) (size offset : Z) s :=
  vhd_read_rec (Z.to_nat size) io size offset s.

(** The zero-detection loop of [vhd_write]:
    [for (buf_ptr = io_ptr; (buf_ptr < io_ptr + n) ? 0 : ( *buf_ptr == 0); buf_ptr++);]
    The result is the index at which [buf_ptr] stops.  [fuel] is the
    number of words of the region; the model stops there. *)
Fixpoint zero_scan (io : list Z) (first_size_nqwords : Z) (fuel : nat) (i : Z) : Z :=
  let cond := if i <? first_size_nqwords then false else qword_at io i =? 0 in
  if cond then
    match fuel with
    | O => i
    | S fuel' => zero_scan io first_size_nqwords fuel' (i + 1)
    end
  else i.

(** What [vhd_write] does for the first part of the request, up to the
    point where it either returns [-1] ([None]) or goes on to the tail
    with [writedone] bytes counted ([Some writedone]). *)
Definition vhd_write_first (io : list Z) (size offset : Z) s
  : option Z * state W E :=
  let block_number := s64 (Z.shiftr offset (block_shift cfg)) in
  let data_offset := s64 (table_offset cfg + Z.shiftl block_number 2) in
  let in_block_offset := in_block_offset_of offset in
  let first_size := first_size_of size offset in
  let first_size_nqwords := Z.shiftr (u64 (first_size + 7)) 3 in
  let '(readdone, block_offset, s) := physical_read BatEntry 4 data_offset s in
  if negb (readdone =? 4) then
    (None, errno_e2big (syslog "vhd_write: Error reading block table" s))
  else
  (* the part that allocates; [inl] is an early return, [inr] carries
     the bytes of [block_offset] on to the data write *)
  let alloc : (option Z * state W E) + (list Z * state W E) :=
    if is_sparse block_offset then
      let buf_ptr :=
        zero_scan io first_size_nqwords (Nat.div (length io) 8) 0 in
      if first_size_nqwords <=? buf_ptr then inl (Some (s64 first_size), s)
      else
        let '(new_block_buf, h) :=
          malloc (sector_size cfg + block_size cfg + 512) (st_host s) in
        let s := set_host h s in
        match new_block_buf with
        | None =>
            inl (None, syslog "vhd_write: Error allocating memory buffer for new block"
                         (set_errno ENOMEM s))
        | Some _ =>
            let '(block_offset_bytes, s) := lseek_end (- 512) s in
            if block_offset_bytes =? -1 then
              inl (None, syslog "vhd_write: Error moving file pointer to last block" s)
            else
            let block_offset :=
              htonl_bytes (u32 (Z.shiftr block_offset_bytes (sector_shift cfg))) in
            let '(readdone, s) := physical_write BatEntry block_offset data_offset s in
            if negb (readdone =? 4) then
              inl (None, errno_e2big (syslog "vhd_write: Error updating BAT" s))
            else
            let new_block :=
              repeat 0 (Z.to_nat (sector_size cfg + block_size cfg))
                ++ vhd_Footer cfg in
            let '(readdone, s) := physical_write NewBlock new_block block_offset_bytes s in
            if negb (readdone =? s64 (sector_size cfg + block_size cfg) + 512) then
              inl (None, errno_e2big (syslog "vhd_write: Error writing new block" s))
            else inr (block_offset, s)
        end
    else inr (block_offset, s) in
  match alloc with
  | inl r => r
  | inr (block_offset, s) =>
      let block_offset := ntohl_bytes block_offset in
      let data_offset := data_offset_of block_offset in_block_offset in
      let '(writedone, s) :=
        physical_write Data (firstn (Z.to_nat first_size) io) data_offset s in
      if writedone =? -1 then (None, s) else
      let bitmap_offset :=
        s64 (Z.shiftl block_offset (sector_shift cfg)
             + Z.shiftr (Z.shiftr in_block_offset (sector_shift cfg)) 3) in
      let bitmap_datasize :=
        Z.shiftr (Z.shiftr (u64 (first_size + sector_size cfg - 1)) (sector_shift cfg) + 7) 3 in
      let '(readdone, s) :=
        physical_write Bitmap (repeat 255 (Z.to_nat bitmap_datasize)) bitmap_offset s in
      if negb (readdone =? bitmap_datasize) then
        (None, errno_e2big (syslog "vhd_write: Error updating block bitmap" s))
      else (Some writedone, s)
  end.

(** [vhd_write(io_ptr, size, offset)]: the return value and the state. *)
Fixpoint vhd_write_rec (fuel : nat) (io : list Z) (size offset : Z) s
  : option (Z * state W E) :=
  if u64 (current_size cfg) <? u64 (offset + size) then Some (0, s) else
  let first_size := first_size_of size offset in
  let second_size := second_size_of size offset in
  let second_offset := second_offset_of size offset in
  match vhd_write_first io size offset s with
  | (None, s) => Some (-1, s)
  | (Some writedone, s) =>
      if 0 <? second_size then
        match fuel with
        | O => None
        | S fuel' =>
            match vhd_write_rec fuel' (skipn (Z.to_nat first_size) io)
                    second_size second_offset s with
            | None => None
            | Some (r, s) =>
                let second_write := u64 r in
                if second_write =? u64 (-1) then Some (-1, s)
                else Some (s64 (writedone + second_write), s)
            end
        end
      else Some (writedone, s)
  end.

Definition vhd_write (io : list Z) (size offset : Z) s :=
  vhd_write_rec (Z.to_nat size) io size offset s.

(** [logical_read] and [logical_write] *)
Definition logical_read (io : list Z) (size offset : Z) s
  : option (Z * list Z * state W E) :=
  if vhd_mode cfg then vhd_read io size offset s
  else
    let '(r, data, s) := physical_read Data size offset s in
    Some (r, store_at io data, s).

Definition logical_write (io : list Z) (size offset : Z) s
  : option (Z * state W E) :=
  if vhd_mode cfg then vhd_write io size offset s
  else Some (physical_write Data (firstn (Z.to_nat size) io) offset s).

End Engine.

(* ================================================================= *)
(** ** Transports, buffer management and request handlers *)

Section Protocol.
Context {W E : Type} {BK : Backing W} {HO : Host E}.
Variable cfg : config.
Implicit Type s : state W E.

(** [shm_read(io_ptr, size)].  [to_buf] tells whether [io_ptr == buf];
    the result is the bytes now at [io_ptr], or [None] for a return of
    0.  Outside Windows the function returns 0. *)
Definition shm_read (to_buf : bool) (size : Z) s
  : option (list Z) * state W E :=
  if negb (win32 cfg) then (None, s) else
  if to_buf then
    if size <=? st_buffer_size s
    then (Some (firstn (Z.to_nat size) (st_buf s)), s) else (None, s)
  else
    let rp :=
      match st_shm_readptr s with
      | Some p => p
      | None => if drv_mode cfg then DEVIODRV_BUFFER_HEADER_SIZE cfg else 0
      end in
    let s := set_shm_readptr (Some rp) s in
    if IMDPROXY_HEADER_SIZE cfg - rp <? s64 size then (None, s)
    else
      (Some (firstn (Z.to_nat size) (skipn (Z.to_nat rp) (st_shm_hdr s))),
       set_shm_readptr (Some (rp + size)) s).

(** [shm_write(io_ptr, size)], [data] being the bytes at [io_ptr]. *)
Definition shm_write (from_buf : bool) (data : list Z) s : bool * state W E :=
  let size := Z.of_nat (length data) in
  if negb (win32 cfg) then (false, s) else
  if from_buf then (size <=? st_buffer_size s, s)
  else
    let wp :=
      match st_shm_writeptr s with
      | Some p => p
      | None => if drv_mode cfg then DEVIODRV_BUFFER_HEADER_SIZE cfg else 0
      end in
    let s := set_shm_writeptr (Some wp) s in
    if IMDPROXY_HEADER_SIZE cfg - wp <? s64 size then (false, s)
    else
      (true,
       set_shm_writeptr (Some (wp + size))
         (set_shm_hdr (store_at_pos (st_shm_hdr s) wp data) s)).

(** The peer has left a new request in the shared region. *)
Definition peer_deposit (hdr payload : list Z) s : state W E :=
  set_buf (store_at (st_buf s) (firstn (length (st_buf s)) payload))
    (set_shm_hdr (store_at (st_shm_hdr s) (firstn (length (st_shm_hdr s)) hdr)) s).

(** [shm_flush()] *)
Definition shm_flush s : Z * state W E :=
  if negb (win32 cfg) then (0, s) else
  let s := set_shm_writeptr None (set_shm_readptr None s) in
  let '(ok, h) := SetEvent (st_host s) in
  let s := set_host h s in
  if negb ok then (0, syslog "SetEvent() failed" s) else
  let '(r, h) := WaitForSingleObject (st_host s) in
  let s := set_host h s in
  match r with
  | None => (0, s)
  | Some (hdr, payload) => (1, peer_deposit hdr payload s)
  end.

(** [alloc_drv_buffer()] *)
Definition alloc_drv_buffer s : Z * state W E :=
  let map_size := u64 (st_buffer_size s + IMDPROXY_HEADER_SIZE cfg) in
  let '(r, h) := map_region map_size (st_host s) in
  let s := set_host h s in
  match r with
  | CreateFileMappingFailed => (2, syslog "CreateFileMapping() failed" s)
  | MapViewOfFileFailed => (2, syslog "MapViewOfFile() failed" (set_shm_hdr [] s))
  | VirtualQueryFailed => (2, syslog "VirtualQuery() failed" s)
  | Mapped RegionSize =>
      let detected_buffer_size := u64 (RegionSize - IMDPROXY_HEADER_SIZE cfg) in
      (* memset(shm_view, 0, memory_info.RegionSize) *)
      let s :=
        set_buf (repeat 0 (Z.to_nat detected_buffer_size))
          (set_shm_hdr (repeat 0 (Z.to_nat (IMDPROXY_HEADER_SIZE cfg))) s) in
      let resized : option (state W E) :=
        if negb (st_buffer_size s =? detected_buffer_size) then
          let s := set_buffer_size detected_buffer_size s in
          match st_buf2 s with
          | None => Some s
          | Some _ =>
              let '(b2, h) := malloc (st_buffer_size s) (st_host s) in
              let s := set_host h s in
              match b2 with
              | None => None
              | Some _ => Some (set_buf2 (Some (st_buffer_size s)) s)
              end
          end
        else Some s in
      match resized with
      | None => (2, syslog "malloc() failed" (set_buf2 None s))
      | Some s =>
          let '(ok, h) :=
            lock_memory (st_buffer_size s + IMDPROXY_HEADER_SIZE cfg) (st_host s) in
          let s := set_host h s in
          if ok then (0, s) else (3, syslog "Lock memory request failed" s)
      end
  end.

(** [drv_flush()]; [fuel] bounds the iterations of its [while] loop. *)
Fixpoint drv_flush_loop (fuel : nat) s : option (Z * state W E) :=
  let '(r, h) := exchange_io (st_host s) in
  let s := set_host h s in
  match r with
  | ExchangeComplete hdr payload => Some (1, peer_deposit hdr payload s)
  | ERROR_INSUFFICIENT_BUFFER =>
      let '(ok, h) := wait_memory_unlock (st_host s) in
      let s := set_host h s in
      let s := if ok then s else syslog "Error waiting for memory unlock" s in
      let s := set_buffer_size (u64 (Z.shiftl (st_buffer_size s) 1)) s in
      let '(rc, s) := alloc_drv_buffer s in
      if rc =? 0 then
        match fuel with
        | O => None
        | S fuel' => drv_flush_loop fuel' s
        end
      else Some (0, s)
  | ERROR_DEV_NOT_EXIST => Some (1, s)
  | ExchangeOtherError => Some (0, syslog "DeviceIoControl() failed" s)
  end.

Definition drv_flush (fuel : nat) s : option (Z * state W E) :=
  if negb (win32 cfg) then Some (0, s)
  else drv_flush_loop fuel (set_shm_writeptr None (set_shm_readptr None s)).

(** [buf_realloc(new_size)] *)
Definition buf_realloc (new_size : Z) s : state W E :=
  if shm_mode cfg then s else
  let new_size := if SIZE_HALF <? new_size then SIZE_HALF else new_size in
  let s := set_buffer_size (u64 new_size) s in
  if win32 cfg && drv_mode cfg then
    let existing := s in
    let '(ok, h) := wait_memory_unlock (st_host s) in
    let s := set_host h s in
    let s := if ok then s else syslog "Error waiting for memory unlock" s in
    let '(rc, s) := alloc_drv_buffer s in
    if rc =? 0 then
      (* memcpy(shm_view, existing_shm_view, IMDPROXY_HEADER_SIZE) *)
      set_shm_hdr
        (store_at (st_shm_hdr s)
           (firstn (Z.to_nat (IMDPROXY_HEADER_SIZE cfg)) (st_shm_hdr existing))) s
    else
      set_buffer_size (st_buffer_size existing)
        (set_buf2 (st_buf2 existing)
           (set_buf (st_buf existing) (set_shm_hdr (st_shm_hdr existing) s)))
  else
    let '(new_buf, h) := malloc (st_buffer_size s) (st_host s) in
    let s := set_host h s in
    let '(new_buf2, h) := malloc (st_buffer_size s) (st_host s) in
    let s := set_host h s in
    match new_buf, new_buf2 with
    | Some g, Some _ =>
        set_buf2 (Some (st_buffer_size s))
          (set_buf (fresh_block g (st_buffer_size s)) s)
    | _, _ => syslog "Failed allocating new buffer" s
    end.

(** [comm_flush()] *)
Definition comm_flush (fuel : nat) s : option (Z * state W E) :=
  if shm_mode cfg then Some (shm_flush s)
  else if drv_mode cfg then drv_flush fuel s
  else Some (1, s).

(** [comm_read(io_ptr, size)]: the bytes obtained, [None] for a return
    of 0.  When [io_ptr] is [buf] the bytes are also in [st_buf]. *)
Definition comm_read (to_buf : bool) (size : Z) s
  : option (list Z) * state W E :=
  if shm_mode cfg || drv_mode cfg then shm_read to_buf size s
  else
    let '(r, h) := safe_read size (st_host s) in
    let s := set_host h s in
    match r with
    | None => (None, s)
    | Some data =>
        (Some data, if to_buf then set_buf (store_at (st_buf s) data) s else s)
    end.

(** [comm_write(io_ptr, size)]; every block handed to it is appended
    to [st_sent], whether the transport takes it or not. *)
Definition comm_write (from_buf : bool) (data : list Z) s : bool * state W E :=
  let s := add_sent data s in
  if shm_mode cfg || drv_mode cfg then shm_write from_buf data s
  else
    let '(ok, h) := safe_write data (st_host s) in
    (ok, set_host h s).

(** The 24 bytes of [devio_info]. *)
Definition devio_info_bytes : list Z :=
  le_encode 8 (devio_info_file_size cfg)
    ++ le_encode 8 (devio_info_req_alignment cfg)
    ++ le_encode 8 (devio_info_flags cfg).

(** [send_info()] *)
Definition send_info (fuel : nat) s : run Z (state W E) :=
  let '(ok, s) := comm_write false devio_info_bytes s in
  if negb ok then Ret 0 s else
  match comm_flush fuel s with
  | None => Diverge
  | Some (ok, s) =>
      if ok =? 0 then Ret 0 (syslog "Error flushing comm data" s) else Ret 1 s
  end.

(** The 16 bytes of a response record. *)
Definition resp_block (errorno length : Z) : list Z :=
  le_encode 8 errorno ++ le_encode 8 length.

(** [read_data()], up to the call of [logical_read]: the request
    header is read, the buffer grown if the request asks for more than
    [buffer_size], the served size clipped and the buffer zero-filled.
    The result is [req_block.offset], [req_block.length] and [size],
    or [None] when the function returns 0 here. *)
Definition read_data_prepare s : run (option (Z * Z * Z)) (state W E) :=
  match comm_read false 16 s with
  | (None, s) => Ret None (syslog "Error reading request header." s)
  | (Some req, s) =>
      let req_offset := u64 (le_decode (firstn 8 req)) in
      let req_length := u64 (le_decode (firstn 8 (skipn 8 req))) in
      let s :=
        if st_buffer_size s <? req_length then buf_realloc req_length s else s in
      let size :=
        if req_length <? st_buffer_size s then req_length else st_buffer_size s in
      (* memset(buf, 0, size) *)
      if Z.of_nat (length (st_buf s)) <? size then Crash s else
      Ret (Some (req_offset, req_length, size))
        (set_buf (memset (st_buf s) 0 size) s)
  end.

(** [read_data()], from the return of [logical_read] on. *)
Definition read_data_respond (fuel : nat) (req_length size readdone : Z) s
  : run Z (state W E) :=
  let '(errorno, length, s) :=
    if readdone =? -1 then (u64 (st_errno s), 0, syslog "Device read" s)
    else
      (0, size,
       if negb (req_length =? u64 readdone) then syslog "Partial read" s else s) in
  let '(ok, s) := comm_write false (resp_block errorno length) s in
  if negb ok then Ret 0 (syslog "Warning: I/O stream inconsistency." s) else
  let '(ok, s) :=
    if errorno =? 0
    then comm_write true (firstn (Z.to_nat length) (st_buf s)) s
    else (true, s) in
  if negb ok then Ret 0 (syslog "Error sending read response to caller." s) else
  match comm_flush fuel s with
  | None => Diverge
  | Some (ok, s) =>
      if ok =? 0 then Ret 0 (syslog "Error flushing comm data" s) else Ret 1 s
  end.

(** [read_data()] *)
Definition read_data (fuel : nat) s : run Z (state W E) :=
  match read_data_prepare s with
  | Diverge => Diverge
  | Crash s => Crash s
  | Ret None s => Ret 0 s
  | Ret (Some (req_offset, req_length, size)) s =>
      match logical_read cfg (st_buf s) size (s64 (image_offset cfg + req_offset)) s with
      | None => Diverge
      | Some (readdone, io, s) =>
          read_data_respond fuel req_length size readdone (set_buf io s)
      end
  end.

(** [write_data()] *)
Definition write_data (fuel : nat) s : run Z (state W E) :=
  match comm_read false 16 s with
  | (None, s) => Ret 0 s
  | (Some req, s) =>
      let req_offset := u64 (le_decode (firstn 8 req)) in
      let req_length := u64 (le_decode (firstn 8 (skipn 8 req))) in
      if st_buffer_size s <? req_length then
        Ret 0 (syslog "Too big block write requested" s)
      else
      (* in stream mode the payload is stored into buf *)
      if negb (shm_mode cfg || drv_mode cfg)
         && (Z.of_nat (length (st_buf s)) <? req_length) then Crash s else
      match comm_read true req_length s with
      | (None, s) => Ret 0 (syslog "Warning: I/O stream inconsistency." s)
      | (Some _, s) =>
          let after : run (Z * Z) (state W E) :=
            if negb (Z.land (devio_info_flags cfg) (IMDPROXY_FLAG_RO cfg) =? 0) then
              Ret (EBADF, 0) (syslog "Device write attempt on read-only device." s)
            else
              if Z.of_nat (length (st_buf s)) <? req_length then Crash s else
              match logical_write cfg (st_buf s) req_length
                      (s64 (image_offset cfg + req_offset)) s with
              | None => Diverge
              | Some (writedone, s) =>
                  let '(errorno, length, s) :=
                    if writedone =? -1
                    then (u64 (st_errno s), u64 writedone, syslog "Device write" s)
                    else (0, u64 writedone, s) in
                  let s :=
                    if negb (req_length =? length) then
                      if writedone <? 0 then syslog "Write error" s
                      else syslog "Partial write" s
                    else s in
                  Ret (errorno, length) s
              end in
          match after with
          | Diverge => Diverge
          | Crash s => Crash s
          | Ret (errorno, length) s =>
              let '(ok, s) := comm_write false (resp_block errorno length) s in
              if negb ok then Ret 0 (syslog "Error sending write response to caller." s) else
              match comm_flush fuel s with
              | None => Diverge
              | Some (ok, s) =>
                  if ok =? 0 then Ret 0 (syslog "Error flushing comm data" s)
                  else Ret 1 s
              end
          end
      end
  end.

(** One iteration of the [for (;;)] of [do_comm]: [Ret None] when the
    loop goes on, [Ret (Some rc)] when [do_comm] returns [rc]. *)
Definition serve_one (fuel : nat) s : run (option Z) (state W E) :=
  match comm_read false 8 s with
  | (None, s) => Ret (Some 0) s
  | (Some req, s) =>
      let req := u64 (le_decode req) in
      let handled : run Z (state W E) :=
        if req =? IMDPROXY_REQ_INFO cfg then send_info fuel s
        else if req =? IMDPROXY_REQ_READ cfg then read_data fuel s
        else if req =? IMDPROXY_REQ_WRITE cfg then write_data fuel s
        else
          let '(ok, s) := comm_write false (le_encode 8 ENODEV) s in
          if ok then Ret 1 s else Ret 0 (syslog "stdout" s) in
      match handled with
      | Ret r s => if r =? 0 then Ret (Some 1) s else Ret None s
      | Crash s => Crash s
      | Diverge => Diverge
      end
  end.

(** The loop of [do_comm], for at most [n] requests. *)
Fixpoint do_comm_loop (fuel n : nat) s : run (option Z) (state W E) :=
  match n with
  | O => Ret None s
  | S n' =>
      match serve_one fuel s with
      | Ret None s => do_comm_loop fuel n' s
      | r => r
      end
  end.

End Protocol.

(* ================================================================= *)
(** ** A backing store: the image file *)

(** A regular file: its length and its bytes.  [pread] stops at the end
    of the file; [pwrite] extends the file, a gap reading as zeros. *)
Record image : Type := mkImage {
  flen : Z;
  fbyte : Z -> Z
}.

Definition image_bytes (f : image) (off : Z) (n : nat) : list Z :=
  map (fun i => fbyte f (off + Z.of_nat i)) (seq 0 n).

Definition image_pread (f : image) (size off : Z) : outcome (list Z) :=
  if off <? 0 then Fail EINVAL
  else Done (image_bytes f off (Z.to_nat (Z.min size (flen f - off)))).

Definition image_store (f : image) (data : list Z) (off : Z) : image :=
  let n := Z.of_nat (length data) in
  mkImage (Z.max (flen f) (off + n))
    (fun i =>
       if (off <=? i) && (i <? off + n) then nth (Z.to_nat (i - off)) data 0
       else if flen f <=? i then 0
       else fbyte f i).

Definition image_pwrite (f : image) (data : list Z) (off : Z) : image * outcome Z :=
  if off <? 0 then (f, Fail EINVAL)
  else
    match data with
    | [] => (f, Done 0)
    | _ => (image_store f data off, Done (Z.of_nat (length data)))
    end.

Definition image_seek_end (f : image) (d : Z) : outcome Z :=
  if flen f + d <? 0 then Fail EINVAL else Done (flen f + d).

#[export] Instance image_backing : Backing image := {
  bk_pread := image_pread;
  bk_pwrite := image_pwrite;
  bk_seek_end := image_seek_end
}.

(** The same file behind a channel that moves at most [lim_max] bytes
    per call, as the read and write callbacks of a plugin may do. *)
Record limited : Type := mkLimited {
  lim_image : image;
  lim_max : Z
}.

Definition limited_pread (l : limited) (size off : Z) : outcome (list Z) :=
  image_pread (lim_image l) (Z.min size (lim_max l)) off.

Definition limited_pwrite (l : limited) (data : list Z) (off : Z)
  : limited * outcome Z :=
  let '(f, r) := image_pwrite (lim_image l) (firstn (Z.to_nat (lim_max l)) data) off in
  (mkLimited f (lim_max l), r).

#[export] Instance limited_backing : Backing limited := {
  bk_pread := limited_pread;
  bk_pwrite := limited_pwrite;
  bk_seek_end := fun l d => image_seek_end (lim_image l) d
}.

(** ** A host: a scripted peer on a stream *)

(** The bytes the peer will send, and whether the heap still has room. *)
Record script : Type := mkScript {
  rx : list Z;
  heap_ok : bool
}.

Definition script_safe_read (n : Z) (e : script) : option (list Z) * script :=
  if Z.of_nat (length (rx e)) <? n then (None, e)
  else (Some (firstn (Z.to_nat n) (rx e)),
        mkScript (skipn (Z.to_nat n) (rx e)) (heap_ok e)).

#[export] Instance script_host : Host script := {
  malloc := fun _ e => (if heap_ok e then Some (fun _ => 205) else None, e);
  safe_read := script_safe_read;
  safe_write := fun _ e => (true, e);
  SetEvent := fun e => (false, e);
  WaitForSingleObject := fun e => (None, e);
  map_region := fun _ e => (CreateFileMappingFailed, e);
  lock_memory := fun _ e => (false, e);
  wait_memory_unlock := fun e => (false, e);
  exchange_io := fun e => (ExchangeOtherError, e)
}.

(* ================================================================= *)
(** ** Sample images and sessions *)

(** A footer of 512 bytes with the cookie [conectix]. *)
Definition sample_footer : list Z :=
  [99; 111; 110; 101; 99; 116; 105; 120]
    ++ map (fun i => (Z.of_nat i * 7 + 3) mod 256) (seq 8 504).

(** A dynamic VHD of 16 MiB in blocks of 2 MiB: copy of the footer,
    header, a BAT of eight entries at 1536 (one sector, padded with
    0xFF), footer.  No block is allocated. *)
Definition img_sparse : image :=
  mkImage 2560
    (fun i =>
       if i <? 512 then nth (Z.to_nat i) sample_footer 0
       else if i <? 1536 then 0
       else if i <? 2048 then 255
       else nth (Z.to_nat (i - 2048)) sample_footer 0).

(** The same VHD with block 0 allocated at sector 4: bitmap at 2048,
    data at 2560 (byte [i] of the block holds [i mod 251]), footer at
    2099712.  Block 1 is allocated too, but its BAT entry points at
    sector 8192, past the end of the file. *)
Definition img_block0 : image :=
  mkImage 2100224
    (fun i =>
       if i <? 512 then nth (Z.to_nat i) sample_footer 0
       else if i <? 1536 then 0
       else if i <? 1539 then 0
       else if i =? 1539 then 4
       else if i <? 1542 then 0
       else if i =? 1542 then 32
       else if i =? 1543 then 0
       else if i <? 2048 then 255
       else if i <? 2560 then 255
       else if i <? 2099712 then (i - 2560) mod 251
       else nth (Z.to_nat (i - 2099712)) sample_footer 0).

Definition sample_cfg : config := {|
  win32 := false;
  shm_mode := false;
  drv_mode := false;
  vhd_mode := true;
  image_offset := 0;
  devio_info_file_size := 16777216;
  devio_info_req_alignment := 1;
  devio_info_flags := 0;
  block_size := 2097152;
  sector_size := 512;
  table_offset := 1536;
  block_shift := 21;
  sector_shift := 9;
  current_size := 16777216;
  vhd_Footer := sample_footer;
  IMDPROXY_HEADER_SIZE := 4096;
  DEVIODRV_BUFFER_HEADER_SIZE := 24;
  IMDPROXY_REQ_INFO := 1;
  IMDPROXY_REQ_READ := 2;
  IMDPROXY_REQ_WRITE := 3;
  IMDPROXY_FLAG_RO := 1
|}.

(** A session on a stream with a buffer of [n] bytes holding [b]. *)
Definition session {W : Type} (w : W) (peer : list Z) (n : Z) (b : list Z)
  : state W script :=
  mkState w 0 [] (mkScript peer true) n b (Some n) [] None None [] [].

(** What a trace says about the calls, without the payloads. *)
Definition event_summary (ev : event) : purpose * Z * Z * Z :=
  match ev with
  | EvRead p off size ret => (p, off, size, ret)
  | EvWrite p off data ret _ => (p, off, Z.of_nat (length data), ret)
  | EvSeek ret => (NewBlock, 0, 0, ret)
  end.

(* ================================================================= *)
(** ** What a run shows *)

(** What a run of [vhd_write] on an image file shows: the return
    value, the length of the file, the four bytes at [bat], the calls. *)
Definition write_report (r : option (Z * state image script)) (bat : Z)
  : option (Z * Z * list Z * list (purpose * Z * Z * Z)) :=
  match r with
  | Some (ret, s) =>
      Some (ret, flen (st_world s), image_bytes (st_world s) bat 4,
            map event_summary (st_trace s))
  | None => None
  end.

(** A region of [n] zero bytes. *)
Definition zeros (n : Z) : list Z := repeat 0 (Z.to_nat n).


(* ================================================================= *)
(** ** Predicates on traces, configurations and images *)

(** The store after the writes of [evs], in order. *)
Definition replay {W : Type} {BK : Backing W} (w : W) (evs : list event) : W :=
  fold_left
    (fun w ev =>
       match ev with
       | EvWrite _ off data _ _ => fst (bk_pwrite w data off)
       | _ => w
       end) evs w.

(** The failures [vhd_write] tests for: a write of a BAT entry, of a
    new block or of the bitmap whose return differs from its size, and
    a write of the data that returns -1. *)
Definition checked_failure (ev : event) : bool :=
  match ev with
  | EvWrite Data _ _ ret _ => ret =? -1
  | EvWrite _ _ data ret _ => negb (ret =? Z.of_nat (length data))
  | _ => false
  end.

(** [errno] after a failure that [vhd_write] has detected: what the
    call left, [E2BIG] in place of 0 except for the data write. *)
Definition carried_errno (ev : event) : Z :=
  match ev with
  | EvWrite Data _ _ _ err => err
  | EvWrite _ _ _ _ err => if err =? 0 then E2BIG else err
  | _ => 0
  end.

(** A new-block write carries [sector_size + block_size] zero bytes
    and then the saved footer. *)
Definition new_block_shape (cfg : config) (ev : event) : Prop :=
  match ev with
  | EvWrite NewBlock _ data _ _ =>
      data = repeat 0 (Z.to_nat (sector_size cfg + block_size cfg)) ++ vhd_Footer cfg
  | _ => True
  end.

(** The globals of a dynamic VHD as [main] leaves them. *)
Record vhd_config (cfg : config) : Prop := {
  vc_block_shift : 9 <= block_shift cfg <= 31;
  vc_block_size : block_size cfg = 2 ^ block_shift cfg;
  vc_sector_size : sector_size cfg = 512;
  vc_sector_shift : sector_shift cfg = 9;
  vc_footer : length (vhd_Footer cfg) = 512%nat;
  vc_table_offset : 0 <= table_offset cfg < 2 ^ 62;
  vc_current_size : 0 <= current_size cfg < 2 ^ 62
}.

(** The file after [pwrite(data, off)] with [0 <= off]. *)
Definition image_write (f : image) (data : list Z) (off : Z) : image :=
  match data with
  | [] => f
  | _ => image_store f data off
  end.

(** Number of BAT entries that cover [current_size]. *)
Definition bat_entries (cfg : config) : Z :=
  (current_size cfg + block_size cfg - 1) / block_size cfg.

Definition bat_end (cfg : config) : Z := table_offset cfg + 4 * bat_entries cfg.

Definition bat_entry (cfg : config) (f : image) (k : Z) : list Z :=
  image_bytes f (table_offset cfg + 4 * k) 4.

(** The BAT lies before the footer, the footer starts on a sector
    boundary, every allocated block (bitmap sector and data) lies
    between the BAT and the footer, and the last 512 bytes of the file
    are the footer saved at startup. *)
Record image_ok (cfg : config) (f : image) : Prop := {
  ok_bat : bat_end cfg <= flen f - 512;
  ok_aligned : (flen f - 512) mod 512 = 0;
  ok_blocks : forall k, 0 <= k < bat_entries cfg ->
      is_sparse (bat_entry cfg f k) = false ->
      bat_end cfg <= ntohl_bytes (bat_entry cfg f k) * 512
      /\ ntohl_bytes (bat_entry cfg f k) * 512 + 512 + block_size cfg <= flen f - 512;
  ok_footer : image_bytes f (flen f - 512) 512 = vhd_Footer cfg;
  ok_limit : flen f <= 2 ^ 41
}.

(** A sequence of calls of [vhd_write], each with its region, size and
    offset. *)
Fixpoint run_writes {W E : Type} {BK : Backing W} {HO : Host E} (cfg : config)
  (ws : list (list Z * Z * Z)) (s : state W E) : option (state W E) :=
  match ws with
  | [] => Some s
  | (io, size, offset) :: ws' =>
      match vhd_write cfg io size offset s with
      | Some (_, s1) => run_writes cfg ws' s1
      | None => None
      end
  end.

(** Requests that address the device. *)
Definition addresses_device (w : list Z * Z * Z) : Prop :=
  let '(_, size, offset) := w in
  0 <= offset < 2 ^ 62 /\ 0 <= size < 2 ^ 62.

(** The fields a transport call leaves alone. *)
Definition same_store {W E : Type} (s s' : state W E) : Prop :=
  st_world s' = st_world s /\ st_trace s' = st_trace s /\ st_errno s' = st_errno s.

(** The fields the logical layer leaves alone. *)
Definition same_session {W E : Type} (s s' : state W E) : Prop :=
  st_sent s' = st_sent s /\ st_buffer_size s' = st_buffer_size s
  /\ st_buf s' = st_buf s.

(** Reads at most the bytes asked for: the contract of [pread] and of
    the [dll_read] callback. *)
Definition pread_bounded {W : Type} {BK : Backing W} : Prop :=
  forall w n o d, bk_pread w n o = Done d -> Z.of_nat (length d) <= Z.max 0 n.

(** The bytes of [io] at positions [a <= p < b] are zero. *)
Definition zero_between (io : list Z) (a b : Z) : Prop :=
  forall p, a <= p < b -> nth (Z.to_nat p) io 0 = 0.

(** What the session needs of the host: [safe_read] delivers at most
    the bytes asked for, and a mapped region covers the size asked for
    and is no larger than 2^62 bytes. *)
Definition host_ok {E : Type} {HO : Host E} (cfg : config) : Prop :=
  (forall n e d e', safe_read n e = (Some d, e') -> Z.of_nat (length d) <= Z.max 0 n)
  /\ (forall n e r e', map_region n e = (Mapped r, e') ->
        n <= r /\ r - IMDPROXY_HEADER_SIZE cfg <= 2 ^ 62)
  /\ 0 <= IMDPROXY_HEADER_SIZE cfg <= 2 ^ 62.

(** The largest buffer a session can hold. *)
Definition buffer_bound (cfg : config) : Z :=
  if win32 cfg && drv_mode cfg then 2 ^ 62 else SIZE_HALF.

(** The buffer of a running session. *)
Definition buffer_inv {W E : Type} (cfg : config) (s : state W E) : Prop :=
  0 <= st_buffer_size s <= buffer_bound cfg
  /\ Z.of_nat (length (st_buf s)) <= buffer_bound cfg.

(** The outcome of a handler never shrinks the buffer, and leaves a
    well-formed buffer when the session goes on. *)
Definition grows {W E : Type} (cfg : config) (s : state W E)
    (out : run Z (state W E)) : Prop :=
  match out with
  | Ret r s' =>
      st_buffer_size s <= st_buffer_size s' /\ (r <> 0 -> buffer_inv cfg s')
  | Crash s' => st_buffer_size s <= st_buffer_size s'
  | Diverge => True
  end.

(* ================================================================= *)
(** ** More sample images, configurations and sessions *)

(** The VHD of [img_sparse] with blocks 0 and 1 allocated: block 0 at
    sector 4 (bitmap at 2048, data at 2560), block 1 at sector 4101
    (bitmap at 2099712, data at 2100224), footer at 4197376.  No data
    byte is zero. *)
Definition img_two_blocks : image :=
  mkImage 4197888
    (fun i =>
       if i <? 512 then nth (Z.to_nat i) sample_footer 0
       else if i <? 1536 then 0
       else if i <? 1539 then 0
       else if i =? 1539 then 4
       else if i <? 1542 then 0
       else if i =? 1542 then 16
       else if i =? 1543 then 5
       else if i <? 2048 then 255
       else if i <? 2560 then 255
       else if i <? 2099712 then 1 + i mod 250
       else if i <? 2100224 then 255
       else if i <? 4197376 then 1 + i mod 250
       else nth (Z.to_nat (i - 4197376)) sample_footer 0).

(** A raw image of 100 bytes, none of them zero. *)
Definition img_raw : image := mkImage 100 (fun i => 1 + i mod 250).

(** [sample_cfg] for a raw image ([vhd_mode] off). *)
Definition raw_cfg : config := {|
  win32 := false;
  shm_mode := false;
  drv_mode := false;
  vhd_mode := false;
  image_offset := 0;
  devio_info_file_size := 100;
  devio_info_req_alignment := 1;
  devio_info_flags := 0;
  block_size := 0;
  sector_size := 512;
  table_offset := 0;
  block_shift := 0;
  sector_shift := 0;
  current_size := 0;
  vhd_Footer := [];
  IMDPROXY_HEADER_SIZE := 4096;
  DEVIODRV_BUFFER_HEADER_SIZE := 24;
  IMDPROXY_REQ_INFO := 1;
  IMDPROXY_REQ_READ := 2;
  IMDPROXY_REQ_WRITE := 3;
  IMDPROXY_FLAG_RO := 1
|}.

(** [sample_cfg] opened read-only ([devio_info.flags] has
    [IMDPROXY_FLAG_RO]). *)
Definition ro_cfg : config := {|
  win32 := false;
  shm_mode := false;
  drv_mode := false;
  vhd_mode := true;
  image_offset := 0;
  devio_info_file_size := 16777216;
  devio_info_req_alignment := 1;
  devio_info_flags := 1;
  block_size := 2097152;
  sector_size := 512;
  table_offset := 1536;
  block_shift := 21;
  sector_shift := 9;
  current_size := 16777216;
  vhd_Footer := sample_footer;
  IMDPROXY_HEADER_SIZE := 4096;
  DEVIODRV_BUFFER_HEADER_SIZE := 24;
  IMDPROXY_REQ_INFO := 1;
  IMDPROXY_REQ_READ := 2;
  IMDPROXY_REQ_WRITE := 3;
  IMDPROXY_FLAG_RO := 1
|}.

(** The 16 bytes of a request record after its request code. *)
Definition request_header (offset length : Z) : list Z :=
  le_encode 8 offset ++ le_encode 8 length.

(** What a run of [vhd_write] shows of its calls: the return value and
    the calls. *)
Definition write_calls {W E : Type} (r : option (Z * state W E))
  : option (Z * list (purpose * Z * Z * Z)) :=
  match r with
  | Some (ret, s) => Some (ret, map event_summary (st_trace s))
  | None => None
  end.

(** The return value of a read. *)
Definition read_count {W E : Type} (r : option (Z * list Z * state W E))
  : option Z :=
  match r with
  | Some (ret, _, _) => Some ret
  | None => None
  end.

(** What a run of a request handler shows: the return value, the blocks
    handed to [comm_write], the calls into the backing store, the log. *)
Definition handler_report {W E : Type} (r : run Z (state W E))
  : option (Z * list (list Z) * list (purpose * Z * Z * Z) * list string) :=
  match r with
  | Ret v s => Some (v, st_sent s, map event_summary (st_trace s), st_syslog s)
  | _ => None
  end.

(** The state a run ends in, [d] when there is none. *)
Definition state_of {A S : Type} (d : S) (r : run A S) : S :=
  match r with
  | Ret _ s => s
  | Crash s => s
  | Diverge => d
  end.

(** The value a run returns, [d] when it returns none. *)
Definition value_of {A S : Type} (d : A) (r : run A S) : A :=
  match r with
  | Ret v _ => v
  | _ => d
  end.

(** Equality of two regions. *)
Fixpoint bytes_eqb (a b : list Z) : bool :=
  match a, b with
  | [], [] => true
  | x :: a', y :: b' => (x =? y) && bytes_eqb a' b'
  | _, _ => false
  end.

(** Whether the last 512 bytes of the file are [footer]. *)
Definition ends_with_footer (f : image) (footer : list Z) : bool :=
  bytes_eqb (image_bytes f (flen f - 512) 512) footer.

(** What a run of [vhd_write] on a [limited] store leaves: the return
    value, the calls, the length of the file, whether its last 512
    bytes are [footer], [errno]. *)
Definition footer_report {E : Type} (footer : list Z)
    (r : option (Z * state limited E))
  : option (Z * list (purpose * Z * Z * Z) * Z * bool * Z) :=
  match r with
  | Some (ret, s) =>
      Some (ret, map event_summary (st_trace s), flen (lim_image (st_world s)),
            ends_with_footer (lim_image (st_world s)) footer, st_errno s)
  | None => None
  end.

(** A READ of 512 bytes at offset 0 of the raw image of 100 bytes: the
    session as [read_data] finds it, after [read_data_prepare], after
    [logical_read], and at the end. *)
Definition short_read_session : state image script :=
  session img_raw (request_header 0 512) 1024 (zeros 1024).

Definition short_read_prepared : state image script :=
  state_of short_read_session (read_data_prepare raw_cfg short_read_session).

Definition short_read_region : list Z := image_bytes img_raw 0 100 ++ zeros 924.

Definition short_read_done : state image script :=
  match logical_read raw_cfg (st_buf short_read_prepared) 512 0 short_read_prepared with
  | Some (_, _, s) => s
  | None => short_read_prepared
  end.

Definition short_read_final : state image script :=
  state_of short_read_session (read_data raw_cfg 0 short_read_session).

(** A WRITE of 512 bytes at offset 0, as [write_data] finds it. *)
Definition write_session : state image script :=
  session img_sparse (request_header 0 512 ++ repeat 7 512) 1024 (zeros 1024).

(** A request of 4096 bytes at offset 0 in a session whose buffer has
    1024 bytes. *)
Definition oversize_session : state image script :=
  session img_raw (request_header 0 4096) 1024 (zeros 1024).

(** A session of three requests on [img_block0]: a READ of 4096 bytes
    at offset 0, an INFO, and an unknown request. *)
Definition three_requests : state image script :=
  session img_block0
    (le_encode 8 2 ++ request_header 0 4096 ++ le_encode 8 1 ++ le_encode 8 9)
    1024 (zeros 1024).

(* ================================================================= *)
(** ** [main]: the globals it computes before the session *)

Definition s32 (x : Z) : Z := (x + 2 ^ 31) mod 2 ^ 32 - 2 ^ 31.

(** The loops
    [for (shift = 0; (shift < 64) && ((((safeio_size_t)1) << shift) != x); shift++);]
    that compute [block_shift] and [sector_shift]. *)
Fixpoint find_shift_loop (x shift : Z) (fuel : nat) : Z :=
  if (shift <? 64) && negb (u64 (Z.shiftl 1 shift) =? x) then
    match fuel with
    | O => shift
    | S fuel' => find_shift_loop x (shift + 1) fuel'
    end
  else shift.

Definition find_shift (x : Z) : Z := find_shift_loop x 0 64.

(** The [switch (suf)] that scales a size: the cases [T], [G], [M], [K]
    fall through to [B], the cases [t], [g], [m], [k] to [b]; [wrap]
    is the width of the variable.  The flag tells whether
    [Unsupported size suffix] was logged. *)
Definition size_suffix (wrap : Z -> Z) (v : Z) (suf : ascii) : Z * bool :=
  let shl x := wrap (Z.shiftl x 10) in
  let mul x := wrap (x * 1000) in
  if Ascii.eqb suf "T" then (shl (shl (shl (shl v))), false)
  else if Ascii.eqb suf "G" then (shl (shl (shl v)), false)
  else if Ascii.eqb suf "M" then (shl (shl v), false)
  else if Ascii.eqb suf "K" then (shl v, false)
  else if Ascii.eqb suf "B" then (v, false)
  else if Ascii.eqb suf "t" then (mul (mul (mul (mul v))), false)
  else if Ascii.eqb suf "g" then (mul (mul (mul v)), false)
  else if Ascii.eqb suf "m" then (mul (mul v), false)
  else if Ascii.eqb suf "k" then (mul v, false)
  else if Ascii.eqb suf "b" then (v, false)
  else (v, true).

(** What [sscanf(arg, "%llu%c", &v, &suf)] returned and left in its
    two variables. *)
Record scanned : Type := mkScanned {
  sc_count : Z;
  sc_value : Z;
  sc_suf : ascii
}.

(** The third argument of [main] ([argv[3]], blocks or partition
    number), [sc] being the outcome of [sscanf] on it when
    [argc > 3].  The result is [partition_number],
    [devio_info.file_size] and whether the suffix was refused. *)
Definition size_argument (argc : Z) (sc : scanned) (file_size : Z)
  : Z * Z * bool :=
  if 3 <? argc then
    let spec_size := if 1 <=? sc_count sc then u64 (sc_value sc) else 0 in
    if sc_count sc =? 2 then
      let '(v, bad) := size_suffix u64 spec_size (sc_suf sc) in
      (0, v, bad)
    else if spec_size <? 512 then (s32 spec_size, file_size, false)
    else (0, u64 (Z.shiftl spec_size 9), false)
  else (1, file_size, false).

(** The bytes of a field of [vhd_info] or of a partition table. *)
Definition field (b : list Z) (off len : nat) : list Z :=
  firstn len (skipn off b).

Definition cookie_conectix : list Z := [99; 111; 110; 101; 99; 116; 105; 120].
Definition cookie_cxsparse : list Z := [99; 120; 115; 112; 97; 114; 115; 101].

(** The test of the autodetection: the read returned all of
    [vhd_info], the header starts with [cxsparse], the footer with
    [conectix], and [Footer.DiskType] is [0x03000000] in host order. *)
Definition is_dynamic_vhd (readdone : Z) (vhd_info : list Z) : bool :=
  (readdone =? 1536)
  && bytes_eqb (field vhd_info 512 8) cookie_cxsparse
  && bytes_eqb (field vhd_info 0 8) cookie_conectix
  && (le_decode (field vhd_info 60 4) =? 50331648).

Section Startup.
Context {W E : Type} {BK : Backing W} {HO : Host E}.
Implicit Type s : state W E.

(** The autodetection of [main]: [vhd_info] is read from offset 0
    and, if it shows a dynamic VHD, the VHD globals are set.  The
    result is the exit code of [main] when it returns here, or else
    the globals. *)
Definition detect_vhd (auto_vhd_detect : bool) (cfg : config) s
  : (Z + config) * state W E :=
  let '(readdone, data, s) := physical_read Data 1536 0 s in
  let vhd_info := store_at (repeat 0 1536) data in
  if auto_vhd_detect && is_dynamic_vhd readdone vhd_info then
    let '(buf2, h) := malloc (st_buffer_size s) (st_host s) in
    let s := set_host h s in
    match buf2 with
    | None => (inl 2, syslog "malloc() failed" s)
    | Some _ =>
        let s := set_buf2 (Some (st_buffer_size s)) s in
        let current_size := GetBigEndian64 (map int8 (field vhd_info 48 8)) in
        let table_offset := GetBigEndian64 (map int8 (field vhd_info 528 8)) in
        let block_size := ntohl_bytes (field vhd_info 544 4) in
        (inr {|
           win32 := win32 cfg;
           shm_mode := shm_mode cfg;
           drv_mode := drv_mode cfg;
           vhd_mode := true;
           image_offset := image_offset cfg;
           devio_info_file_size := u64 current_size;
           devio_info_req_alignment := devio_info_req_alignment cfg;
           devio_info_flags := devio_info_flags cfg;
           block_size := block_size;
           sector_size := 512;
           table_offset := table_offset;
           block_shift := find_shift block_size;
           sector_shift := find_shift 512;
           current_size := current_size;
           vhd_Footer := firstn 512 vhd_info;
           IMDPROXY_HEADER_SIZE := IMDPROXY_HEADER_SIZE cfg;
           DEVIODRV_BUFFER_HEADER_SIZE := DEVIODRV_BUFFER_HEADER_SIZE cfg;
           IMDPROXY_REQ_INFO := IMDPROXY_REQ_INFO cfg;
           IMDPROXY_REQ_READ := IMDPROXY_REQ_READ cfg;
           IMDPROXY_REQ_WRITE := IMDPROXY_REQ_WRITE cfg;
           IMDPROXY_FLAG_RO := IMDPROXY_FLAG_RO cfg
         |}, s)
    end
  else
    (inr {|
       win32 := win32 cfg;
       shm_mode := shm_mode cfg;
       drv_mode := drv_mode cfg;
       vhd_mode := vhd_mode cfg;
       image_offset := image_offset cfg;
       devio_info_file_size := devio_info_file_size cfg;
       devio_info_req_alignment := devio_info_req_alignment cfg;
       devio_info_flags := devio_info_flags cfg;
       block_size := block_size cfg;
       sector_size := sector_size cfg;
       table_offset := table_offset cfg;
       block_shift := block_shift cfg;
       sector_shift := find_shift (sector_size cfg);
       current_size := current_size cfg;
       vhd_Footer := firstn 512 vhd_info;
       IMDPROXY_HEADER_SIZE := IMDPROXY_HEADER_SIZE cfg;
       DEVIODRV_BUFFER_HEADER_SIZE := DEVIODRV_BUFFER_HEADER_SIZE cfg;
       IMDPROXY_REQ_INFO := IMDPROXY_REQ_INFO cfg;
       IMDPROXY_REQ_READ := IMDPROXY_REQ_READ cfg;
       IMDPROXY_REQ_WRITE := IMDPROXY_REQ_WRITE cfg;
       IMDPROXY_FLAG_RO := IMDPROXY_FLAG_RO cfg
     |}, s).

(** The test for a partition table in a sector: the signature [55 AA]
    and four status bytes that are [0x00] or [0x80]. *)
Definition table_valid (m : list Z) : bool :=
  (nth 510 m 0 =? 85) && (nth 511 m 0 =? 170)
  && (Z.land (nth 446 m 0) 127 =? 0) && (Z.land (nth 462 m 0) 127 =? 0)
  && (Z.land (nth 478 m 0) 127 =? 0) && (Z.land (nth 494 m 0) 127 =? 0).

(** Entry [i] of the table in sector [m]: its type byte, and its
    start and length fields shifted by [sector_shift]. *)
Definition entry_type (m : list Z) (i : nat) : Z := nth (446 + 16 * i + 4) m 0.

Definition entry_start (cfg : config) (m : list Z) (i : nat) : Z :=
  s64 (Z.shiftl (GetLittleEndian32U (field m (446 + 16 * i + 8) 4)) (sector_shift cfg)).

Definition entry_length (cfg : config) (m : list Z) (i : nat) : Z :=
  s64 (Z.shiftl (GetLittleEndian32U (field m (446 + 16 * i + 12) 4)) (sector_shift cfg)).

Definition is_extended (type : Z) : bool := (type =? 5) || (type =? 15).

(** The [for (e = 0; e < 4; e++)] over an extended partition table:
    [read_next_ebr], [c], [image_offset], [devio_info.file_size]. *)
Fixpoint scan_ebr_entries (cfg : config) (ebr : list Z)
    (partition_number first_ebr_offset : Z) (e n : nat)
    (c image_offset file_size : Z) : bool * Z * Z * Z :=
  match n with
  | O => (false, c, image_offset, file_size)
  | S n' =>
      let type := entry_type ebr e in
      if type =? 0 then
        scan_ebr_entries cfg ebr partition_number first_ebr_offset (S e) n'
          c image_offset file_size
      else if is_extended type then
        (true, c, s64 (first_ebr_offset + entry_start cfg ebr e), file_size)
      else
        let c := s32 (c + 1) in
        if c =? partition_number then
          (false, c, s64 (image_offset + entry_start cfg ebr e),
           u64 (entry_length cfg ebr e))
        else
          scan_ebr_entries cfg ebr partition_number first_ebr_offset (S e) n'
            c image_offset file_size
  end.

(** The [while (read_next_ebr)] that follows the chain of extended
    partition tables; [junk] is what the stack holds where [ebr] is
    placed, [fuel] bounds the iterations. *)
Fixpoint scan_ebr_chain (cfg : config) (fuel : nat) (junk : list Z)
    (partition_number first_ebr_offset c image_offset file_size : Z) s
  : option (Z * Z * Z * state W E) :=
  match logical_read cfg junk 512 image_offset s with
  | None => None
  | Some (readdone, ebr, s) =>
      if (readdone =? 512) && table_valid ebr then
        let '(read_next_ebr, c, image_offset, file_size) :=
          scan_ebr_entries cfg ebr partition_number first_ebr_offset 0 4
            c image_offset file_size in
        if read_next_ebr then
          match fuel with
          | O => None
          | S fuel' =>
              scan_ebr_chain cfg fuel' junk partition_number first_ebr_offset
                c image_offset file_size s
          end
        else Some (c, image_offset, file_size, s)
      else Some (c, image_offset, file_size, s)
  end.

(** The [for (i = 0; i < 4; i++)] over the master boot record:
    [image_offset] and [devio_info.file_size] when it ends. *)
Fixpoint scan_mbr_entries (cfg : config) (fuel : nat) (junk mbr : list Z)
    (partition_number : Z) (i n : nat) (c image_offset file_size : Z) s
  : option (Z * Z * state W E) :=
  match n with
  | O => Some (image_offset, file_size, s)
  | S n' =>
      let type := entry_type mbr i in
      if type =? 0 then
        scan_mbr_entries cfg fuel junk mbr partition_number (S i) n'
          c image_offset file_size s
      else if is_extended type then
        let first_ebr_offset := entry_start cfg mbr i in
        match scan_ebr_chain cfg fuel junk partition_number first_ebr_offset
                c first_ebr_offset file_size s with
        | None => None
        | Some (c, image_offset, file_size, s) =>
            scan_mbr_entries cfg fuel junk mbr partition_number (S i) n'
              c image_offset file_size s
        end
      else
        let c := s32 (c + 1) in
        if c =? partition_number then
          Some (entry_start cfg mbr i, u64 (entry_length cfg mbr i), s)
        else
          scan_mbr_entries cfg fuel junk mbr partition_number (S i) n'
            c image_offset file_size s
  end.

(** [cfg] with another window into the image. *)
Definition with_window (cfg : config) (offset size : Z) : config := {|
  win32 := win32 cfg;
  shm_mode := shm_mode cfg;
  drv_mode := drv_mode cfg;
  vhd_mode := vhd_mode cfg;
  image_offset := offset;
  devio_info_file_size := size;
  devio_info_req_alignment := devio_info_req_alignment cfg;
  devio_info_flags := devio_info_flags cfg;
  block_size := block_size cfg;
  sector_size := sector_size cfg;
  table_offset := table_offset cfg;
  block_shift := block_shift cfg;
  sector_shift := sector_shift cfg;
  current_size := current_size cfg;
  vhd_Footer := vhd_Footer cfg;
  IMDPROXY_HEADER_SIZE := IMDPROXY_HEADER_SIZE cfg;
  DEVIODRV_BUFFER_HEADER_SIZE := DEVIODRV_BUFFER_HEADER_SIZE cfg;
  IMDPROXY_REQ_INFO := IMDPROXY_REQ_INFO cfg;
  IMDPROXY_REQ_READ := IMDPROXY_REQ_READ cfg;
  IMDPROXY_REQ_WRITE := IMDPROXY_REQ_WRITE cfg;
  IMDPROXY_FLAG_RO := IMDPROXY_FLAG_RO cfg
|}.

(** The partition selection of [main], from
    [if (partition_number >= 1 && partition_number < 512)] to the end
    of that block.  The result is the exit code when [main] returns
    here, or else the globals; [None] when a loop does not end within
    [fuel]. *)
Definition select_partition (cfg : config) (fuel : nat) (junk : list Z)
    (partition_number : Z) s : option ((Z + config) * state W E) :=
  if (1 <=? partition_number) && (partition_number <? 512) then
    match logical_read cfg junk 512 0 s with
    | None => None
    | Some (readdone, mbr, s) =>
        if readdone <? 512 then Some (inr cfg, syslog "Error reading device" s)
        else if table_valid mbr then
          match scan_mbr_entries cfg fuel junk mbr partition_number 0 4
                  0 0 (devio_info_file_size cfg) s with
          | None => None
          | Some (image_offset, file_size, s) =>
              if (file_size =? 0)
                 || (negb (current_size cfg =? 0)
                     && (current_size cfg <? s64 (image_offset + s64 file_size)))
              then Some (inl 1, syslog "Partition not found" s)
              else Some (inr (with_window cfg image_offset file_size), s)
          end
        else Some (inr cfg, s)
    end
  else Some (inr cfg, s).

End Startup.

(** The number of used entries (type not 0) below entry [i] of the
    partition table in sector [m]. *)
Fixpoint used_before (m : list Z) (i : nat) : Z :=
  match i with
  | O => 0
  | S j => used_before m j + (if entry_type m j =? 0 then 0 else 1)
  end.

(* ================================================================= *)
(** ** The device a dynamic VHD image holds *)

(** Byte [x] of the device held in the image file [f]: zero in a block
    whose BAT entry is [0xFFFFFFFF], else the byte of the file at
    [x mod block_size] after the bitmap sector of the block. *)
Definition vhd_byte (cfg : config) (f : image) (x : Z) : Z :=
  let k := x / block_size cfg in
  if is_sparse (bat_entry cfg f k) then 0
  else fbyte f (ntohl_bytes (bat_entry cfg f k) * 512 + 512 + x mod block_size cfg).

Definition vhd_bytes (cfg : config) (f : image) (offset : Z) (n : nat) : list Z :=
  map (fun i => vhd_byte cfg f (offset + Z.of_nat i)) (seq 0 n).

(** No two allocated blocks share a byte of the file. *)
Definition blocks_disjoint (cfg : config) (f : image) : Prop :=
  forall j k, 0 <= j < bat_entries cfg -> 0 <= k < bat_entries cfg -> j <> k ->
    is_sparse (bat_entry cfg f j) = false ->
    is_sparse (bat_entry cfg f k) = false ->
    ntohl_bytes (bat_entry cfg f j) * 512 + 512 + block_size cfg
      <= ntohl_bytes (bat_entry cfg f k) * 512
    \/ ntohl_bytes (bat_entry cfg f k) * 512 + 512 + block_size cfg
      <= ntohl_bytes (bat_entry cfg f j) * 512.

(** Sixteen bytes to write across the boundary of blocks 0 and 1 of
    [img_two_blocks]. *)
Definition boundary_data : list Z :=
  [201; 202; 203; 204; 205; 206; 207; 208; 209; 210; 211; 212; 213; 214; 215; 216].

Definition boundary_session : state image script :=
  session img_two_blocks [] 1024 (zeros 1024).

(* ================================================================= *)
(** ** Samples for the startup of [main] and for single requests *)

(** The globals as [main] has them for a raw image of sectors of 512
    bytes, before a size or a partition is chosen. *)
Definition part_cfg : config := {|
  win32 := false;
  shm_mode := false;
  drv_mode := false;
  vhd_mode := false;
  image_offset := 0;
  devio_info_file_size := 0;
  devio_info_req_alignment := 1;
  devio_info_flags := 0;
  block_size := 0;
  sector_size := 512;
  table_offset := 0;
  block_shift := 0;
  sector_shift := 9;
  current_size := 0;
  vhd_Footer := [];
  IMDPROXY_HEADER_SIZE := 4096;
  DEVIODRV_BUFFER_HEADER_SIZE := 24;
  IMDPROXY_REQ_INFO := 1;
  IMDPROXY_REQ_READ := 2;
  IMDPROXY_REQ_WRITE := 3;
  IMDPROXY_FLAG_RO := 1
|}.

(** A raw image of four sectors with a master boot record: entry 0 has
    type 7, starts at sector 1 and has 2 sectors. *)
Definition img_mbr : image :=
  mkImage 2048
    (fun i =>
       if i =? 450 then 7
       else if i =? 454 then 1
       else if i =? 458 then 2
       else if i =? 510 then 85
       else if i =? 511 then 170
       else 0).

Definition mbr_session : state image script := session img_mbr [] 1024 (zeros 1024).

(** [mbr_session] after the master boot record was read. *)
Definition mbr_read : state image script :=
  match logical_read part_cfg (zeros 512) 512 0 mbr_session with
  | Some (_, _, s) => s
  | None => mbr_session
  end.

(** A raw image of two sectors: the master boot record has an extended
    partition at sector 1, and the table at sector 1 has an extended
    entry whose start is 0, the table itself. *)
Definition img_cyclic : image :=
  mkImage 1024
    (fun i =>
       if i =? 450 then 5
       else if i =? 454 then 1
       else if i =? 510 then 85
       else if i =? 511 then 170
       else if i =? 962 then 5
       else if i =? 1022 then 85
       else if i =? 1023 then 170
       else 0).

(** The first 1536 bytes of a dynamic VHD of 16 MiB in blocks of 2 MiB
    with its BAT at 1536: the footer with cookie, [CurrentSize] and
    [DiskType], the header with cookie, [TableOffset] and [BlockSize]. *)
Definition dynamic_info : list Z :=
  cookie_conectix ++ zeros 40 ++ [0; 0; 0; 0; 1; 0; 0; 0] ++ zeros 4 ++ [0; 0; 0; 3]
    ++ zeros 448
    ++ cookie_cxsparse ++ zeros 8 ++ [0; 0; 0; 0; 0; 0; 6; 0] ++ zeros 8 ++ [0; 32; 0; 0]
    ++ zeros 988.

(** That VHD with no block allocated: the BAT sector and the footer
    follow. *)
Definition img_dynamic : image :=
  mkImage 2560
    (fun i =>
       if i <? 1536 then nth (Z.to_nat i) dynamic_info 0
       else if i <? 2048 then 255
       else nth (Z.to_nat (i - 2048)) dynamic_info 0).

Definition dynamic_session : state image script :=
  session img_dynamic [] 1024 (zeros 1024).

(** A request with the unknown code 9, and an INFO request. *)
Definition unknown_session : state image script :=
  session img_raw (le_encode 8 9) 1024 (zeros 1024).


















(** [raw_cfg] on Windows with the shared-memory transport, and a
    session whose shared header of 4096 bytes was just flushed. *)
Definition shm_cfg : config := {|
  win32 := true;
  shm_mode := true;
  drv_mode := false;
  vhd_mode := false;
  image_offset := 0;
  devio_info_file_size := 100;
  devio_info_req_alignment := 1;
  devio_info_flags := 0;
  block_size := 0;
  sector_size := 512;
  table_offset := 0;
  block_shift := 0;
  sector_shift := 9;
  current_size := 0;
  vhd_Footer := [];
  IMDPROXY_HEADER_SIZE := 4096;
  DEVIODRV_BUFFER_HEADER_SIZE := 24;
  IMDPROXY_REQ_INFO := 1;
  IMDPROXY_REQ_READ := 2;
  IMDPROXY_REQ_WRITE := 3;
  IMDPROXY_FLAG_RO := 1
|}.

Definition shm_session : state image script :=
  mkState img_raw 0 [] (mkScript [] true) 1024 (zeros 1024) None (zeros 4096)
    None None [] [].

(* ================================================================= *)
(** * Properties *)

(* ================================================================= *)
(** ** Fixed-width integers *)

Lemma u64_small x : 0 <= x < 2 ^ 64 -> u64 x = x.
Proof. intros H. unfold u64. now apply Z.mod_small. Qed.

Lemma s64_small x : - 2 ^ 63 <= x < 2 ^ 63 -> s64 x = x.
Proof. intros H. unfold s64. rewrite Z.mod_small; lia. Qed.

Lemma u32_small x : 0 <= x < 2 ^ 32 -> u32 x = x.
Proof. intros H. unfold u32. now apply Z.mod_small. Qed.

Lemma u64_range x : 0 <= u64 x < 2 ^ 64.
Proof. unfold u64. apply Z.mod_pos_bound. lia. Qed.

Lemma SIZE_HALF_eq : SIZE_HALF = 2 ^ 63 - 1.
Proof. reflexivity. Qed.

(* ================================================================= *)
(** ** The endian codecs *)

(** C7, at the input [00 80 00 00 00 00 00 00]: the format assigns it
    [2^55]; [GetBigEndian64] reads the bytes through [int8_t], the byte
    [0x80] is sign-extended and the load returns [-2^55], that is
    [0xFF80000000000000]. *)
Theorem GetBigEndian64_sign_extends :
  GetBigEndian64 (map int8 [0; 128; 0; 0; 0; 0; 0; 0]) = - 2 ^ 55
  /\ big_endian_sum [0; 128; 0; 0; 0; 0; 0; 0] = 2 ^ 55
  /\ u64 (GetBigEndian64 (map int8 [0; 128; 0; 0; 0; 0; 0; 0])) = 18410715276690587648.
Proof.
  split; [vm_compute; reflexivity|].
  split; vm_compute; reflexivity.
Qed.

(** A disk of 2 GiB has [CurrentSize = 00 00 00 00 80 00 00 00]; the
    load makes it negative. *)
Example GetBigEndian64_2GiB :
  GetBigEndian64 (map int8 [0; 0; 0; 0; 128; 0; 0; 0]) = - 2147483648.
Proof. reflexivity. Qed.

(* ================================================================= *)
(** ** The zero-detection loop of [vhd_write] *)

(** With at least one word to test the loop stops before it has
    tested any: its condition is 0 as long as [buf_ptr] is inside the
    part. *)
Lemma zero_scan_stops_at_start io n fuel :
  0 < n -> zero_scan io n fuel 0 = 0.
Proof.
  intros Hn. destruct fuel; simpl;
    destruct (0 <? n) eqn:E; try reflexivity; apply Z.ltb_ge in E; lia.
Qed.

Lemma zero_scan_ge io n fuel i : i <= zero_scan io n fuel i.
Proof.
  revert i. induction fuel as [|fuel IH]; intros i; simpl.
  - destruct (if i <? n then false else qword_at io i =? 0); lia.
  - destruct (if i <? n then false else qword_at io i =? 0); [|lia].
    specialize (IH (i + 1)). lia.
Qed.

(** The test after the loop succeeds exactly when the part is empty. *)
Lemma zero_scan_skips_iff io n fuel :
  (n <=? zero_scan io n fuel 0) = (n <=? 0).
Proof.
  destruct (Z.leb_spec n 0) as [H|H].
  - apply Z.leb_le. pose proof (zero_scan_ge io n fuel 0). lia.
  - rewrite zero_scan_stops_at_start by lia. apply Z.leb_gt. lia.
Qed.

(** C1, at the scenario of the zero-write suppression: BAT entry 6 of
    [img_sparse] is [0xFFFFFFFF] and 4096 zero bytes are written at
    [6 * 0x200000].  The write reports 4096 bytes, but the block is
    allocated: the file grows from 2560 to 2100224 bytes and BAT entry
    6 becomes sector 4. *)
Theorem vhd_write_zeros_allocates :
  image_bytes img_sparse (1536 + 4 * 6) 4 = [255; 255; 255; 255]
  /\ flen img_sparse = 2560
  /\ write_report
       (vhd_write sample_cfg (zeros 4096) 4096 (6 * 2097152)
          (session img_sparse [] 65536 (zeros 65536)))
       (1536 + 4 * 6)
     = Some (4096, 2100224, [0; 0; 0; 4],
             [(BatEntry, 1560, 4, 4); (NewBlock, 0, 0, 2048);
              (BatEntry, 1560, 4, 4); (NewBlock, 2048, 2098176, 2098176);
              (Data, 2560, 4096, 4096); (Bitmap, 2048, 1, 1)]).
Proof.
  split; [vm_compute; reflexivity|].
  split; [reflexivity|].
  vm_compute; reflexivity.
Qed.

(* ================================================================= *)
(** ** [vhd_read] *)



(* ================================================================= *)
(** ** The physical layer: what a call leaves behind *)

Section PhysicalLayer.

Context {W E : Type} {BK : Backing W} {HO : Host E}.

Variable cfg : config.

Implicit Type s : state W E.

Lemma replay_app (w : W) evs1 evs2 :
  replay w (evs1 ++ evs2) = replay (replay w evs1) evs2.
Proof. unfold replay. apply fold_left_app. Qed.

Lemma physical_read_spec p n o s r d s' :
  physical_read p n o s = (r, d, s') ->
  st_trace s' = st_trace s ++ [EvRead p o n r]
  /\ st_world s' = st_world s
  /\ st_host s' = st_host s.
Proof.
  unfold physical_read. destruct (bk_pread (st_world s) n o);
    intros H; inversion H; subst; simpl; auto.
Qed.

Lemma physical_write_spec p d o s r s' :
  physical_write p d o s = (r, s') ->
  st_trace s' = st_trace s ++ [EvWrite p o d r (st_errno s')]
  /\ st_world s' = fst (bk_pwrite (st_world s) d o)
  /\ st_host s' = st_host s.
Proof.
  unfold physical_write. destruct (bk_pwrite (st_world s) d o) as [w [n|e]];
    intros H; inversion H; subst; simpl; auto.
Qed.

Lemma lseek_end_spec d s r s' :
  lseek_end d s = (r, s') ->
  st_trace s' = st_trace s ++ [EvSeek r]
  /\ st_world s' = st_world s
  /\ st_host s' = st_host s.
Proof.
  unfold lseek_end. destruct (bk_seek_end (st_world s) d);
    intros H; inversion H; subst; simpl; auto.
Qed.

Lemma errno_e2big_trace s : st_trace (errno_e2big s) = st_trace s.
Proof. unfold errno_e2big. destruct (st_errno s =? 0); reflexivity. Qed.

Lemma errno_e2big_world s : st_world (errno_e2big s) = st_world s.
Proof. unfold errno_e2big. destruct (st_errno s =? 0); reflexivity. Qed.

Lemma errno_e2big_errno s :
  st_errno (errno_e2big s) = if st_errno s =? 0 then E2BIG else st_errno s.
Proof. unfold errno_e2big. destruct (st_errno s =? 0) eqn:H; simpl; auto. Qed.

End PhysicalLayer.

Ltac break_all :=
  repeat (match goal with
  | H : context [match ?x with _ => _ end] |- _ => destruct x eqn:?
  | H : (_, _) = (_, _) |- _ => inversion H; subst; clear H
  | H : inl _ = inl _ |- _ => inversion H; subst; clear H
  | H : inr _ = inr _ |- _ => inversion H; subst; clear H
  | H : inl _ = inr _ |- _ => discriminate H
  | H : inr _ = inl _ |- _ => discriminate H
  | H : Some _ = Some _ |- _ => inversion H; subst; clear H
  | H : Some _ = None |- _ => discriminate H
  | H : None = Some _ |- _ => discriminate H
  end).

Ltac use_specs :=
  repeat match goal with
  | H : physical_read _ _ _ _ = _ |- _ =>
      apply physical_read_spec in H; destruct H as (? & ? & ?)
  | H : physical_write _ _ _ _ = _ |- _ =>
      apply physical_write_spec in H; destruct H as (? & ? & ?)
  | H : lseek_end _ _ = _ |- _ =>
      apply lseek_end_spec in H; destruct H as (? & ? & ?)
  end.

Ltac proj_simpl :=
  cbn [st_trace st_world st_errno st_host set_host syslog set_errno add_event
       set_world set_buf set_buffer_size] in *.

(* ================================================================= *)
(** ** [vhd_write]: the calls it makes and the failures it detects *)

Section Events.

Context {W E : Type} {BK : Backing W} {HO : Host E}.

Variable cfg : config.

Implicit Type s : state W E.

Hypothesis Hfooter : length (vhd_Footer cfg) = 512%nat.

Hypothesis Hblock : 0 <= sector_size cfg + block_size cfg < 2 ^ 63.

Lemma new_block_length :
  Z.of_nat (length (repeat 0 (Z.to_nat (sector_size cfg + block_size cfg)) ++ vhd_Footer cfg))
  = s64 (sector_size cfg + block_size cfg) + 512.
Proof.
  rewrite length_app, repeat_length, Hfooter, s64_small by lia. lia.
Qed.

Lemma htonl_bytes_length x : Z.of_nat (length (htonl_bytes x)) = 4.
Proof. reflexivity. Qed.

Lemma bitmap_length x k :
  Z.of_nat (length (repeat 255 (Z.to_nat (Z.shiftr (Z.shiftr (u64 x) k + 7) 3))))
  = Z.shiftr (Z.shiftr (u64 x) k + 7) 3.
Proof.
  rewrite repeat_length, Z2Nat.id; [reflexivity|].
  apply Z.shiftr_nonneg.
  assert (0 <= Z.shiftr (u64 x) k) by (apply Z.shiftr_nonneg; apply u64_range).
  lia.
Qed.

Lemma vhd_write_first_events io size offset s r s' :
  vhd_write_first cfg io size offset s = (r, s') ->
  exists evs,
    st_trace s' = st_trace s ++ evs
    /\ st_world s' = replay (st_world s) evs
    /\ Forall (new_block_shape cfg) evs
    /\ forall ev, In ev evs -> checked_failure ev = true ->
         r = None /\ st_errno s' = carried_errno ev.
Proof.
  unfold vhd_write_first.
  intros H. cbv zeta in H.
  break_all.
  all: use_specs.
  all: proj_simpl.
  all: rewrite ?errno_e2big_trace, ?errno_e2big_world, ?errno_e2big_errno; proj_simpl.
  all: repeat match goal with
  | H : st_trace ?a = _ |- context [st_trace ?a] => rewrite H
  end.
  all: rewrite <- ?app_assoc.
  all: eexists; split; [try reflexivity; rewrite app_nil_r; reflexivity |].
  all: split; [ rewrite ?replay_app; simpl; repeat match goal with
  | H : st_world ?a = _ |- context [st_world ?a] => rewrite H end; try reflexivity|].
  all: split; [repeat constructor|].
  all: intros ev Hin Hcf; cbn [In] in Hin.
  all: repeat (destruct Hin as [Hin|Hin];
               [subst ev; cbn [checked_failure carried_errno] in *;
                rewrite ?new_block_length, ?bitmap_length, ?htonl_bytes_length in Hcf;
                try discriminate Hcf; try congruence|]).
  all: try contradiction.
  all: try (split; reflexivity).
Qed.

Lemma vhd_write_rec_events fuel : forall io size offset s r s',
  vhd_write_rec cfg fuel io size offset s = Some (r, s') ->
  exists evs,
    st_trace s' = st_trace s ++ evs
    /\ st_world s' = replay (st_world s) evs
    /\ Forall (new_block_shape cfg) evs
    /\ forall ev, In ev evs -> checked_failure ev = true ->
         r = -1 /\ st_errno s' = carried_errno ev.
Proof.
  induction fuel as [|fuel IH]; intros io size offset s r s' H; simpl in H.
  - destruct (u64 (current_size cfg) <? u64 (offset + size)).
    { inversion H; subst. exists []. rewrite app_nil_r. simpl.
      repeat split; auto; contradiction. }
    destruct (vhd_write_first cfg io size offset s) as [[wd|] s1] eqn:H1;
      apply vhd_write_first_events in H1; destruct H1 as (evs & Ht & Hw & Hn & Hf).
    + destruct (0 <? second_size_of cfg size offset); [discriminate|].
      inversion H; subst. exists evs. repeat split; auto;
        destruct (Hf ev H0 H1); discriminate.
    + inversion H; subst. exists evs. repeat split; auto; apply (Hf ev); auto.
  - destruct (u64 (current_size cfg) <? u64 (offset + size)).
    { inversion H; subst. exists []. rewrite app_nil_r. simpl.
      repeat split; auto; contradiction. }
    destruct (vhd_write_first cfg io size offset s) as [[wd|] s1] eqn:H1;
      apply vhd_write_first_events in H1; destruct H1 as (evs & Ht & Hw & Hn & Hf).
    + destruct (0 <? second_size_of cfg size offset).
      * destruct (vhd_write_rec cfg fuel _ _ _ s1) as [[r2 s2]|] eqn:H2;
          [|discriminate].
        apply IH in H2. destruct H2 as (evs2 & Ht2 & Hw2 & Hn2 & Hf2).
        assert (Hs : s2 = s') by (destruct (u64 r2 =? u64 (-1)); congruence).
        subst s2.
        exists (evs ++ evs2). rewrite app_assoc, <- Ht, replay_app, <- Hw.
        split; [auto|]. split; [auto|]. split; [apply Forall_app; auto|].
        intros ev Hin Hcf. apply in_app_or in Hin. destruct Hin as [Hin|Hin].
        { destruct (Hf ev Hin Hcf); discriminate. }
        destruct (Hf2 ev Hin Hcf) as [Hr He]. subst r2.
        rewrite Z.eqb_refl in H. inversion H; subst. auto.
      * inversion H; subst. exists evs. repeat split; auto;
          destruct (Hf ev H0 H1); discriminate.
    + inversion H; subst. exists evs. repeat split; auto; apply (Hf ev); auto.
Qed.

End Events.

(* ================================================================= *)
(** ** The split at the block boundary; [vhd_read] and [vhd_write] return *)

Section Split.

Variable cfg : config.

Hypothesis VC : vhd_config cfg.

Lemma block_size_range : 512 <= block_size cfg <= 2 ^ 31.
Proof.
  destruct VC as [Hs Hb _ _ _ _ _]. rewrite Hb. split.
  - change 512 with (2 ^ 9). apply Z.pow_le_mono_r; lia.
  - apply Z.pow_le_mono_r; lia.
Qed.

Lemma in_block_offset_mod offset :
  in_block_offset_of cfg offset = u64 offset mod block_size cfg.
Proof.
  pose proof block_size_range as Hr.
  unfold in_block_offset_of.
  rewrite (u64_small (block_size cfg - 1)) by lia.
  destruct VC as [Hs Hb _ _ _ _ _]. rewrite Hb.
  replace (2 ^ block_shift cfg - 1) with (Z.ones (block_shift cfg))
    by (rewrite Z.ones_equiv; lia).
  apply Z.land_ones. lia.
Qed.

Lemma in_block_offset_range offset :
  0 <= in_block_offset_of cfg offset < block_size cfg.
Proof.
  rewrite in_block_offset_mod. apply Z.mod_pos_bound.
  pose proof block_size_range. lia.
Qed.

Lemma split_cross size offset :
  0 <= size < 2 ^ 63 ->
  crosses_block cfg size offset = true ->
  first_size_of cfg size offset = block_size cfg - in_block_offset_of cfg offset
  /\ second_size_of cfg size offset = size - first_size_of cfg size offset
  /\ 0 < first_size_of cfg size offset < size.
Proof.
  intros Hsz Hc.
  pose proof block_size_range as Hb.
  pose proof (in_block_offset_range offset) as Hi.
  unfold second_size_of, first_size_of. rewrite Hc.
  unfold crosses_block in Hc. rewrite u64_small in Hc by lia.
  apply Z.ltb_lt in Hc.
  rewrite (u64_small (block_size cfg - _)) by lia.
  rewrite u64_small by lia. lia.
Qed.

Lemma split_nocross size offset :
  0 <= size < 2 ^ 63 ->
  crosses_block cfg size offset = false ->
  first_size_of cfg size offset = size
  /\ second_size_of cfg size offset = 0
  /\ size + in_block_offset_of cfg offset <= block_size cfg.
Proof.
  intros Hsz Hc.
  pose proof block_size_range as Hb.
  pose proof (in_block_offset_range offset) as Hi.
  unfold second_size_of, first_size_of. rewrite Hc.
  unfold crosses_block in Hc. rewrite u64_small in Hc by lia.
  apply Z.ltb_ge in Hc. lia.
Qed.

Lemma second_size_lt size offset :
  0 <= size < 2 ^ 63 ->
  0 < second_size_of cfg size offset ->
  0 < second_size_of cfg size offset < size.
Proof.
  intros Hsz Hpos.
  destruct (crosses_block cfg size offset) eqn:Hc.
  - destruct (split_cross size offset Hsz Hc) as (H1 & H2 & H3). lia.
  - destruct (split_nocross size offset Hsz Hc) as (H1 & H2 & H3). lia.
Qed.

Context {W E : Type} {BK : Backing W} {HO : Host E}.

Implicit Type s : state W E.

(** [vhd_write] returns: the fuel it is given is enough. *)
Lemma vhd_write_rec_total fuel : forall io size offset s,
  0 <= size < 2 ^ 63 ->
  (Z.to_nat size <= fuel)%nat ->
  exists r s', vhd_write_rec cfg fuel io size offset s = Some (r, s').
Proof.
  induction fuel as [|fuel IH]; intros io size offset s Hsz Hf; simpl.
  - destruct (u64 (current_size cfg) <? u64 (offset + size)); [eauto|].
    destruct (vhd_write_first cfg io size offset s) as [[wd|] s1]; [|eauto].
    destruct (Z.ltb_spec 0 (second_size_of cfg size offset)) as [Hp|Hp]; [|eauto].
    apply second_size_lt in Hp; lia.
  - destruct (u64 (current_size cfg) <? u64 (offset + size)); [eauto|].
    destruct (vhd_write_first cfg io size offset s) as [[wd|] s1]; [|eauto].
    destruct (Z.ltb_spec 0 (second_size_of cfg size offset)) as [Hp|Hp]; [|eauto].
    apply second_size_lt in Hp; [|lia].
    destruct (IH (skipn (Z.to_nat (first_size_of cfg size offset)) io)
                (second_size_of cfg size offset)
                (second_offset_of cfg size offset) s1) as (r2 & s2 & H2);
      [lia|lia|].
    rewrite H2. destruct (u64 r2 =? u64 (-1)); eauto.
Qed.

Lemma vhd_write_total io size offset s :
  0 <= size < 2 ^ 63 ->
  exists r s', vhd_write cfg io size offset s = Some (r, s').
Proof. intros H. apply vhd_write_rec_total; [assumption|lia]. Qed.

Lemma vhd_read_rec_total fuel : forall io size offset s,
  0 <= size < 2 ^ 63 ->
  (Z.to_nat size <= fuel)%nat ->
  exists r io' s', vhd_read_rec cfg fuel io size offset s = Some (r, io', s').
Proof.
  induction fuel as [|fuel IH]; intros io size offset s Hsz Hf; simpl.
  - destruct (u64 (current_size cfg) <? u64 (offset + size)); [eauto|].
    destruct (physical_read BatEntry 4 _ s) as [[rd bo] s1].
    destruct (negb (rd =? 4)); [eauto|].
    destruct (is_sparse bo).
    + destruct (Z.ltb_spec 0 (second_size_of cfg size offset)) as [Hp|Hp]; [|eauto].
      apply second_size_lt in Hp; lia.
    + destruct (physical_read Data _ _ s1) as [[rd1 d1] s2].
      destruct (physical_read Data _ _ s2) as [[rd2 d2] s3].
      destruct (rd2 =? -1); [eauto|].
      destruct (Z.ltb_spec 0 (second_size_of cfg size offset)) as [Hp|Hp]; [|eauto].
      apply second_size_lt in Hp; lia.
  - destruct (u64 (current_size cfg) <? u64 (offset + size)); [eauto|].
    destruct (physical_read BatEntry 4 _ s) as [[rd bo] s1].
    destruct (negb (rd =? 4)); [eauto|].
    destruct (is_sparse bo).
    + destruct (Z.ltb_spec 0 (second_size_of cfg size offset)) as [Hp|Hp]; [|eauto].
      apply second_size_lt in Hp; [|lia].
      match goal with |- context [vhd_read_rec cfg fuel ?a ?b ?c ?d] =>
        destruct (IH a b c d) as (r2 & io2 & s9 & H2); [lia|lia|rewrite H2] end.
      destruct (u64 r2 =? u64 (-1)); eauto.
    + destruct (physical_read Data _ _ s1) as [[rd1 d1] s2].
      destruct (physical_read Data _ _ s2) as [[rd2 d2] s3].
      destruct (rd2 =? -1); [eauto|].
      destruct (Z.ltb_spec 0 (second_size_of cfg size offset)) as [Hp|Hp]; [|eauto].
      apply second_size_lt in Hp; [|lia].
      match goal with |- context [vhd_read_rec cfg fuel ?a ?b ?c ?d] =>
        destruct (IH a b c d) as (r2 & io2 & s9 & H2); [lia|lia|rewrite H2] end.
      destruct (u64 r2 =? u64 (-1)); eauto.
Qed.

Lemma vhd_read_total io size offset s :
  0 <= size < 2 ^ 63 ->
  exists r io' s', vhd_read cfg io size offset s = Some (r, io', s').
Proof. intros H. apply vhd_read_rec_total; [assumption|lia]. Qed.

End Split.

(* ================================================================= *)
(** ** The image file: what a write changes *)

Lemma image_write_flen f d o :
  flen (image_write f d o)
  = if (length d =? 0)%nat then flen f else Z.max (flen f) (o + Z.of_nat (length d)).
Proof. destruct d; reflexivity. Qed.

Lemma image_write_flen_le f d o : flen f <= flen (image_write f d o).
Proof. rewrite image_write_flen. destruct (length d =? 0)%nat; lia. Qed.

Lemma image_write_inside f d o :
  o + Z.of_nat (length d) <= flen f -> flen (image_write f d o) = flen f.
Proof. intros H. rewrite image_write_flen. destruct (length d =? 0)%nat; lia. Qed.

Lemma image_write_outside f d o i :
  i < o \/ o + Z.of_nat (length d) <= i ->
  i < flen f ->
  fbyte (image_write f d o) i = fbyte f i.
Proof.
  intros Hi Hl. destruct d as [|x d]; [reflexivity|].
  unfold image_write, image_store. cbn [fbyte].
  destruct (Z.leb_spec o i); destruct (Z.ltb_spec i (o + Z.of_nat (length (x :: d))));
    cbn [andb]; try lia;
    destruct (Z.leb_spec (flen f) i); try lia; reflexivity.
Qed.

Lemma image_write_at f d o i :
  o <= i < o + Z.of_nat (length d) ->
  fbyte (image_write f d o) i = nth (Z.to_nat (i - o)) d 0.
Proof.
  intros Hi. destruct d as [|x d]; [simpl in Hi; lia|].
  unfold image_write, image_store. cbn [fbyte].
  destruct (Z.leb_spec o i); destruct (Z.ltb_spec i (o + Z.of_nat (length (x :: d))));
    cbn [andb]; try lia; reflexivity.
Qed.

Lemma image_bytes_ext f g a n :
  (forall i, a <= i < a + Z.of_nat n -> fbyte f i = fbyte g i) ->
  image_bytes f a n = image_bytes g a n.
Proof.
  intros H. unfold image_bytes. apply map_ext_in. intros i Hi.
  apply in_seq in Hi. apply H. lia.
Qed.

Lemma image_bytes_write_outside f d o a n :
  a + Z.of_nat n <= o \/ o + Z.of_nat (length d) <= a ->
  a + Z.of_nat n <= flen f ->
  image_bytes (image_write f d o) a n = image_bytes f a n.
Proof.
  intros Hd Hl. apply image_bytes_ext. intros i Hi.
  apply image_write_outside; lia.
Qed.

Lemma image_bytes_length f a n : length (image_bytes f a n) = n.
Proof. unfold image_bytes. now rewrite length_map, length_seq. Qed.

Lemma nth_image_bytes f a n i :
  (i < n)%nat -> nth i (image_bytes f a n) 0 = fbyte f (a + Z.of_nat i).
Proof.
  intros H. unfold image_bytes.
  rewrite (nth_indep _ 0 (fbyte f (a + Z.of_nat 0))) by (rewrite length_map, length_seq; lia).
  rewrite (map_nth (fun i => fbyte f (a + Z.of_nat i))), seq_nth by lia. reflexivity.
Qed.

Lemma image_bytes_write_at f d o :
  image_bytes (image_write f d o) o (length d) = d.
Proof.
  apply nth_ext with (d := 0) (d' := 0); [apply image_bytes_length|].
  rewrite image_bytes_length. intros i Hi.
  rewrite nth_image_bytes by lia. rewrite image_write_at by lia.
  f_equal. lia.
Qed.

(* ================================================================= *)
(** ** [vhd_write] on an image file: the footer *)

Section ImageOps.

Context {E : Type} {HO : Host E}.

Variable cfg : config.

Implicit Type s : state image E.

Lemma physical_read_image p n o s :
  0 <= o ->
  physical_read p n o s
  = (let data := image_bytes (st_world s) o (Z.to_nat (Z.min n (flen (st_world s) - o))) in
     (Z.of_nat (length data), data,
      add_event (EvRead p o n (Z.of_nat (length data))) s)).
Proof.
  intros H. unfold physical_read. cbn [bk_pread image_backing]. unfold image_pread.
  destruct (Z.ltb_spec o 0); [lia|reflexivity].
Qed.

Lemma physical_write_image p d o s :
  0 <= o ->
  physical_write p d o s
  = (Z.of_nat (length d),
     add_event (EvWrite p o d (Z.of_nat (length d)) (st_errno s))
       (set_world (image_write (st_world s) d o) s)).
Proof.
  intros H. unfold physical_write. cbn [bk_pwrite image_backing]. unfold image_pwrite.
  destruct (Z.ltb_spec o 0); [lia|]. destruct d; reflexivity.
Qed.

Lemma lseek_end_image d s :
  0 <= flen (st_world s) + d ->
  lseek_end d s = (flen (st_world s) + d, add_event (EvSeek (flen (st_world s) + d)) s).
Proof.
  intros H. unfold lseek_end. cbn [bk_seek_end image_backing]. unfold image_seek_end.
  destruct (Z.ltb_spec (flen (st_world s) + d) 0); [lia|reflexivity].
Qed.

End ImageOps.

Lemma ntohl_htonl e : 0 <= e < 2 ^ 32 -> ntohl_bytes (htonl_bytes e) = e.
Proof.
  intros H. unfold ntohl_bytes, htonl_bytes. cbn [nth].
  rewrite u32_small by lia.
  rewrite !Z.shiftr_div_pow2 by lia.
  change (2 ^ 24) with 16777216. change (2 ^ 16) with 65536. change (2 ^ 8) with 256.
  change (2 ^ 32) with 4294967296 in H.
  Z.div_mod_to_equations. lia.
Qed.

(** ** Well-formed dynamic VHD images *)

Section ImageInvariant.

Variable cfg : config.

Hypothesis VC : vhd_config cfg.

Lemma bat_entries_nonneg : 0 <= bat_entries cfg.
Proof.
  pose proof (block_size_range cfg VC). destruct VC.
  unfold bat_entries. apply Z.div_pos; lia.
Qed.

Lemma block_index_lt offset :
  0 <= offset < current_size cfg ->
  0 <= offset / block_size cfg < bat_entries cfg.
Proof.
  intros H. pose proof (block_size_range cfg VC) as Hb.
  unfold bat_entries. split.
  - apply Z.div_pos; lia.
  - apply Z.div_lt_upper_bound; [lia|].
    pose proof (Z.mul_div_le (current_size cfg + block_size cfg - 1) (block_size cfg)).
    pose proof (Z.mod_pos_bound (current_size cfg + block_size cfg - 1) (block_size cfg)).
    pose proof (Z.div_mod (current_size cfg + block_size cfg - 1) (block_size cfg)).
    lia.
Qed.

Lemma block_size_sectors : block_size cfg mod 512 = 0.
Proof.
  destruct VC as [Hs Hb _ _ _ _ _]. rewrite Hb.
  replace (block_shift cfg) with (9 + (block_shift cfg - 9)) by lia.
  rewrite Z.pow_add_r by lia. change (2 ^ 9) with 512.
  rewrite Z.mul_comm. apply Z.mod_mul. lia.
Qed.

(** A write between the BAT and the footer keeps the image well formed. *)
Lemma image_ok_write_inside f d o :
  image_ok cfg f ->
  bat_end cfg <= o ->
  o + Z.of_nat (length d) <= flen f - 512 ->
  image_ok cfg (image_write f d o).
Proof.
  intros [Hbat Hal Hbl Hfo Hli] Ho Hend.
  pose proof bat_entries_nonneg as HN.
  assert (Hlen : flen (image_write f d o) = flen f) by (apply image_write_inside; lia).
  assert (Hent : forall k, 0 <= k < bat_entries cfg ->
            bat_entry cfg (image_write f d o) k = bat_entry cfg f k).
  { intros k Hk. unfold bat_entry. apply image_bytes_write_outside;
      unfold bat_end in *; change (Z.of_nat 4) with 4; lia. }
  constructor; rewrite ?Hlen; auto.
  - intros k Hk. rewrite (Hent k Hk). auto.
  - rewrite image_bytes_write_outside; auto; change (Z.of_nat 512) with 512; lia.
Qed.

Lemma nth_zeros_footer n i :
  (i < 512)%nat ->
  nth (n + i) (repeat 0 n ++ vhd_Footer cfg) 0 = nth i (vhd_Footer cfg) 0.
Proof.
  intros Hi. rewrite app_nth2 by (rewrite repeat_length; lia).
  rewrite repeat_length. f_equal. lia.
Qed.

Lemma allocate_flen f (bytes : list Z) k :
  image_ok cfg f ->
  0 <= k < bat_entries cfg ->
  length bytes = 4%nat ->
  flen (image_write (image_write f bytes (table_offset cfg + 4 * k))
          (repeat 0 (Z.to_nat (512 + block_size cfg)) ++ vhd_Footer cfg)
          (flen f - 512))
  = flen f + 512 + block_size cfg.
Proof.
  intros [Hbat Hal Hbl Hfo Hli] Hk Hlen.
  pose proof (block_size_range cfg VC) as Hb.
  destruct VC as [Hs Hbsz Hss Hsh Hfl Hto Hcs].
  rewrite image_write_flen.
  destruct (length _ =? 0)%nat eqn:Hz;
    [apply Nat.eqb_eq in Hz; rewrite length_app, repeat_length in Hz; lia|].
  rewrite length_app, repeat_length, Hfl.
  rewrite image_write_inside by (unfold bat_end in Hbat; lia). lia.
Qed.

(** The allocation: the BAT entry of block [k] is set to the sector of
    the old footer, then the new block and the footer are written
    there. *)
Lemma image_ok_allocate f k :
  image_ok cfg f ->
  0 <= k < bat_entries cfg ->
  flen f + 512 + block_size cfg <= 2 ^ 41 ->
  let e := (flen f - 512) / 512 in
  let f1 := image_write f (htonl_bytes (u32 e)) (table_offset cfg + 4 * k) in
  let f2 := image_write f1
              (repeat 0 (Z.to_nat (512 + block_size cfg)) ++ vhd_Footer cfg)
              (flen f - 512) in
  image_ok cfg f2
  /\ flen f2 = flen f + 512 + block_size cfg
  /\ ntohl_bytes (htonl_bytes (u32 e)) * 512 = flen f - 512.
Proof.
  intros [Hbat Hal Hbl Hfo Hli] Hk Hlim e f1 f2.
  pose proof (block_size_range cfg VC) as Hb.
  pose proof bat_entries_nonneg as HN.
  pose proof block_size_sectors as Hbs.
  destruct VC as [Hs Hbsz Hss Hsh Hfl Hto Hcs].
  assert (He : e * 512 = flen f - 512).
  { unfold e. pose proof (Z.div_mod (flen f - 512) 512). lia. }
  assert (Her : 0 <= e < 2 ^ 32).
  { unfold bat_end in Hbat. change (2 ^ 41) with (2 ^ 32 * 512) in Hlim. lia. }
  assert (Hnt : ntohl_bytes (htonl_bytes (u32 e)) = e).
  { rewrite u32_small by lia. apply ntohl_htonl; lia. }
  assert (Hl1 : flen f1 = flen f).
  { apply image_write_inside. unfold bat_end in Hbat. rewrite htonl_bytes_length. lia. }
  assert (Hnb : Z.of_nat (length (repeat 0 (Z.to_nat (512 + block_size cfg)) ++ vhd_Footer cfg))
                = 512 + block_size cfg + 512).
  { rewrite length_app, repeat_length, Hfl. lia. }
  assert (Hl2 : flen f2 = flen f + 512 + block_size cfg).
  { unfold f2. rewrite image_write_flen.
    destruct (length _ =? 0)%nat eqn:Hz; [apply Nat.eqb_eq in Hz; lia|].
    rewrite Hnb, Hl1. lia. }
  assert (Hent : forall j, 0 <= j < bat_entries cfg -> j <> k ->
            bat_entry cfg f2 j = bat_entry cfg f j).
  { intros j Hj Hjk. unfold bat_entry, f2.
    rewrite image_bytes_write_outside by (unfold bat_end in Hbat; change (Z.of_nat 4) with 4; lia).
    unfold f1. apply image_bytes_write_outside; unfold bat_end in Hbat;
      rewrite ?htonl_bytes_length; change (Z.of_nat 4) with 4; lia. }
  assert (Hentk : bat_entry cfg f2 k = htonl_bytes (u32 e)).
  { unfold bat_entry, f2.
    rewrite image_bytes_write_outside by (unfold bat_end in Hbat; change (Z.of_nat 4) with 4; lia).
    unfold f1. apply (image_bytes_write_at f (htonl_bytes (u32 e))). }
  split; [|split; [exact Hl2 | rewrite Hnt; exact He]].
  constructor.
  - rewrite Hl2. lia.
  - rewrite Hl2.
    replace (flen f + 512 + block_size cfg - 512)
      with ((flen f - 512) + 512 + block_size cfg) by lia.
    rewrite <- Z.add_mod_idemp_r, Hbs by lia.
    rewrite Z.add_0_r, <- Z.add_mod_idemp_l, Hal by lia. reflexivity.
  - intros j Hj Hsp. destruct (Z.eq_dec j k) as [->|Hjk].
    + rewrite Hentk, Hnt, Hl2. lia.
    + rewrite (Hent j Hj Hjk) in *. destruct (Hbl j Hj Hsp). rewrite Hl2. lia.
  - rewrite Hl2.
    apply nth_ext with (d := 0) (d' := 0); [rewrite image_bytes_length; lia|].
    rewrite image_bytes_length. intros i Hi.
    rewrite nth_image_bytes by lia.
    unfold f2. rewrite image_write_at by (rewrite Hnb; lia).
    replace (Z.to_nat (flen f + 512 + block_size cfg - 512 + Z.of_nat i - (flen f - 512)))
      with (Z.to_nat (512 + block_size cfg) + i)%nat by lia.
    apply nth_zeros_footer. lia.
  - rewrite Hl2. lia.
Qed.

End ImageInvariant.

Section ImageWrite.

Context {E : Type} {HO : Host E}.

Variable cfg : config.

Hypothesis VC : vhd_config cfg.

Implicit Type s : state image E.

Lemma block_number_eq offset :
  0 <= offset < 2 ^ 62 ->
  s64 (Z.shiftr offset (block_shift cfg)) = offset / block_size cfg.
Proof.
  intros H. pose proof (block_size_range cfg VC) as Hb.
  destruct VC as [Hs Hbsz _ _ _ _ _].
  rewrite Z.shiftr_div_pow2, <- Hbsz by lia.
  apply s64_small.
  assert (0 <= offset / block_size cfg <= offset).
  { split; [apply Z.div_pos; lia|]. apply Z.div_le_upper_bound; nia. }
  lia.
Qed.

Lemma first_size_bounds size offset :
  0 < size < 2 ^ 62 ->
  0 < first_size_of cfg size offset <= size
  /\ first_size_of cfg size offset + in_block_offset_of cfg offset <= block_size cfg.
Proof.
  intros Hs.
  pose proof (in_block_offset_range cfg VC offset).
  destruct (crosses_block cfg size offset) eqn:Hc.
  - destruct (split_cross cfg VC size offset) as (H1 & H2 & H3); [lia|auto|]. lia.
  - destruct (split_nocross cfg VC size offset) as (H1 & H2 & H3); [lia|auto|]. lia.
Qed.

Lemma vhd_write_first_image_ok io size offset s r s' :
  image_ok cfg (st_world s) ->
  0 <= offset -> 0 < size < 2 ^ 62 -> offset + size <= current_size cfg ->
  vhd_write_first cfg io size offset s = (r, s') ->
  flen (st_world s') <= 2 ^ 41 ->
  image_ok cfg (st_world s') /\ flen (st_world s) <= flen (st_world s').
Proof.
  intros OK Hoff Hsize Hclip Hrun Hlim.
  pose proof (block_size_range cfg VC) as Hb.
  pose proof (bat_entries_nonneg cfg VC) as HN.
  pose proof (first_size_bounds size offset Hsize) as (Hfs & Hfit).
  pose proof (in_block_offset_range cfg VC offset) as Hib.
  assert (Hcs : 0 <= current_size cfg < 2 ^ 62) by (destruct VC; auto).
  assert (Hto : 0 <= table_offset cfg < 2 ^ 62) by (destruct VC; auto).
  assert (Hss : sector_size cfg = 512) by (destruct VC; auto).
  assert (Hsh : sector_shift cfg = 9) by (destruct VC; auto).
  pose proof (block_index_lt cfg VC offset) as Hk.
  set (k := offset / block_size cfg) in *.
  assert (Hk' : 0 <= k < bat_entries cfg) by (apply Hk; lia). clear Hk.
  assert (Hkb : k * 512 <= offset).
  { pose proof (Z.mul_div_le offset (block_size cfg)). fold k in H. nia. }
  pose proof OK as OK0.
  destruct OK as [Hbat Hal Hbl Hfo Hli].
  unfold vhd_write_first in Hrun.
  rewrite block_number_eq in Hrun by lia. fold k in Hrun.
  assert (Hdo : s64 (table_offset cfg + Z.shiftl k 2) = table_offset cfg + 4 * k).
  { rewrite Z.shiftl_mul_pow2 by lia. change (2 ^ 2) with 4.
    rewrite s64_small by lia. lia. }
  rewrite Hdo in Hrun.
  rewrite physical_read_image in Hrun by lia.
  cbv zeta in Hrun.
  rewrite image_bytes_length in Hrun.
  replace (Z.to_nat (Z.min 4 (flen (st_world s) - (table_offset cfg + 4 * k))))
    with 4%nat in Hrun by (unfold bat_end in Hbat; lia).
  change (negb (Z.of_nat 4 =? 4)) with false in Hrun. cbv iota in Hrun.
  fold (bat_entry cfg (st_world s) k) in Hrun.
  set (fs := first_size_of cfg size offset) in *.
  set (ib := in_block_offset_of cfg offset) in *.
  rewrite Hss, Hsh in Hrun.
  assert (Hnq : forall fuel,
            (Z.shiftr (u64 (fs + 7)) 3
             <=? zero_scan io (Z.shiftr (u64 (fs + 7)) 3) fuel 0) = false).
  { intros fuel. rewrite zero_scan_skips_iff. apply Z.leb_gt.
    rewrite u64_small by lia. rewrite Z.shiftr_div_pow2 by lia.
    apply Z.div_str_pos. change (2 ^ 3) with 8. lia. }
  set (bm := Z.shiftr (Z.shiftr (u64 (fs + 512 - 1)) 9 + 7) 3) in *.
  set (bo := Z.shiftr (Z.shiftr ib 9) 3) in *.
  assert (Hbm : 0 <= bo /\ 0 <= bm /\ bo + bm <= block_size cfg).
  { unfold bm, bo. rewrite u64_small by lia.
    rewrite !Z.shiftr_div_pow2 by lia.
    change (2 ^ 9) with 512. change (2 ^ 3) with 8.
    Z.div_mod_to_equations. lia. }
  assert (Hbml : Z.of_nat (length (repeat 255 (Z.to_nat bm))) = bm).
  { rewrite repeat_length. lia. }
  assert (Hdl : Z.of_nat (length (firstn (Z.to_nat fs) io)) <= fs).
  { rewrite length_firstn. lia. }
  assert (Hbe : table_offset cfg + 4 * k + 4 <= bat_end cfg /\ 0 <= bat_end cfg)
    by (unfold bat_end; lia).
  destruct (is_sparse (bat_entry cfg (st_world s) k)) eqn:Hsp.
  - rewrite Hnq in Hrun.
    destruct (malloc _ (st_host _)) as [[g|] h].
    + rewrite lseek_end_image in Hrun by (cbn [st_world set_host add_event]; lia).
      cbn [st_world set_host add_event] in Hrun.
      destruct (Z.eqb_spec (flen (st_world s) + -512) (-1)) as [Hx|_]; [lia|].
      rewrite physical_write_image in Hrun by lia.
      cbn [st_world set_host add_event set_world] in Hrun.
      rewrite htonl_bytes_length in Hrun.
      change (negb (4 =? 4)) with false in Hrun. cbv iota in Hrun.
      rewrite physical_write_image in Hrun by lia.
      cbn [st_world set_host add_event set_world] in Hrun.
      assert (Hnb : Z.of_nat (length (repeat 0 (Z.to_nat (512 + block_size cfg))
                                        ++ vhd_Footer cfg))
                    = s64 (512 + block_size cfg) + 512).
      { rewrite length_app, repeat_length, s64_small by lia.
        destruct VC as [_ _ _ _ Hfl _ _]. rewrite Hfl. lia. }
      rewrite Hnb, Z.eqb_refl in Hrun. cbn [negb] in Hrun. cbv iota in Hrun.
      replace (flen (st_world s) + -512) with (flen (st_world s) - 512) in Hrun by lia.
      set (e' := u32 (Z.shiftr (flen (st_world s) - 512) 9)) in *.
      assert (He' : 0 <= e' < 2 ^ 32) by (apply Z.mod_pos_bound; lia).
      assert (Hnt : ntohl_bytes (htonl_bytes e') = e') by (apply ntohl_htonl; lia).
      rewrite Hnt in Hrun.
      assert (Hdo2 : data_offset_of cfg e' ib = e' * 512 + 512 + ib).
      { unfold data_offset_of. rewrite Hss, Hsh, Z.shiftl_mul_pow2 by lia.
        change (2 ^ 9) with 512. apply s64_small. lia. }
      assert (Hbo2 : s64 (Z.shiftl e' 9 + bo) = e' * 512 + bo).
      { rewrite Z.shiftl_mul_pow2 by lia. change (2 ^ 9) with 512.
        apply s64_small. lia. }
      rewrite Hdo2, Hbo2 in Hrun.
      rewrite physical_write_image in Hrun by lia.
      cbn [st_world set_host add_event set_world] in Hrun.
      destruct (Z.eqb_spec (Z.of_nat (length (firstn (Z.to_nat fs) io))) (-1)) as [Hx|_];
        [lia|].
      rewrite physical_write_image in Hrun by lia.
      cbn [st_world set_host add_event set_world] in Hrun.
      rewrite Hbml, Z.eqb_refl in Hrun. cbn [negb] in Hrun.
      apply pair_equal_spec in Hrun. destruct Hrun as [Hr Hs']. subst r s'.
      cbn [st_world set_host add_event set_world] in Hlim |- *.
      set (f := st_world s) in *.
      set (f2 := image_write (image_write f (htonl_bytes e') (table_offset cfg + 4 * k))
                   (repeat 0 (Z.to_nat (512 + block_size cfg)) ++ vhd_Footer cfg)
                   (flen f - 512)) in *.
      assert (Hl2 : flen f2 = flen f + 512 + block_size cfg)
        by (apply (allocate_flen cfg VC); auto).
      set (f3 := image_write f2 (firstn (Z.to_nat fs) io) (e' * 512 + 512 + ib)) in *.
      pose proof (image_write_flen_le f2 (firstn (Z.to_nat fs) io) (e' * 512 + 512 + ib)) as Hm3.
      pose proof (image_write_flen_le f3 (repeat 255 (Z.to_nat bm)) (e' * 512 + bo)) as Hm4.
      fold f3 in Hm3.
      assert (Hroom : flen f + 512 + block_size cfg <= 2 ^ 41) by lia.
      assert (Hee : e' = (flen f - 512) / 512).
      { unfold e'. rewrite Z.shiftr_div_pow2 by lia. change (2 ^ 9) with 512.
        apply u32_small. change (2 ^ 32) with 4294967296.
        change (2 ^ 41) with 2199023255552 in Hroom.
        Z.div_mod_to_equations. lia. }
      destruct (image_ok_allocate cfg VC f k OK0 Hk' Hroom) as (OK2 & _ & He512).
      cbv zeta in OK2, He512.
      rewrite <- Hee in OK2, He512.
      rewrite u32_small in OK2, He512 by lia. rewrite Hnt in He512.
      fold f2 in OK2.
      assert (OK3 : image_ok cfg f3).
      { apply (image_ok_write_inside cfg VC); auto; lia. }
      assert (Hl3 : flen f3 = flen f2).
      { apply image_write_inside. lia. }
      split; [|lia].
      apply (image_ok_write_inside cfg VC); auto; lia.
    + apply pair_equal_spec in Hrun. destruct Hrun as [Hr Hs']. subst r s'.
      cbn [st_world set_host add_event set_world syslog set_errno].
      split; [assumption|lia].
  - destruct (Hbl k Hk' Hsp) as [Hlo Hhi].
    set (e := ntohl_bytes (bat_entry cfg (st_world s) k)) in *.
    assert (He : 0 <= e < 2 ^ 32).
    { change (2 ^ 41) with (2 ^ 32 * 512) in Hli. lia. }
    assert (Hdo2 : data_offset_of cfg e ib = e * 512 + 512 + ib).
    { unfold data_offset_of. rewrite Hss, Hsh, Z.shiftl_mul_pow2 by lia.
      change (2 ^ 9) with 512. apply s64_small. lia. }
    assert (Hbo2 : s64 (Z.shiftl e 9 + bo) = e * 512 + bo).
    { rewrite Z.shiftl_mul_pow2 by lia. change (2 ^ 9) with 512.
      apply s64_small. lia. }
    rewrite Hdo2, Hbo2 in Hrun.
    rewrite physical_write_image in Hrun by lia.
    cbn [st_world set_host add_event set_world] in Hrun.
    destruct (Z.eqb_spec (Z.of_nat (length (firstn (Z.to_nat fs) io))) (-1)) as [Hx|_];
      [lia|].
    rewrite physical_write_image in Hrun by lia.
    cbn [st_world set_host add_event set_world] in Hrun.
    rewrite Hbml, Z.eqb_refl in Hrun. cbn [negb] in Hrun.
    apply pair_equal_spec in Hrun. destruct Hrun as [Hr Hs']. subst r s'.
    cbn [st_world set_host add_event set_world] in Hlim |- *.
    set (f := st_world s) in *.
    set (f3 := image_write f (firstn (Z.to_nat fs) io) (e * 512 + 512 + ib)) in *.
    assert (OK3 : image_ok cfg f3).
    { apply (image_ok_write_inside cfg VC); auto; lia. }
    assert (Hl3 : flen f3 = flen f).
    { apply image_write_inside. lia. }
    split.
    + apply (image_ok_write_inside cfg VC); auto; lia.
    + pose proof (image_write_flen_le f3 (repeat 255 (Z.to_nat bm)) (e * 512 + bo)). lia.
Qed.

End ImageWrite.

Lemma replay_image_flen (f : image) evs : flen f <= flen (replay f evs).
Proof.
  revert f. induction evs as [|ev evs IH]; intros f; [simpl; lia|].
  simpl. etransitivity; [|apply IH].
  destruct ev; try lia.
  cbn [bk_pwrite image_backing]. unfold image_pwrite.
  destruct (offset <? 0); [simpl; lia|].
  destruct data; [simpl; lia|]. cbn [fst].
  unfold image_store. cbn [flen]. lia.
Qed.

Section ImageRec.

Context {E : Type} {HO : Host E}.

Variable cfg : config.

Hypothesis VC : vhd_config cfg.

Implicit Type s : state image E.

Lemma vc_new_block : 0 <= sector_size cfg + block_size cfg < 2 ^ 63.
Proof.
  pose proof (block_size_range cfg VC). destruct VC as [_ _ Hss _ _ _ _].
  rewrite Hss. lia.
Qed.

Lemma vhd_write_rec_flen fuel io size offset s r s' :
  vhd_write_rec cfg fuel io size offset s = Some (r, s') ->
  flen (st_world s) <= flen (st_world s').
Proof.
  intros H. apply (vhd_write_rec_events cfg) in H;
    [|destruct VC; auto|apply vc_new_block].
  destruct H as (evs & _ & Hw & _ & _). rewrite Hw. apply replay_image_flen.
Qed.

Lemma second_offset_eq size offset :
  0 <= offset -> 0 < size < 2 ^ 62 -> offset + size <= current_size cfg ->
  0 < second_size_of cfg size offset ->
  second_offset_of cfg size offset = offset + first_size_of cfg size offset
  /\ second_size_of cfg size offset = size - first_size_of cfg size offset
  /\ 0 < first_size_of cfg size offset < size.
Proof.
  intros Ho Hs Hc Hp.
  assert (Hcs : 0 <= current_size cfg < 2 ^ 62) by (destruct VC; auto).
  destruct (crosses_block cfg size offset) eqn:Hx.
  - destruct (split_cross cfg VC size offset) as (H1 & H2 & H3); [lia|auto|].
    unfold second_offset_of. rewrite Hx. rewrite s64_small by lia. auto.
  - destruct (split_nocross cfg VC size offset) as (H1 & H2 & H3); [lia|auto|]. lia.
Qed.

Lemma clip_eq size offset :
  0 <= offset < 2 ^ 62 -> 0 <= size < 2 ^ 62 ->
  (u64 (current_size cfg) <? u64 (offset + size))
  = (current_size cfg <? offset + size).
Proof.
  intros Ho Hs.
  assert (Hcs : 0 <= current_size cfg < 2 ^ 62) by (destruct VC; auto).
  rewrite !u64_small by lia. reflexivity.
Qed.

Lemma vhd_write_rec_image_ok fuel : forall io size offset s r s',
  image_ok cfg (st_world s) ->
  0 <= offset < 2 ^ 62 -> 0 < size < 2 ^ 62 ->
  vhd_write_rec cfg fuel io size offset s = Some (r, s') ->
  flen (st_world s') <= 2 ^ 41 ->
  image_ok cfg (st_world s').
Proof.
  induction fuel as [|fuel IH]; intros io size offset s r s' OK Ho Hs Hrun Hlim.
  - simpl in Hrun. rewrite clip_eq in Hrun by lia.
    destruct (Z.ltb_spec (current_size cfg) (offset + size)) as [Hc|Hc].
    { inversion Hrun; subst; auto. }
    destruct (vhd_write_first cfg io size offset s) as [[wd|] s1] eqn:H1.
    + destruct (0 <? second_size_of cfg size offset); [discriminate|].
      inversion Hrun; subst.
      eapply vhd_write_first_image_ok; eauto; lia.
    + inversion Hrun; subst.
      eapply vhd_write_first_image_ok; eauto; lia.
  - simpl in Hrun. rewrite clip_eq in Hrun by lia.
    destruct (Z.ltb_spec (current_size cfg) (offset + size)) as [Hc|Hc].
    { inversion Hrun; subst; auto. }
    destruct (vhd_write_first cfg io size offset s) as [[wd|] s1] eqn:H1.
    + destruct (Z.ltb_spec 0 (second_size_of cfg size offset)) as [Hp|Hp].
      * destruct (vhd_write_rec cfg fuel _ _ _ s1) as [[r2 s2]|] eqn:H2;
          [|discriminate].
        assert (Hs2 : s2 = s') by (destruct (u64 r2 =? u64 (-1)); congruence).
        subst s2.
        pose proof (vhd_write_rec_flen _ _ _ _ _ _ _ H2) as Hm.
        destruct (second_offset_eq size offset) as (Hso & Hss & Hfs); try lia.
        assert (Hcs : 0 <= current_size cfg < 2 ^ 62) by (destruct VC; auto).
        eapply IH; [| | |exact H2|exact Hlim]; try lia.
        eapply vhd_write_first_image_ok; eauto; lia.
      * inversion Hrun; subst.
        eapply vhd_write_first_image_ok; eauto; lia.
    + inversion Hrun; subst.
      eapply vhd_write_first_image_ok; eauto; lia.
Qed.

End ImageRec.

Ltac break_all' :=
  repeat (match goal with
  | H : context [match ?x with _ => _ end] |- _ => destruct x eqn:?
  | H : (_, _) = (_, _) |- _ => apply pair_equal_spec in H; destruct H; subst
  | H : inl _ = inl _ |- _ => inversion H; subst; clear H
  | H : inr _ = inr _ |- _ => inversion H; subst; clear H
  | H : inl _ = inr _ |- _ => discriminate H
  | H : inr _ = inl _ |- _ => discriminate H
  end).

Section ImageTop.

Context {E : Type} {HO : Host E}.

Variable cfg : config.

Hypothesis VC : vhd_config cfg.

Implicit Type s : state image E.

Lemma image_pwrite_nil (f : image) o : fst (bk_pwrite f [] o) = f.
Proof.
  cbn [bk_pwrite image_backing]. unfold image_pwrite.
  destruct (o <? 0); reflexivity.
Qed.

(** A request of no bytes leaves the file alone. *)
Lemma vhd_write_first_empty io offset s r s' :
  vhd_write_first cfg io 0 offset s = (r, s') ->
  st_world s' = st_world s.
Proof.
  pose proof (in_block_offset_range cfg VC offset) as Hib.
  pose proof (block_size_range cfg VC) as Hb.
  assert (Hfs : first_size_of cfg 0 offset = 0).
  { destruct (split_nocross cfg VC 0 offset) as (H1 & _); [lia| |exact H1].
    unfold crosses_block. rewrite u64_small by lia. apply Z.ltb_ge. lia. }
  assert (Hss : sector_size cfg = 512) by (destruct VC; auto).
  assert (Hsh : sector_shift cfg = 9) by (destruct VC; auto).
  unfold vhd_write_first. rewrite Hfs, Hss, Hsh.
  change (Z.shiftr (u64 (0 + 7)) 3) with 0.
  change (Z.shiftr (Z.shiftr (u64 (0 + 512 - 1)) 9 + 7) 3) with 0.
  change (Z.to_nat 0) with 0%nat. cbn [firstn repeat].
  intros H. cbv zeta in H.
  rewrite zero_scan_skips_iff in H. change (0 <=? 0) with true in H.
  break_all'.
  all: repeat match goal with
  | H : physical_read _ _ _ _ = _ |- _ =>
      apply physical_read_spec in H; destruct H as (? & ? & ?)
  | H : physical_write _ _ _ _ = _ |- _ =>
      apply physical_write_spec in H; destruct H as (? & ? & ?)
  end.
  all: rewrite ?errno_e2big_world; cbn [st_world syslog].
  all: repeat match goal with
  | H : st_world ?a = _ |- context [st_world ?a] => rewrite H
  end.
  all: rewrite ?image_pwrite_nil; auto.
Qed.

Lemma vhd_write_image_ok io size offset s :
  image_ok cfg (st_world s) ->
  0 <= offset < 2 ^ 62 -> 0 <= size < 2 ^ 62 ->
  exists r s' evs,
    vhd_write cfg io size offset s = Some (r, s')
    /\ st_trace s' = st_trace s ++ evs
    /\ Forall (new_block_shape cfg) evs
    /\ flen (st_world s) <= flen (st_world s')
    /\ (flen (st_world s') <= 2 ^ 41 -> image_ok cfg (st_world s')).
Proof.
  intros OK Ho Hs.
  destruct (vhd_write_total cfg VC io size offset s) as (r & s' & Hrun); [lia|].
  pose proof Hrun as Hev. unfold vhd_write in Hev.
  apply (vhd_write_rec_events cfg) in Hev; [|destruct VC; auto|apply (vc_new_block cfg VC)].
  destruct Hev as (evs & Ht & Hw & Hn & _).
  exists r, s', evs. split; [exact Hrun|]. split; [exact Ht|]. split; [exact Hn|].
  split; [rewrite Hw; apply replay_image_flen|].
  intros Hlim.
  destruct (Z.eq_dec size 0) as [->|Hnz].
  - unfold vhd_write in Hrun. simpl in Hrun.
    destruct (u64 (current_size cfg) <? u64 (offset + 0)).
    { inversion Hrun; subst; auto. }
    destruct (vhd_write_first cfg io 0 offset s) as [[wd|] s1] eqn:H1;
      apply vhd_write_first_empty in H1.
    + destruct (0 <? second_size_of cfg 0 offset); [discriminate|].
      inversion Hrun; subst. rewrite H1. auto.
    + inversion Hrun; subst. rewrite H1. auto.
  - apply (vhd_write_rec_image_ok cfg VC (Z.to_nat size) io size offset s r s');
      auto; lia.
Qed.

End ImageTop.

(** C4, as amended: on a well-formed dynamic VHD in a regular file,
    where every [pwrite] completes, any sequence of calls of
    [vhd_write] with offsets and sizes in [0, 2^62) returns; every
    new-block write consists of [sector_size + block_size] zero bytes
    followed by the saved footer; the file never shrinks; and as long as
    the file stays within the 2^41 bytes a BAT entry can address, its
    last 512 bytes are the saved footer. *)
Theorem footer_preserved {E : Type} {HO : Host E} (cfg : config)
  (ws : list (list Z * Z * Z)) : forall (s : state image E),
  vhd_config cfg ->
  image_ok cfg (st_world s) ->
  Forall addresses_device ws ->
  exists s' evs,
    run_writes cfg ws s = Some s'
    /\ st_trace s' = st_trace s ++ evs
    /\ Forall (new_block_shape cfg) evs
    /\ flen (st_world s) <= flen (st_world s')
    /\ (flen (st_world s') <= 2 ^ 41 ->
        image_bytes (st_world s') (flen (st_world s') - 512) 512 = vhd_Footer cfg).
Proof.
  induction ws as [|[[io size] offset] ws IH]; intros s VC OK Hws.
  - exists s, []. rewrite app_nil_r. simpl. repeat split; auto; try lia.
    intros _. apply (ok_footer cfg _ OK).
  - inversion Hws as [|w ws' Hw Hrest]; subst.
    unfold addresses_device in Hw. destruct Hw as [Ho Hs].
    destruct (vhd_write_image_ok cfg VC io size offset s OK Ho Hs)
      as (r & s1 & evs1 & Hrun & Ht1 & Hn1 & Hm1 & Hok1).
    simpl. rewrite Hrun.
    destruct (Z.le_gt_cases (flen (st_world s1)) (2 ^ 41)) as [Hl|Hl].
    + destruct (IH s1 VC (Hok1 Hl) Hrest) as (s' & evs & Hr & Ht & Hn & Hm & Hf).
      exists s', (evs1 ++ evs). rewrite Hr, Ht, Ht1, app_assoc.
      repeat split; auto; try lia. apply Forall_app; auto.
    + (* the file has outgrown the format: the premise on the result fails *)
      assert (Hgen : forall ws (s : state image E),
                Forall addresses_device ws ->
                exists s' evs, run_writes cfg ws s = Some s'
                  /\ st_trace s' = st_trace s ++ evs
                  /\ Forall (new_block_shape cfg) evs
                  /\ flen (st_world s) <= flen (st_world s')).
      { clear - VC. induction ws as [|[[io size] offset] ws IHw]; intros s Hws.
        - exists s, []. rewrite app_nil_r. simpl. repeat split; auto; lia.
        - inversion Hws as [|w ws' Hw Hrest]; subst.
    unfold addresses_device in Hw. destruct Hw as [Ho Hs].
          destruct (vhd_write_total cfg VC io size offset s) as (r & s1 & Hrun); [lia|].
          pose proof Hrun as Hev. unfold vhd_write in Hev.
          apply (vhd_write_rec_events cfg) in Hev;
            [|destruct VC; auto|apply (vc_new_block cfg VC)].
          destruct Hev as (evs1 & Ht1 & Hw1 & Hn1 & _).
          destruct (IHw s1 Hrest) as (s' & evs & Hr & Ht & Hn & Hm).
          simpl. rewrite Hrun. exists s', (evs1 ++ evs).
          rewrite Hr, Ht, Ht1, app_assoc. repeat split; auto.
          + apply Forall_app; auto.
          + rewrite Hw1 in Hm. pose proof (replay_image_flen (st_world s) evs1). lia. }
      destruct (Hgen ws s1 Hrest) as (s' & evs & Hr & Ht & Hn & Hm).
      exists s', (evs1 ++ evs). rewrite Hr, Ht, Ht1, app_assoc.
      repeat split; auto; try lia. apply Forall_app; auto.
Qed.

(* ================================================================= *)
(** ** The transports leave the backing store alone *)

Section Frames.

Context {W E : Type} {BK : Backing W} {HO : Host E}.

Variable cfg : config.

Implicit Type s : state W E.

Lemma shm_read_frame to_buf size s r s' :
  shm_read cfg to_buf size s = (r, s') ->
  same_store s s' /\ st_sent s' = st_sent s
  /\ st_buffer_size s' = st_buffer_size s /\ st_buf s' = st_buf s.
Proof.
  unfold shm_read, same_store. intros H.
  repeat match type of H with
  | context [if ?b then _ else _] => destruct b
  end; inversion H; subst; cbn; auto 10.
Qed.

Lemma comm_read_frame to_buf size s r s' :
  comm_read cfg to_buf size s = (r, s') ->
  same_store s s' /\ st_sent s' = st_sent s
  /\ st_buffer_size s' = st_buffer_size s.
Proof.
  unfold comm_read. destruct (shm_mode cfg || drv_mode cfg).
  - intros H. apply shm_read_frame in H. tauto.
  - destruct (safe_read size (st_host s)) as [[d|] h]; intros H;
      inversion H; subst; destruct to_buf; cbn; unfold same_store; cbn; auto 10.
Qed.

Lemma comm_read_struct_buf size s r s' :
  comm_read cfg false size s = (r, s') -> st_buf s' = st_buf s.
Proof.
  unfold comm_read. destruct (shm_mode cfg || drv_mode cfg).
  - intros H. apply shm_read_frame in H. tauto.
  - destruct (safe_read size (st_host s)) as [[d|] h]; intros H;
      inversion H; subst; reflexivity.
Qed.

Lemma shm_write_frame from_buf data s r s' :
  shm_write cfg from_buf data s = (r, s') ->
  same_store s s' /\ st_sent s' = st_sent s
  /\ st_buffer_size s' = st_buffer_size s /\ st_buf s' = st_buf s.
Proof.
  unfold shm_write, same_store. intros H.
  repeat match type of H with
  | context [if ?b then _ else _] => destruct b
  end; inversion H; subst; cbn; auto 10.
Qed.

Lemma comm_write_frame from_buf data s r s' :
  comm_write cfg from_buf data s = (r, s') ->
  same_store s s' /\ st_sent s' = st_sent s ++ [data]
  /\ st_buffer_size s' = st_buffer_size s /\ st_buf s' = st_buf s.
Proof.
  unfold comm_write. destruct (shm_mode cfg || drv_mode cfg).
  - intros H. apply shm_write_frame in H. cbn in H. exact H.
  - destruct (safe_write data (st_host (add_sent data s))) as [ok h]; intros H;
      inversion H; subst; cbn; unfold same_store; cbn; auto 10.
Qed.

Lemma peer_deposit_frame hdr payload s :
  same_store s (peer_deposit hdr payload s)
  /\ st_sent (peer_deposit hdr payload s) = st_sent s
  /\ st_buffer_size (peer_deposit hdr payload s) = st_buffer_size s
  /\ length (st_buf (peer_deposit hdr payload s)) = length (st_buf s).
Proof.
  unfold peer_deposit, same_store. cbn. repeat split.
  unfold store_at. rewrite length_app, length_skipn, length_firstn. lia.
Qed.

Lemma shm_flush_frame s r s' :
  shm_flush cfg s = (r, s') ->
  same_store s s' /\ st_sent s' = st_sent s
  /\ st_buffer_size s' = st_buffer_size s
  /\ length (st_buf s') = length (st_buf s).
Proof.
  unfold shm_flush. intros H.
  destruct (negb (win32 cfg)); [inversion H; subst; repeat split|].
  destruct (SetEvent _) as [ok h]. destruct (negb ok);
    [inversion H; subst; repeat split|].
  destruct (WaitForSingleObject _) as [[[hdr payload]|] h'];
    inversion H; subst; [|repeat split].
  match goal with |- context [peer_deposit ?a ?b ?c] =>
    destruct (peer_deposit_frame a b c) as (Hs & H1 & H2 & H3) end.
  rewrite H1, H2, H3. unfold same_store in *. cbn in *. tauto.
Qed.

Lemma alloc_drv_buffer_frame s rc s' :
  alloc_drv_buffer cfg s = (rc, s') ->
  same_store s s' /\ st_sent s' = st_sent s.
Proof.
  unfold alloc_drv_buffer, same_store. intros H.
  break_all.
  all: cbn; auto.
Qed.

End Frames.

Section FlushFrames.

Context {W E : Type} {BK : Backing W} {HO : Host E}.

Variable cfg : config.

Implicit Type s : state W E.

Lemma drv_flush_loop_frame fuel : forall s r s',
  drv_flush_loop cfg fuel s = Some (r, s') ->
  same_store s s' /\ st_sent s' = st_sent s.
Proof.
  induction fuel as [|fuel IH]; intros s r s' H; simpl in H.
  - destruct (exchange_io (st_host s)) as [[hdr payload| | |] h].
    + inversion H; subst.
      match goal with |- context [peer_deposit ?a ?b ?c] =>
        destruct (peer_deposit_frame a b c) as (Hs & H1 & _) end.
      rewrite H1. unfold same_store in *. cbn in *. tauto.
    + destruct (wait_memory_unlock _) as [ok h'].
      destruct (alloc_drv_buffer cfg _) as [rc s1] eqn:Ha.
      apply alloc_drv_buffer_frame in Ha.
      destruct (rc =? 0); [discriminate|]. inversion H; subst.
      destruct ok; unfold same_store in *; cbn in *; tauto.
    + inversion H; subst. unfold same_store. cbn. tauto.
    + inversion H; subst. unfold same_store. cbn. tauto.
  - destruct (exchange_io (st_host s)) as [[hdr payload| | |] h].
    + inversion H; subst.
      match goal with |- context [peer_deposit ?a ?b ?c] =>
        destruct (peer_deposit_frame a b c) as (Hs & H1 & _) end.
      rewrite H1. unfold same_store in *. cbn in *. tauto.
    + destruct (wait_memory_unlock _) as [ok h'].
      destruct (alloc_drv_buffer cfg _) as [rc s1] eqn:Ha.
      apply alloc_drv_buffer_frame in Ha.
      destruct (rc =? 0).
      * apply IH in H. destruct ok; unfold same_store in *; cbn in *;
          intuition congruence.
      * inversion H; subst.
        destruct ok; unfold same_store in *; cbn in *; tauto.
    + inversion H; subst. unfold same_store. cbn. tauto.
    + inversion H; subst. unfold same_store. cbn. tauto.
Qed.

Lemma comm_flush_frame fuel s r s' :
  comm_flush cfg fuel s = Some (r, s') ->
  same_store s s' /\ st_sent s' = st_sent s.
Proof.
  unfold comm_flush. destruct (shm_mode cfg).
  - intros H. inversion H as [H1]. apply shm_flush_frame in H1. tauto.
  - destruct (drv_mode cfg).
    + unfold drv_flush. destruct (negb (win32 cfg)).
      * intros H; inversion H; subst. repeat split.
      * intros H. apply drv_flush_loop_frame in H.
        unfold same_store in *; cbn in *; tauto.
    + intros H; inversion H; subst. repeat split.
Qed.

Lemma buf_realloc_frame n s :
  same_store s (buf_realloc cfg n s) /\ st_sent (buf_realloc cfg n s) = st_sent s.
Proof.
  unfold buf_realloc. destruct (shm_mode cfg); [repeat split|].
  destruct (win32 cfg && drv_mode cfg).
  - destruct (wait_memory_unlock _) as [ok h].
    destruct (alloc_drv_buffer cfg _) as [rc s1] eqn:Ha.
    apply alloc_drv_buffer_frame in Ha.
    destruct (rc =? 0); destruct ok; unfold same_store in *; cbn in *; tauto.
  - cbn. destruct (malloc _ _) as [[g|] h]; cbn;
      destruct (malloc _ _) as [[g2|] h2]; repeat split.
Qed.


End FlushFrames.

(* ================================================================= *)
(** ** The logical layer leaves the session buffers alone *)

Section Logical.

Context {W E : Type} {BK : Backing W} {HO : Host E}.

Variable cfg : config.

Implicit Type s : state W E.

Lemma same_session_refl s : same_session s s.
Proof. repeat split. Qed.

Lemma same_session_trans s1 s2 s3 :
  same_session s1 s2 -> same_session s2 s3 -> same_session s1 s3.
Proof. unfold same_session. intuition congruence. Qed.

Lemma physical_read_session p n o s r d s' :
  physical_read p n o s = (r, d, s') -> same_session s s'.
Proof.
  unfold physical_read. destruct (bk_pread _ _ _); intros H; inversion H; subst;
    repeat split.
Qed.

Lemma physical_write_session p d o s r s' :
  physical_write p d o s = (r, s') -> same_session s s'.
Proof.
  unfold physical_write. destruct (bk_pwrite _ _ _) as [w [n|e]]; intros H;
    inversion H; subst; repeat split.
Qed.

Lemma lseek_end_session d s r s' :
  lseek_end d s = (r, s') -> same_session s s'.
Proof.
  unfold lseek_end. destruct (bk_seek_end _ _); intros H; inversion H; subst;
    repeat split.
Qed.

Lemma errno_e2big_session s : same_session s (errno_e2big s).
Proof. unfold errno_e2big. destruct (st_errno s =? 0); repeat split. Qed.

Ltac session_step :=
  match goal with
  | H : physical_read _ _ _ _ = _ |- _ => apply physical_read_session in H
  | H : physical_write _ _ _ _ = _ |- _ => apply physical_write_session in H
  | H : lseek_end _ _ = _ |- _ => apply lseek_end_session in H
  end.

Lemma vhd_read_rec_session fuel : forall io size offset s r io' s',
  vhd_read_rec cfg fuel io size offset s = Some (r, io', s') -> same_session s s'.
Proof.
  induction fuel as [|fuel IH]; intros io size offset s r io' s' H; simpl in H.
  - break_all; repeat session_step;
      try (pose proof (errno_e2big_session (syslog "vhd_read: Error reading block table" s0)));
      unfold same_session in *; cbn in *; intuition congruence.
  - destruct (u64 (current_size cfg) <? u64 (offset + size));
      [inversion H; subst; apply same_session_refl|].
    destruct (physical_read BatEntry 4 _ s) as [[rd bo] s1] eqn:H1.
    apply physical_read_session in H1.
    destruct (negb (rd =? 4)).
    { inversion H; subst.
      pose proof (errno_e2big_session (syslog "vhd_read: Error reading block table" s1)).
      unfold same_session in *; cbn in *; intuition congruence. }
    destruct (is_sparse bo).
    + destruct (0 <? second_size_of cfg size offset).
      * destruct (vhd_read_rec cfg fuel _ _ _ s1) as [[[r2 io2] s2]|] eqn:H2;
          [|discriminate].
        apply IH in H2.
        assert (s2 = s') by (destruct (u64 r2 =? u64 (-1)); congruence). subst.
        eapply same_session_trans; eauto.
      * inversion H; subst. auto.
    + destruct (physical_read Data _ _ s1) as [[rd1 d1] s2] eqn:H2.
      destruct (physical_read Data _ _ s2) as [[rd2 d2] s3] eqn:H3.
      apply physical_read_session in H2, H3.
      assert (H13 : same_session s s3)
        by (eapply same_session_trans; [|eauto]; eapply same_session_trans; eauto).
      destruct (rd2 =? -1); [inversion H; subst; auto|].
      destruct (0 <? second_size_of cfg size offset).
      * destruct (vhd_read_rec cfg fuel _ _ _ s3) as [[[r2 io2] s4]|] eqn:H4;
          [|discriminate].
        apply IH in H4.
        assert (s4 = s') by (destruct (u64 r2 =? u64 (-1)); congruence). subst.
        eapply same_session_trans; eauto.
      * inversion H; subst. auto.
Qed.

Lemma logical_read_session io size offset s r io' s' :
  logical_read cfg io size offset s = Some (r, io', s') -> same_session s s'.
Proof.
  unfold logical_read, vhd_read. destruct (vhd_mode cfg).
  - apply vhd_read_rec_session.
  - destruct (physical_read Data size offset s) as [[rd d] s1] eqn:H1.
    apply physical_read_session in H1. intros H; inversion H; subst; auto.
Qed.

Lemma vhd_write_first_session io size offset s r s' :
  vhd_write_first cfg io size offset s = (r, s') -> same_session s s'.
Proof.
  unfold vhd_write_first. intros H. cbv zeta in H.
  break_all; repeat session_step;
    repeat match goal with
    | |- context [errno_e2big ?x] =>
        let H := fresh in pose proof (errno_e2big_session x) as H;
        set (errno_e2big x) in *
    end;
    unfold same_session in *; cbn in *; intuition congruence.
Qed.

Lemma vhd_write_rec_session fuel : forall io size offset s r s',
  vhd_write_rec cfg fuel io size offset s = Some (r, s') -> same_session s s'.
Proof.
  induction fuel as [|fuel IH]; intros io size offset s r s' H; simpl in H.
  - destruct (u64 (current_size cfg) <? u64 (offset + size));
      [inversion H; subst; apply same_session_refl|].
    destruct (vhd_write_first cfg io size offset s) as [[wd|] s1] eqn:H1;
      apply vhd_write_first_session in H1.
    + destruct (0 <? second_size_of cfg size offset); [discriminate|].
      inversion H; subst; auto.
    + inversion H; subst; auto.
  - destruct (u64 (current_size cfg) <? u64 (offset + size));
      [inversion H; subst; apply same_session_refl|].
    destruct (vhd_write_first cfg io size offset s) as [[wd|] s1] eqn:H1;
      apply vhd_write_first_session in H1.
    + destruct (0 <? second_size_of cfg size offset).
      * destruct (vhd_write_rec cfg fuel _ _ _ s1) as [[r2 s2]|] eqn:H2;
          [|discriminate].
        apply IH in H2.
        assert (s2 = s') by (destruct (u64 r2 =? u64 (-1)); congruence). subst.
        eapply same_session_trans; eauto.
      * inversion H; subst; auto.
    + inversion H; subst; auto.
Qed.

Lemma logical_write_session io size offset s r s' :
  logical_write cfg io size offset s = Some (r, s') -> same_session s s'.
Proof.
  unfold logical_write, vhd_write. destruct (vhd_mode cfg).
  - apply vhd_write_rec_session.
  - destruct (physical_write Data _ offset s) as [rd s1] eqn:H1.
    apply physical_write_session in H1. intros H; inversion H; subst; auto.
Qed.

End Logical.

(* ================================================================= *)
(** ** [read_data]: what is sent *)

Section ReadData.

Context {W E : Type} {BK : Backing W} {HO : Host E}.

Variable cfg : config.

Implicit Type s : state W E.

Lemma read_data_prepare_spec s off len size s1 :
  read_data_prepare cfg s = Ret (Some (off, len, size)) s1 ->
  exists req s0,
    comm_read cfg false 16 s = (Some req, s0)
    /\ off = u64 (le_decode (firstn 8 req))
    /\ len = u64 (le_decode (firstn 8 (skipn 8 req)))
    /\ let s2 := if st_buffer_size s0 <? len then buf_realloc cfg len s0 else s0 in
       size = Z.min len (st_buffer_size s2)
       /\ size <= Z.of_nat (length (st_buf s2))
       /\ s1 = set_buf (memset (st_buf s2) 0 size) s2.
Proof.
  unfold read_data_prepare.
  destruct (comm_read cfg false 16 s) as [[req|] s0] eqn:H1; [|discriminate].
  set (len' := u64 (le_decode (firstn 8 (skipn 8 req)))).
  set (s2 := if st_buffer_size s0 <? len' then buf_realloc cfg len' s0 else s0).
  set (size' := if len' <? st_buffer_size s2 then len' else st_buffer_size s2).
  assert (Hsz : size' = Z.min len' (st_buffer_size s2)).
  { unfold size'. destruct (Z.ltb_spec len' (st_buffer_size s2)); lia. }
  destruct (Z.ltb_spec (Z.of_nat (length (st_buf s2))) size') as [Hlt|Hge];
    [discriminate|].
  intros Heq. inversion Heq; subst. exists req, s0. repeat split; auto.
Qed.

Lemma read_data_prepare_sent s x s1 :
  read_data_prepare cfg s = Ret x s1 -> st_sent s1 = st_sent s.
Proof.
  unfold read_data_prepare.
  destruct (comm_read cfg false 16 s) as [[req|] s0] eqn:H1;
    apply comm_read_frame in H1; destruct H1 as (_ & Hs & _).
  2: { intros H; inversion H; subst. exact Hs. }
  match goal with |- context [if ?c then buf_realloc cfg ?n s0 else s0] =>
    set (s2 := if c then buf_realloc cfg n s0 else s0);
    assert (Hs2 : st_sent s2 = st_sent s0)
      by (unfold s2; destruct c; [apply buf_realloc_frame|reflexivity]) end.
  destruct (Z.of_nat (length (st_buf s2)) <? _); [intros H; discriminate H|].
  intros H; inversion H; subst. cbn. congruence.
Qed.

Lemma read_data_respond_sent fuel len size readdone s r s' :
  readdone <> -1 ->
  read_data_respond cfg fuel len size readdone s = Ret r s' ->
  st_sent s' = st_sent s ++ [resp_block 0 size]
  \/ st_sent s' = st_sent s ++ [resp_block 0 size; firstn (Z.to_nat size) (st_buf s)].
Proof.
  intros Hrd. apply Z.eqb_neq in Hrd.
  unfold read_data_respond. rewrite Hrd.
  set (s0 := if negb (len =? u64 readdone) then syslog "Partial read" s else s).
  assert (Hs0 : st_sent s0 = st_sent s /\ st_buf s0 = st_buf s)
    by (unfold s0; destruct (negb _); split; reflexivity).
  destruct Hs0 as [Hs0 Hb0].
  destruct (comm_write cfg false _ s0) as [ok s1] eqn:H1.
  apply comm_write_frame in H1. destruct H1 as (_ & Hs1 & _ & Hb1).
  destruct ok; cbn [negb].
  2: { intros H; inversion H; subst. left. cbn [st_sent syslog].
       rewrite Hs1, Hs0. reflexivity. }
  change (0 =? 0) with true. cbv iota.
  destruct (comm_write cfg true _ s1) as [ok s2] eqn:H2.
  apply comm_write_frame in H2. destruct H2 as (_ & Hs2 & _ & Hb2).
  assert (Hfin : st_sent s2
                 = st_sent s ++ [resp_block 0 size; firstn (Z.to_nat size) (st_buf s)]).
  { rewrite Hs2, Hs1, Hs0, Hb1, Hb0, <- app_assoc. reflexivity. }
  destruct ok; cbn [negb].
  2: { intros H; inversion H; subst. right. cbn [st_sent syslog]. exact Hfin. }
  destruct (comm_flush cfg fuel s2) as [[ok s3]|] eqn:H3; [|discriminate].
  apply comm_flush_frame in H3. destruct H3 as (_ & Hs3).
  destruct (ok =? 0); intros H; inversion H; subst; right; cbn [st_sent syslog];
    rewrite Hs3; exact Hfin.
Qed.

Lemma read_data_sent_shape
  fuel s off len size s1 readdone io s2 r s' :
  read_data_prepare cfg s = Ret (Some (off, len, size)) s1 ->
  logical_read cfg (st_buf s1) size (s64 (image_offset cfg + off)) s1
    = Some (readdone, io, s2) ->
  readdone <> -1 ->
  read_data cfg fuel s = Ret r s' ->
  size = Z.min len (st_buffer_size s1)
  /\ (st_sent s' = st_sent s ++ [resp_block 0 size]
      \/ st_sent s' = st_sent s ++ [resp_block 0 size; firstn (Z.to_nat size) io]).
Proof.
  intros Hp Hl Hrd Hrun.
  unfold read_data in Hrun. rewrite Hp, Hl in Hrun.
  pose proof (read_data_prepare_sent _ _ _ Hp) as Hs1.
  apply read_data_prepare_spec in Hp.
  destruct Hp as (req & s0 & _ & _ & _ & Hsz & _ & Hs1').
  apply logical_read_session in Hl. destruct Hl as (Hs2 & _ & _).
  apply read_data_respond_sent in Hrun; [|exact Hrd].
  cbn in Hrun. rewrite Hs2, Hs1 in Hrun.
  split; [|exact Hrun].
  rewrite Hs1'. cbn. exact Hsz.
Qed.

(** C2, as amended: a READ answered with [errorno = 0] carries in its
    [length] field the served size [min(req_block.length, buffer_size)],
    whatever count [logical_read] returned, and its payload is the first
    [size] bytes of the region; the count read only decides whether
    [Partial read] is logged. *)
Theorem read_data_reports_clipped_size
  fuel s off len size s1 readdone io s2 r s' :
  read_data_prepare cfg s = Ret (Some (off, len, size)) s1 ->
  logical_read cfg (st_buf s1) size (s64 (image_offset cfg + off)) s1
    = Some (readdone, io, s2) ->
  readdone <> -1 ->
  read_data cfg fuel s = Ret r s' ->
  size = Z.min len (st_buffer_size s1)
  /\ (st_sent s' = st_sent s ++ [resp_block 0 size]
      \/ st_sent s' = st_sent s ++ [resp_block 0 size; firstn (Z.to_nat size) io]).
Proof. apply read_data_sent_shape. Qed.

End ReadData.

(** ** Zero padding of read responses *)

Lemma memset_zero io n : zero_between (memset io 0 n) 0 n.
Proof.
  intros p Hp. unfold memset.
  rewrite app_nth1 by (rewrite repeat_length; lia).
  apply nth_repeat.
Qed.

Lemma store_at_beyond io d b :
  zero_between io (Z.of_nat (length d)) b ->
  zero_between (store_at io d) (Z.of_nat (length d)) b.
Proof.
  intros H p Hp. unfold store_at.
  rewrite app_nth2 by lia. rewrite nth_skipn.
  replace (length d + (Z.to_nat p - length d))%nat with (Z.to_nat p) by lia.
  apply H. lia.
Qed.

Lemma zero_between_weaken io a a' b :
  a <= a' -> zero_between io a b -> zero_between io a' b.
Proof. intros Ha H p Hp. apply H. lia. Qed.

Lemma zero_between_firstn io a b :
  0 <= a ->
  zero_between io a b -> zero_between (firstn (Z.to_nat b) io) a b.
Proof.
  intros Ha H p Hp. rewrite nth_firstn.
  destruct (Nat.ltb_spec (Z.to_nat p) (Z.to_nat b)); [apply H; lia|lia].
Qed.

Section ZeroPadding.

Context {W E : Type} {BK : Backing W} {HO : Host E}.

Variable cfg : config.

Implicit Type s : state W E.

Lemma physical_read_result p n o s r d s' :
  physical_read p n o s = (r, d, s') ->
  st_world s' = st_world s
  /\ (r = -1 \/ r = Z.of_nat (length d)).
Proof.
  unfold physical_read. destruct (bk_pread _ _ _); intros H; inversion H; subst;
    cbn; auto.
Qed.

Lemma physical_read_again p n o s s2 r d s' r2 d2 s2' :
  st_world s2 = st_world s ->
  physical_read p n o s = (r, d, s') ->
  physical_read p n o s2 = (r2, d2, s2') ->
  r2 = r /\ d2 = d.
Proof.
  unfold physical_read. intros Hw. rewrite Hw.
  destruct (bk_pread _ _ _); intros H1 H2; inversion H1; inversion H2; subst; auto.
Qed.

(** A read inside one block: what follows the bytes transferred is
    zero. *)
Lemma vhd_read_rec_single fuel io size offset s r io' s' :
  crosses_block cfg size offset = false ->
  0 <= size < 2 ^ 63 ->
  zero_between io 0 size ->
  vhd_read_rec cfg fuel io size offset s = Some (r, io', s') ->
  r <> -1 ->
  0 <= r /\ zero_between io' r size.
Proof.
  intros Hc Hsz Hz H Hr.
  assert (Hfs : first_size_of cfg size offset = size)
    by (unfold first_size_of; rewrite Hc; reflexivity).
  assert (Hss : second_size_of cfg size offset = 0)
    by (unfold second_size_of; rewrite Hc; reflexivity).
  assert (Hrun :
    (if u64 (current_size cfg) <? u64 (offset + size) then Some (0, io, s) else
     let '(readdone, block_offset, s) :=
       physical_read BatEntry 4
         (s64 (table_offset cfg
               + Z.shiftl (s64 (u64 (Z.shiftr offset (block_shift cfg)))) 2)) s in
     if negb (readdone =? 4) then
       Some (-1, io, errno_e2big (syslog "vhd_read: Error reading block table" s))
     else
     let io := memset io 0 size in
     let '(readdone, io, s, failed) :=
       if is_sparse block_offset then (s64 size, io, s, false)
       else
         let data_offset :=
           data_offset_of cfg (ntohl_bytes block_offset) (in_block_offset_of cfg offset) in
         let '(_, d1, s) := physical_read Data size data_offset s in
         let io := store_at io d1 in
         let '(readdone, d2, s) := physical_read Data size data_offset s in
         (readdone, store_at io d2, s, readdone =? -1) in
     if failed then Some (-1, io, s) else Some (readdone, io, s))
    = Some (r, io', s')).
  { rewrite <- H. destruct fuel; simpl; rewrite Hfs, Hss; reflexivity. }
  clear H.
  destruct (u64 (current_size cfg) <? u64 (offset + size)).
  { inversion Hrun; subst. split; [lia|exact Hz]. }
  destruct (physical_read BatEntry 4 _ s) as [[rd bo] s1] eqn:H1.
  destruct (negb (rd =? 4)); [inversion Hrun; subst; contradiction|].
  destruct (is_sparse bo).
  - inversion Hrun; subst.
    rewrite s64_small by lia. split; [lia|]. intros p Hp'. lia.
  - cbv zeta in Hrun.
    match type of Hrun with context [physical_read Data size ?o s1] =>
      destruct (physical_read Data size o s1) as [[rd1 d1] s2] eqn:H2;
      destruct (physical_read Data size o s2) as [[rd2 d2] s3] eqn:H3 end.
    pose proof (physical_read_result _ _ _ _ _ _ _ H2) as (Hw2 & _).
    destruct (physical_read_again _ _ _ _ _ _ _ _ _ _ _ Hw2 H2 H3) as (_ & Hd).
    pose proof (physical_read_result _ _ _ _ _ _ _ H3) as (_ & Hr3).
    destruct (rd2 =? -1) eqn:Hf; [inversion Hrun; subst; contradiction|].
    apply Z.eqb_neq in Hf. inversion Hrun; subst.
    destruct Hr3 as [?|Hr3]; [contradiction|]. rewrite Hr3.
    split; [lia|].
    apply store_at_beyond, store_at_beyond.
    apply (zero_between_weaken _ 0); [lia|apply memset_zero].
Qed.

Lemma logical_read_padding io size offset s r io' s' :
  vhd_mode cfg = false \/ crosses_block cfg size offset = false ->
  0 <= size < 2 ^ 63 ->
  zero_between io 0 size ->
  logical_read cfg io size offset s = Some (r, io', s') ->
  r <> -1 ->
  0 <= r /\ zero_between io' r size.
Proof.
  intros Hmode Hsz Hz H Hr. unfold logical_read in H.
  destruct (vhd_mode cfg) eqn:Hv.
  - destruct Hmode as [?|Hc]; [discriminate|].
    eapply vhd_read_rec_single; eauto.
  - destruct (physical_read Data size offset s) as [[rd d] s1] eqn:H1.
    apply physical_read_result in H1. destruct H1 as (_ & [Hm|Hl]);
      inversion H; subst; [contradiction|].
    split; [lia|]. apply store_at_beyond.
    apply (zero_between_weaken _ 0); [lia|exact Hz].
Qed.

(** C10, as amended: [read_data] zero-fills the first [size] bytes of
    the buffer before it calls [logical_read]; when the read is served
    in one part (a raw image, or a VHD read that does not cross a block
    boundary) and is answered with [errorno = 0], every payload byte at
    a position from the count [logical_read] returned up to [size] is
    zero. *)
Theorem read_data_zero_padding
  fuel s off len size s1 readdone io s2 r s' :
  read_data_prepare cfg s = Ret (Some (off, len, size)) s1 ->
  logical_read cfg (st_buf s1) size (s64 (image_offset cfg + off)) s1
    = Some (readdone, io, s2) ->
  readdone <> -1 ->
  read_data cfg fuel s = Ret r s' ->
  0 <= size < 2 ^ 63 ->
  vhd_mode cfg = false
  \/ crosses_block cfg size (s64 (image_offset cfg + off)) = false ->
  let payload := firstn (Z.to_nat size) io in
  (st_sent s' = st_sent s ++ [resp_block 0 size]
   \/ st_sent s' = st_sent s ++ [resp_block 0 size; payload])
  /\ zero_between (st_buf s1) 0 size
  /\ forall p, readdone <= p < size -> nth (Z.to_nat p) payload 0 = 0.
Proof.
  intros Hp Hl Hrd Hrun Hsz Hmode payload.
  pose proof (read_data_sent_shape cfg fuel s off len size s1 readdone io s2 r s'
                Hp Hl Hrd Hrun) as (_ & Hsent).
  apply read_data_prepare_spec in Hp.
  destruct Hp as (req & s0 & _ & _ & _ & _ & _ & Hs1).
  assert (Hz : zero_between (st_buf s1) 0 size).
  { rewrite Hs1. cbn [st_buf set_buf]. apply memset_zero. }
  destruct (logical_read_padding _ _ _ _ _ _ _ Hmode Hsz Hz Hl Hrd) as (Hr0 & Hpad).
  split; [exact Hsent|]. split; [exact Hz|].
  apply zero_between_firstn; [lia|exact Hpad].
Qed.

End ZeroPadding.

Lemma buffer_bound_le cfg : 2 ^ 62 <= buffer_bound cfg <= SIZE_HALF.
Proof.
  unfold buffer_bound. rewrite SIZE_HALF_eq.
  destruct (win32 cfg && drv_mode cfg); lia.
Qed.

Lemma memset_length io c n :
  n <= Z.of_nat (length io) -> length (memset io c n) = length io.
Proof.
  intros H. unfold memset. rewrite length_app, repeat_length, length_skipn. lia.
Qed.

Lemma store_at_length io d :
  (length d <= length io)%nat -> length (store_at io d) = length io.
Proof.
  intros H. unfold store_at. rewrite length_app, length_skipn. lia.
Qed.

Lemma fresh_block_length g n : length (fresh_block g n) = Z.to_nat n.
Proof. unfold fresh_block. now rewrite length_map, length_seq. Qed.

Ltac buf_simpl :=
  cbn [st_buffer_size st_buf st_buf2 st_host st_shm_hdr set_host syslog
       set_buffer_size set_buf set_buf2 set_shm_hdr set_shm_readptr
       set_shm_writeptr add_sent] in *.

(* ================================================================= *)
(** ** The buffer only grows *)

Section Growth.

Context {W E : Type} {BK : Backing W} {HO : Host E}.

Variable cfg : config.

Hypothesis HOK : host_ok cfg.

Implicit Type s : state W E.

Lemma alloc_drv_buffer_grows s rc s' :
  0 <= st_buffer_size s <= 2 ^ 63 ->
  alloc_drv_buffer cfg s = (rc, s') ->
  st_buffer_size s <= st_buffer_size s'
  /\ (rc = 0 -> 0 <= st_buffer_size s' <= 2 ^ 62
                /\ Z.of_nat (length (st_buf s')) <= 2 ^ 62).
Proof.
  destruct HOK as (_ & Hmap & Hhdr).
  intros Hbs. unfold alloc_drv_buffer.
  rewrite (u64_small (st_buffer_size s + _)) by lia.
  destruct (map_region _ (st_host s)) as [[| | |r] h] eqn:Hm.
  1-3: intros H; inversion H; subst; cbn; split; [lia|discriminate].
  apply Hmap in Hm. destruct Hm as [Hr1 Hr2].
  rewrite (u64_small (r - _)) by lia.
  cbn [st_buffer_size set_buf set_shm_hdr set_host st_buf2 st_host set_buffer_size].
  destruct (Z.eqb_spec (st_buffer_size s) (r - IMDPROXY_HEADER_SIZE cfg)) as [He|Hne];
    cbn [negb].
  - destruct (lock_memory _ _) as [ok h']. intros H.
    destruct ok; inversion H; subst; cbn; rewrite repeat_length; split; lia.
  - destruct (st_buf2 s).
    + destruct (malloc _ _) as [[g|] h'].
      * cbn. destruct (lock_memory _ _) as [ok h'']. intros H.
        destruct ok; inversion H; subst; cbn; rewrite repeat_length; split; lia.
      * intros H; inversion H; subst; cbn. split; [lia|discriminate].
    + cbn. destruct (lock_memory _ _) as [ok h']. intros H.
      destruct ok; inversion H; subst; cbn; rewrite repeat_length; split; lia.
Qed.

Lemma drv_flush_loop_grows fuel : forall s r s',
  0 <= st_buffer_size s <= 2 ^ 62 ->
  Z.of_nat (length (st_buf s)) <= 2 ^ 62 ->
  drv_flush_loop cfg fuel s = Some (r, s') ->
  st_buffer_size s <= st_buffer_size s'
  /\ (r <> 0 -> 0 <= st_buffer_size s' <= 2 ^ 62
                 /\ Z.of_nat (length (st_buf s')) <= 2 ^ 62).
Proof.
  induction fuel as [|fuel IH]; intros s r s' Hbs Hbuf H; cbn [drv_flush_loop] in H.
  - destruct (exchange_io (st_host s)) as [[hdr payload| | |] h].
    + inversion H; subst.
      match goal with |- context [peer_deposit ?a ?b ?c] =>
        destruct (peer_deposit_frame a b c) as (_ & _ & H2 & H3) end.
      rewrite H2, H3. cbn. split; [lia|intros _; split; lia].
    + destruct (wait_memory_unlock _) as [ok h'].
      destruct (alloc_drv_buffer cfg _) as [rc s1] eqn:Ha.
      apply alloc_drv_buffer_grows in Ha.
      2: { destruct ok; buf_simpl; rewrite Z.shiftl_mul_pow2, u64_small by lia; lia. }
      destruct (rc =? 0); [discriminate|]. inversion H; subst.
      destruct Ha as [Ha _]. split; [|intros Hx; contradiction].
      destruct ok; buf_simpl; rewrite Z.shiftl_mul_pow2, u64_small in Ha by lia; lia.
    + inversion H; subst. cbn. split; [lia|intros _; split; lia].
    + inversion H; subst. cbn. split; [lia|intros Hx; contradiction].
  - destruct (exchange_io (st_host s)) as [[hdr payload| | |] h].
    + inversion H; subst.
      match goal with |- context [peer_deposit ?a ?b ?c] =>
        destruct (peer_deposit_frame a b c) as (_ & _ & H2 & H3) end.
      rewrite H2, H3. cbn. split; [lia|intros _; split; lia].
    + destruct (wait_memory_unlock _) as [ok h'].
      destruct (alloc_drv_buffer cfg _) as [rc s1] eqn:Ha.
      apply alloc_drv_buffer_grows in Ha.
      2: { destruct ok; buf_simpl; rewrite Z.shiftl_mul_pow2, u64_small by lia; lia. }
      destruct Ha as [Ha Ha0].
      assert (Hd : 2 * st_buffer_size s <= st_buffer_size s1).
      { destruct ok; buf_simpl; rewrite Z.shiftl_mul_pow2, u64_small in Ha by lia; lia. }
      destruct (Z.eqb_spec rc 0) as [Hrc|Hrc].
      * destruct (Ha0 Hrc) as [Hb1 Hb2].
        destruct (IH s1 r s' Hb1 Hb2 H) as [Hm Hinv]. split; [lia|exact Hinv].
      * inversion H; subst. split; [lia|intros Hx; contradiction].
    + inversion H; subst. cbn. split; [lia|intros _; split; lia].
    + inversion H; subst. cbn. split; [lia|intros Hx; contradiction].
Qed.

Lemma comm_flush_grows fuel s r s' :
  buffer_inv cfg s ->
  comm_flush cfg fuel s = Some (r, s') ->
  st_buffer_size s <= st_buffer_size s' /\ (r <> 0 -> buffer_inv cfg s').
Proof.
  intros [Hbs Hbuf]. unfold comm_flush. destruct (shm_mode cfg).
  - intros H. inversion H as [H1]. apply shm_flush_frame in H1.
    destruct H1 as (_ & _ & H2 & H3). unfold buffer_inv. rewrite H2, H3.
    split; [lia|intros _; split; lia].
  - destruct (drv_mode cfg) eqn:Hd.
    + unfold drv_flush. destruct (win32 cfg) eqn:Hw; cbn [negb].
      * unfold buffer_inv, buffer_bound in *. rewrite Hw, Hd in *. cbn [andb] in *.
        intros H. apply drv_flush_loop_grows in H; cbn; auto.
      * intros H; inversion H; subst. split; [lia|intros Hx; contradiction].
    + intros H; inversion H; subst. split; [lia|intros _; split; auto].
Qed.

Lemma buf_realloc_grows n s :
  buffer_inv cfg s ->
  st_buffer_size s < n ->
  let s' := buf_realloc cfg n s in
  st_buffer_size s <= st_buffer_size s'
  /\ (buffer_inv cfg s'
      \/ Z.of_nat (length (st_buf s')) < Z.min n (st_buffer_size s')).
Proof.
  intros [Hbs Hbuf] Hn. pose proof (buffer_bound_le cfg) as Hbb.
  rewrite SIZE_HALF_eq in Hbb.
  unfold buf_realloc. destruct (shm_mode cfg).
  { cbn. split; [lia|left; split; auto]. }
  set (m := if SIZE_HALF <? n then SIZE_HALF else n).
  assert (Hm : m = Z.min n SIZE_HALF).
  { unfold m. destruct (Z.ltb_spec SIZE_HALF n); lia. }
  assert (Hm' : st_buffer_size s <= m <= SIZE_HALF /\ m <= n).
  { rewrite Hm, SIZE_HALF_eq. lia. }
  rewrite SIZE_HALF_eq in Hm'.
  rewrite (u64_small m) by lia.
  destruct (win32 cfg && drv_mode cfg) eqn:Hdrv.
  - unfold buffer_inv, buffer_bound in *. rewrite Hdrv in *.
    destruct (wait_memory_unlock _) as [ok h].
    destruct (alloc_drv_buffer cfg _) as [rc s1] eqn:Ha.
    apply alloc_drv_buffer_grows in Ha.
    2: { destruct ok; buf_simpl; lia. }
    destruct Ha as [Ha Ha0].
    assert (Hb1 : m <= st_buffer_size s1) by (destruct ok; buf_simpl; lia).
    destruct (Z.eqb_spec rc 0) as [Hrc|Hrc].
    + destruct (Ha0 Hrc) as [Hx Hy]. buf_simpl. split; [lia|left; split; lia].
    + buf_simpl. split; [lia|].
      destruct (Z.le_gt_cases m (2 ^ 62)); [left; split; lia|right; lia].
  - unfold buffer_inv, buffer_bound in *. rewrite Hdrv in *.
    cbn [st_buffer_size set_buffer_size st_host].
    destruct (malloc m (st_host s)) as [[g|] h]; buf_simpl;
      destruct (malloc m h) as [[g2|] h2]; buf_simpl;
      rewrite ?fresh_block_length, ?SIZE_HALF_eq in *; (split; [lia|left; split; lia]).
Qed.

End Growth.

Section Handlers.

Context {W E : Type} {BK : Backing W} {HO : Host E}.

Variable cfg : config.

Hypothesis HOK : host_ok cfg.

Hypothesis HPB : pread_bounded.

Hypothesis HVC : vhd_mode cfg = true -> vhd_config cfg.

Implicit Type s : state W E.

Lemma physical_read_length p n o s r d s' :
  physical_read p n o s = (r, d, s') -> Z.of_nat (length d) <= Z.max 0 n.
Proof.
  unfold physical_read. destruct (bk_pread _ _ _) eqn:Hp; intros H;
    inversion H; subst.
  - eapply HPB; eauto.
  - cbn. lia.
Qed.

Lemma vhd_read_rec_length fuel : forall io size offset s r io' s',
  vhd_config cfg ->
  0 <= size < 2 ^ 63 ->
  size <= Z.of_nat (length io) ->
  vhd_read_rec cfg fuel io size offset s = Some (r, io', s') ->
  length io' = length io.
Proof.
  induction fuel as [|fuel IH]; intros io size offset s r io' s' VC Hsz Hlen H;
    cbn [vhd_read_rec] in H; cbv zeta in H.
  all: assert (Hfs : 0 <= first_size_of cfg size offset <= size)
    by (destruct (crosses_block cfg size offset) eqn:Hc;
        [destruct (split_cross cfg VC size offset Hsz Hc) as (? & ? & ?)
        |destruct (split_nocross cfg VC size offset Hsz Hc) as (? & ? & ?)]; lia).
  all: destruct (u64 (current_size cfg) <? u64 (offset + size));
    [inversion H; subst; reflexivity|].
  all: destruct (physical_read BatEntry 4 _ s) as [[rd bo] s1].
  all: destruct (negb (rd =? 4)); [inversion H; subst; reflexivity|].
  all: assert (Hm : length (memset io 0 size) = length io)
    by (apply memset_length; lia).
  all: destruct (is_sparse bo).
  - destruct (Z.ltb_spec 0 (second_size_of cfg size offset)) as [Hp|Hp];
      [discriminate|]. inversion H; subst. exact Hm.
  - destruct (physical_read Data _ _ s1) as [[rd1 d1] s2] eqn:H1.
    destruct (physical_read Data _ _ s2) as [[rd2 d2] s3] eqn:H2.
    apply physical_read_length in H1, H2.
    assert (Hst : length (store_at (store_at (memset io 0 size) d1) d2) = length io).
    { rewrite !store_at_length; [exact Hm|lia|rewrite store_at_length; lia]. }
    destruct (rd2 =? -1); [inversion H; subst; exact Hst|].
    destruct (Z.ltb_spec 0 (second_size_of cfg size offset)) as [Hp|Hp];
      [discriminate|]. inversion H; subst. exact Hst.
  - destruct (Z.ltb_spec 0 (second_size_of cfg size offset)) as [Hp|Hp].
    + pose proof (second_size_lt cfg VC size offset Hsz Hp) as Hss.
      assert (Hsum : second_size_of cfg size offset <= size - first_size_of cfg size offset).
      { destruct (crosses_block cfg size offset) eqn:Hc;
          [destruct (split_cross cfg VC size offset Hsz Hc) as (? & ? & ?)
          |destruct (split_nocross cfg VC size offset Hsz Hc) as (? & ? & ?)]; lia. }
      destruct (vhd_read_rec cfg fuel _ _ _ _) as [[[r2 tail] s9]|] eqn:Hrec;
        [|discriminate].
      apply IH in Hrec; [|assumption|lia|rewrite length_skipn; lia].
      assert (Hall : length (firstn (Z.to_nat (first_size_of cfg size offset))
                               (memset io 0 size) ++ tail) = length io).
      { rewrite length_app, Hrec, length_firstn, length_skipn. lia. }
      destruct (u64 r2 =? u64 (-1)); inversion H; subst; exact Hall.
    + inversion H; subst. exact Hm.
  - destruct (physical_read Data _ _ s1) as [[rd1 d1] s2] eqn:H1.
    destruct (physical_read Data _ _ s2) as [[rd2 d2] s3] eqn:H2.
    apply physical_read_length in H1, H2.
    assert (Hst : length (store_at (store_at (memset io 0 size) d1) d2) = length io).
    { rewrite !store_at_length; [exact Hm|lia|rewrite store_at_length; lia]. }
    destruct (rd2 =? -1); [inversion H; subst; exact Hst|].
    destruct (Z.ltb_spec 0 (second_size_of cfg size offset)) as [Hp|Hp].
    + pose proof (second_size_lt cfg VC size offset Hsz Hp) as Hss.
      assert (Hsum : second_size_of cfg size offset <= size - first_size_of cfg size offset).
      { destruct (crosses_block cfg size offset) eqn:Hc;
          [destruct (split_cross cfg VC size offset Hsz Hc) as (? & ? & ?)
          |destruct (split_nocross cfg VC size offset Hsz Hc) as (? & ? & ?)]; lia. }
      destruct (vhd_read_rec cfg fuel _ _ _ _) as [[[r2 tail] s9]|] eqn:Hrec;
        [|discriminate].
      apply IH in Hrec; [|assumption|lia|rewrite length_skipn; lia].
      assert (Hall : length (firstn (Z.to_nat (first_size_of cfg size offset))
                               (store_at (store_at (memset io 0 size) d1) d2) ++ tail)
                     = length io).
      { rewrite length_app, Hrec, length_firstn, length_skipn. lia. }
      destruct (u64 r2 =? u64 (-1)); inversion H; subst; exact Hall.
    + inversion H; subst. exact Hst.
Qed.

Lemma logical_read_length io size offset s r io' s' :
  0 <= size < 2 ^ 63 ->
  size <= Z.of_nat (length io) ->
  logical_read cfg io size offset s = Some (r, io', s') ->
  length io' = length io.
Proof.
  intros Hsz Hlen. unfold logical_read. destruct (vhd_mode cfg) eqn:Hv.
  - apply vhd_read_rec_length; auto.
  - destruct (physical_read Data size offset s) as [[r1 d] s1] eqn:H1.
    apply physical_read_length in H1. intros H; inversion H; subst.
    apply store_at_length. lia.
Qed.

Lemma buffer_inv_syslog msg s : buffer_inv cfg (syslog msg s) <-> buffer_inv cfg s.
Proof. unfold buffer_inv. cbn. tauto. Qed.

Lemma flush_tail_grows fuel s0 s :
  buffer_inv cfg s ->
  st_buffer_size s0 <= st_buffer_size s ->
  grows cfg s0
    match comm_flush cfg fuel s with
    | None => Diverge
    | Some (ok, s) =>
        if ok =? 0 then Ret 0 (syslog "Error flushing comm data" s) else Ret 1 s
    end.
Proof.
  intros Hinv Hle. destruct (comm_flush cfg fuel s) as [[ok s1]|] eqn:Hf; [|exact I].
  apply comm_flush_grows in Hf; auto. destruct Hf as [Hm Hi].
  destruct (Z.eqb_spec ok 0); cbn.
  - split; [lia|intros Hx; contradiction].
  - split; [lia|intros _; auto].
Qed.

Lemma comm_write_inv from_buf data s ok s' :
  comm_write cfg from_buf data s = (ok, s') ->
  st_buffer_size s' = st_buffer_size s /\ (buffer_inv cfg s -> buffer_inv cfg s').
Proof.
  intros H. apply comm_write_frame in H. destruct H as (_ & _ & H1 & H2).
  unfold buffer_inv. rewrite H1, H2. tauto.
Qed.

Lemma send_info_grows fuel s :
  buffer_inv cfg s -> grows cfg s (send_info cfg fuel s).
Proof.
  intros Hinv. unfold send_info.
  destruct (comm_write cfg false _ s) as [ok s1] eqn:Hw.
  apply comm_write_inv in Hw. destruct Hw as [Hb Hi].
  destruct ok; cbn [negb].
  - apply flush_tail_grows; [auto|lia].
  - cbn. split; [lia|intros Hx; contradiction].
Qed.

Lemma read_data_respond_grows fuel len size readdone s0 s :
  buffer_inv cfg s ->
  st_buffer_size s0 <= st_buffer_size s ->
  grows cfg s0 (read_data_respond cfg fuel len size readdone s).
Proof.
  intros Hinv Hle. unfold read_data_respond.
  set (pre := if readdone =? -1 then (u64 (st_errno s), 0, syslog "Device read" s)
              else (0, size, if negb (len =? u64 readdone)
                             then syslog "Partial read" s else s)).
  assert (Hpre : buffer_inv cfg (snd pre)
                 /\ st_buffer_size (snd pre) = st_buffer_size s).
  { unfold pre. destruct (readdone =? -1); [|destruct (negb _)]; cbn [snd];
      rewrite ?buffer_inv_syslog; auto. }
  destruct pre as [[errorno length] s1]. cbn [snd] in Hpre. destruct Hpre as [Hi1 Hb1].
  destruct (comm_write cfg false _ s1) as [ok s2] eqn:Hw.
  apply comm_write_inv in Hw. destruct Hw as [Hb2 Hi2].
  destruct ok; cbn [negb]; [|cbn; split; [lia|intros Hx; contradiction]].
  destruct (errorno =? 0).
  - destruct (comm_write cfg true _ s2) as [ok s3] eqn:Hw.
    apply comm_write_inv in Hw. destruct Hw as [Hb3 Hi3].
    destruct ok; cbn [negb]; [|cbn; split; [lia|intros Hx; contradiction]].
    apply flush_tail_grows; [auto|lia].
  - cbn [negb]. apply flush_tail_grows; [auto|lia].
Qed.

Lemma read_data_grows fuel s :
  buffer_inv cfg s -> grows cfg s (read_data cfg fuel s).
Proof.
  intros Hinv. pose proof (buffer_bound_le cfg) as Hbb. rewrite SIZE_HALF_eq in Hbb.
  unfold read_data, read_data_prepare.
  destruct (comm_read cfg false 16 s) as [[req|] s0] eqn:Hr.
  2: { apply comm_read_frame in Hr. destruct Hr as (_ & _ & Hb).
       cbn. split; [lia|intros Hx; contradiction]. }
  pose proof (comm_read_struct_buf _ _ _ _ _ Hr) as Hbuf.
  apply comm_read_frame in Hr. destruct Hr as (_ & _ & Hb).
  assert (Hi0 : buffer_inv cfg s0) by (unfold buffer_inv in *; rewrite Hb, Hbuf; auto).
  set (len := u64 (le_decode (firstn 8 (skipn 8 req)))).
  assert (Hlen : 0 <= len) by (unfold len, u64; apply Z.mod_pos_bound; lia).
  set (s2 := if st_buffer_size s0 <? len then buf_realloc cfg len s0 else s0).
  assert (H2 : st_buffer_size s0 <= st_buffer_size s2
               /\ (buffer_inv cfg s2
                   \/ Z.of_nat (length (st_buf s2)) < Z.min len (st_buffer_size s2))).
  { unfold s2. destruct (Z.ltb_spec (st_buffer_size s0) len).
    - apply buf_realloc_grows; auto.
    - split; [lia|left; auto]. }
  destruct H2 as [Hm2 Hc2].
  set (size := if len <? st_buffer_size s2 then len else st_buffer_size s2).
  assert (Hsize : size = Z.min len (st_buffer_size s2)).
  { unfold size. destruct (Z.ltb_spec len (st_buffer_size s2)); lia. }
  destruct (Z.ltb_spec (Z.of_nat (length (st_buf s2))) size) as [Hlt|Hge].
  { cbn. lia. }
  destruct Hc2 as [Hi2|Hc2]; [|lia].
  destruct Hi2 as [Hbs2 Hbuf2].
  assert (Hsz : 0 <= size < 2 ^ 63) by lia.
  set (s3 := set_buf (memset (st_buf s2) 0 size) s2).
  destruct (logical_read cfg (st_buf s3) size _ s3) as [[[rd io] s4]|] eqn:Hl;
    [|exact I].
  pose proof (logical_read_session _ _ _ _ _ _ _ _ Hl) as (_ & Hb4 & _).
  apply logical_read_length in Hl; auto.
  2: { unfold s3. cbn [st_buf set_buf]. rewrite memset_length; lia. }
  unfold s3 in Hl, Hb4. cbn [st_buf set_buf st_buffer_size] in Hl, Hb4.
  rewrite memset_length in Hl by lia.
  apply read_data_respond_grows.
  - unfold buffer_inv. cbn [st_buf set_buf st_buffer_size]. rewrite Hb4, Hl.
    split; lia.
  - cbn [st_buf set_buf st_buffer_size]. lia.
Qed.

Lemma comm_read_buf_inv n s r s' :
  buffer_inv cfg s ->
  (shm_mode cfg || drv_mode cfg = false -> n <= Z.of_nat (length (st_buf s))) ->
  comm_read cfg true n s = (r, s') ->
  buffer_inv cfg s' /\ st_buffer_size s' = st_buffer_size s
  /\ length (st_buf s') = length (st_buf s).
Proof.
  intros Hinv Hn. unfold comm_read.
  destruct (shm_mode cfg || drv_mode cfg).
  - intros H. apply shm_read_frame in H. destruct H as (_ & _ & H1 & H2).
    unfold buffer_inv. rewrite H1, H2. auto.
  - destruct HOK as (Hsr & _).
    destruct (safe_read n (st_host s)) as [[d|] h] eqn:Hs; intros H;
      inversion H; subst; unfold buffer_inv; cbn [st_buf st_buffer_size set_buf set_host];
      auto.
    apply Hsr in Hs. specialize (Hn eq_refl).
    rewrite store_at_length by lia. auto.
Qed.

Lemma write_data_grows fuel s :
  buffer_inv cfg s -> grows cfg s (write_data cfg fuel s).
Proof.
  intros Hinv. unfold write_data.
  destruct (comm_read cfg false 16 s) as [[req|] s0] eqn:Hr.
  2: { apply comm_read_frame in Hr. destruct Hr as (_ & _ & Hb).
       cbn. split; [lia|intros Hx; contradiction]. }
  pose proof (comm_read_struct_buf _ _ _ _ _ Hr) as Hbuf.
  apply comm_read_frame in Hr. destruct Hr as (_ & _ & Hb).
  assert (Hi0 : buffer_inv cfg s0) by (unfold buffer_inv in *; rewrite Hb, Hbuf; auto).
  set (len := u64 (le_decode (firstn 8 (skipn 8 req)))).
  destruct (Z.ltb_spec (st_buffer_size s0) len) as [Hbig|Hfit].
  { cbn. split; [lia|intros Hx; contradiction]. }
  destruct (negb (shm_mode cfg || drv_mode cfg)) eqn:Hmode; cbn [andb].
  - destruct (Z.ltb_spec (Z.of_nat (length (st_buf s0))) len) as [Hlt|Hge].
    { cbn. lia. }
    destruct (comm_read cfg true len s0) as [[d|] s1] eqn:Hr1;
      apply comm_read_buf_inv in Hr1; auto; destruct Hr1 as (Hi1 & Hb1 & Hl1).
    2: { cbn. split; [lia|intros Hx; contradiction]. }
    destruct (negb (Z.land _ _ =? 0)).
    + destruct (comm_write cfg false _ _) as [ok s2] eqn:Hw.
      apply comm_write_inv in Hw. destruct Hw as [Hb2 Hi2].
      cbn [syslog st_buffer_size] in Hb2. rewrite buffer_inv_syslog in Hi2.
      destruct ok; cbn [negb]; [|cbn; split; [lia|intros Hx; contradiction]].
      apply flush_tail_grows; [auto|lia].
    + destruct (Z.of_nat (length (st_buf s1)) <? len); [cbn; lia|].
      destruct (logical_write cfg _ _ _ s1) as [[wd s2]|] eqn:Hl; [|exact I].
      apply logical_write_session in Hl. destruct Hl as (_ & Hb2 & Hbuf2).
      set (post := if wd =? -1
                   then (u64 (st_errno s2), u64 wd, syslog "Device write" s2)
                   else (0, u64 wd, s2)).
      assert (Hpost : st_buffer_size (snd post) = st_buffer_size s2
                      /\ st_buf (snd post) = st_buf s2)
        by (unfold post; destruct (wd =? -1); cbn; auto).
      destruct post as [[errorno length] s3]. cbn [snd] in Hpost.
      destruct Hpost as [Hb3 Hbuf3].
      set (s4 := if negb (len =? length)
                 then if wd <? 0 then syslog "Write error" s3
                      else syslog "Partial write" s3
                 else s3).
      assert (H4 : st_buffer_size s4 = st_buffer_size s3 /\ st_buf s4 = st_buf s3)
        by (unfold s4; destruct (negb (len =? length)); [destruct (wd <? 0)|]; cbn; auto).
      destruct H4 as [Hb4 Hbuf4].
      destruct (comm_write cfg false _ s4) as [ok s5] eqn:Hw.
      apply comm_write_inv in Hw. destruct Hw as [Hb5 Hi5].
      assert (Hi4 : buffer_inv cfg s4).
      { unfold buffer_inv in *. rewrite Hb4, Hbuf4, Hb3, Hbuf3, Hb2, Hbuf2. auto. }
      destruct ok; cbn [negb]; [|cbn; split; [lia|intros Hx; contradiction]].
      apply flush_tail_grows; [auto|lia].
  - destruct (comm_read cfg true len s0) as [[d|] s1] eqn:Hr1;
      apply comm_read_buf_inv in Hr1; auto;
      try (intros Hx; apply negb_false_iff in Hmode; congruence);
      destruct Hr1 as (Hi1 & Hb1 & Hl1).
    2: { cbn. split; [lia|intros Hx; contradiction]. }
    destruct (negb (Z.land _ _ =? 0)).
    + destruct (comm_write cfg false _ _) as [ok s2] eqn:Hw.
      apply comm_write_inv in Hw. destruct Hw as [Hb2 Hi2].
      cbn [syslog st_buffer_size] in Hb2. rewrite buffer_inv_syslog in Hi2.
      destruct ok; cbn [negb]; [|cbn; split; [lia|intros Hx; contradiction]].
      apply flush_tail_grows; [auto|lia].
    + destruct (Z.of_nat (length (st_buf s1)) <? len); [cbn; lia|].
      destruct (logical_write cfg _ _ _ s1) as [[wd s2]|] eqn:Hl; [|exact I].
      apply logical_write_session in Hl. destruct Hl as (_ & Hb2 & Hbuf2).
      set (post := if wd =? -1
                   then (u64 (st_errno s2), u64 wd, syslog "Device write" s2)
                   else (0, u64 wd, s2)).
      assert (Hpost : st_buffer_size (snd post) = st_buffer_size s2
                      /\ st_buf (snd post) = st_buf s2)
        by (unfold post; destruct (wd =? -1); cbn; auto).
      destruct post as [[errorno length] s3]. cbn [snd] in Hpost.
      destruct Hpost as [Hb3 Hbuf3].
      set (s4 := if negb (len =? length)
                 then if wd <? 0 then syslog "Write error" s3
                      else syslog "Partial write" s3
                 else s3).
      assert (H4 : st_buffer_size s4 = st_buffer_size s3 /\ st_buf s4 = st_buf s3)
        by (unfold s4; destruct (negb (len =? length)); [destruct (wd <? 0)|]; cbn; auto).
      destruct H4 as [Hb4 Hbuf4].
      destruct (comm_write cfg false _ s4) as [ok s5] eqn:Hw.
      apply comm_write_inv in Hw. destruct Hw as [Hb5 Hi5].
      assert (Hi4 : buffer_inv cfg s4).
      { unfold buffer_inv in *. rewrite Hb4, Hbuf4, Hb3, Hbuf3, Hb2, Hbuf2. auto. }
      destruct ok; cbn [negb]; [|cbn; split; [lia|intros Hx; contradiction]].
      apply flush_tail_grows; [auto|lia].
Qed.

Lemma serve_one_grows fuel s :
  buffer_inv cfg s ->
  match serve_one cfg fuel s with
  | Ret x s' =>
      st_buffer_size s <= st_buffer_size s' /\ (x = None -> buffer_inv cfg s')
  | Crash s' => st_buffer_size s <= st_buffer_size s'
  | Diverge => True
  end.
Proof.
  intros Hinv. unfold serve_one.
  destruct (comm_read cfg false 8 s) as [[req|] s0] eqn:Hr.
  2: { apply comm_read_frame in Hr. destruct Hr as (_ & _ & Hb).
       split; [lia|discriminate]. }
  pose proof (comm_read_struct_buf _ _ _ _ _ Hr) as Hbuf.
  apply comm_read_frame in Hr. destruct Hr as (_ & _ & Hb).
  assert (Hi0 : buffer_inv cfg s0) by (unfold buffer_inv in *; rewrite Hb, Hbuf; auto).
  match goal with |- match (match ?h with _ => _ end) with _ => _ end =>
    assert (Hg : grows cfg s0 h); [|destruct h as [r s1|s1|]] end.
  { destruct (_ =? IMDPROXY_REQ_INFO cfg); [apply send_info_grows; auto|].
    destruct (_ =? IMDPROXY_REQ_READ cfg); [apply read_data_grows; auto|].
    destruct (_ =? IMDPROXY_REQ_WRITE cfg); [apply write_data_grows; auto|].
    destruct (comm_write cfg false _ s0) as [ok s1] eqn:Hw.
    apply comm_write_inv in Hw. destruct Hw as [Hb1 Hi1].
    destruct ok; cbn; (split; [lia|auto]). }
  - cbn in Hg. destruct Hg as [Hm Hi]. destruct (Z.eqb_spec r 0).
    + split; [lia|discriminate].
    + split; [lia|auto].
  - cbn in Hg. lia.
  - exact I.
Qed.

Lemma do_comm_loop_grows fuel n : forall s,
  buffer_inv cfg s ->
  match do_comm_loop cfg fuel n s with
  | Ret _ s' | Crash s' => st_buffer_size s <= st_buffer_size s'
  | Diverge => True
  end.
Proof.
  induction n as [|n IH]; intros s Hinv; cbn [do_comm_loop].
  - lia.
  - pose proof (serve_one_grows fuel s Hinv) as H1.
    destruct (serve_one cfg fuel s) as [[x|] s1|s1|]; try tauto.
    destruct H1 as [Hm Hi]. specialize (IH s1 (Hi eq_refl)).
    destruct (do_comm_loop cfg fuel n s1); auto; lia.
Qed.

(** C9: in a session whose host delivers at most the bytes asked for
    and maps regions that cover the size asked for, on a store whose
    [pread] returns at most the bytes asked for, from a buffer of
    [buffer_size] bytes within [buffer_bound]: a request leaves
    [buffer_size] at least what it was, also when it ends the session
    or crashes, and leaves such a buffer to the next request; so after
    any number of requests [buffer_size] is at least what it was. *)
Theorem buffer_size_never_shrinks fuel s :
  buffer_inv cfg s ->
  match serve_one cfg fuel s with
  | Ret x s' =>
      st_buffer_size s <= st_buffer_size s' /\ (x = None -> buffer_inv cfg s')
  | Crash s' => st_buffer_size s <= st_buffer_size s'
  | Diverge => True
  end
  /\ forall n,
       match do_comm_loop cfg fuel n s with
       | Ret _ s' | Crash s' => st_buffer_size s <= st_buffer_size s'
       | Diverge => True
       end.
Proof.
  intros Hinv. split.
  - apply serve_one_grows. exact Hinv.
  - intros n. apply do_comm_loop_grows. exact Hinv.
Qed.

End Handlers.

(* ================================================================= *)
(** ** Requests larger than the buffer *)

Section Oversize.

Context {W E : Type} {BK : Backing W} {HO : Host E}.

Variable cfg : config.

Implicit Type s : state W E.



End Oversize.

(* ================================================================= *)
(** ** The samples meet the assumptions *)

Lemma sample_vhd_config : vhd_config sample_cfg.
Proof. constructor; cbn; try lia; reflexivity. Qed.

Lemma img_sparse_ok : image_ok sample_cfg img_sparse.
Proof.
  constructor.
  - vm_compute. discriminate.
  - reflexivity.
  - intros k Hk Hs. exfalso.
    change (bat_entries sample_cfg) with 8 in Hk.
    assert (Hc : k = 0 \/ k = 1 \/ k = 2 \/ k = 3 \/ k = 4 \/ k = 5 \/ k = 6 \/ k = 7)
      by lia.
    destruct Hc as [Hc|[Hc|[Hc|[Hc|[Hc|[Hc|[Hc|Hc]]]]]]]; subst k;
      vm_compute in Hs; discriminate Hs.
  - vm_compute. reflexivity.
  - vm_compute. discriminate.
Qed.

Lemma image_pread_bounded : @pread_bounded image image_backing.
Proof.
  intros w n o d H. cbn in H. unfold image_pread in H.
  destruct (o <? 0); [discriminate|]. inversion H; subst.
  unfold image_bytes. rewrite length_map, length_seq. lia.
Qed.

Lemma script_host_ok (cfg : config) :
  0 <= IMDPROXY_HEADER_SIZE cfg <= 2 ^ 62 -> @host_ok script script_host cfg.
Proof.
  intros Hh. split; [|split; [|exact Hh]].
  - intros n e d e' H. cbn in H. unfold script_safe_read in H.
    destruct (Z.of_nat (length (rx e)) <? n); [discriminate|].
    inversion H; subst. rewrite length_firstn. lia.
  - intros n e r e' H. cbn in H. discriminate H.
Qed.

(* ================================================================= *)
(** ** [vhd_write]: failures *)

Section Sentinel.

Context {W E : Type} {BK : Backing W} {HO : Host E}.

Variable cfg : config.

Implicit Type s : state W E.

(** C6, as amended: [vhd_write] returns for every size below 2^63; the
    store is left as the issued writes made it, none of them is undone;
    and if a write of a BAT entry, of a new block with the footer, or of
    the bitmap transferred another count than its size, or the write of
    the data returned -1, the result is -1 with [errno] as that call
    left it ([E2BIG] when the call left 0).  Nothing is said of a data
    write that transfers fewer bytes without returning -1. *)
Theorem vhd_write_failure_sentinel io size offset s :
  vhd_config cfg ->
  0 <= size < 2 ^ 63 ->
  exists r s' evs,
    vhd_write cfg io size offset s = Some (r, s')
    /\ st_trace s' = st_trace s ++ evs
    /\ st_world s' = replay (st_world s) evs
    /\ forall ev, In ev evs -> checked_failure ev = true ->
         r = -1 /\ st_errno s' = carried_errno ev.
Proof.
  intros VC Hsz.
  destruct (vhd_write_total cfg VC io size offset s Hsz) as (r & s' & Hrun).
  exists r, s'.
  pose proof Hrun as Hev. unfold vhd_write in Hev.
  apply (vhd_write_rec_events cfg) in Hev.
  - destruct Hev as (evs & Ht & Hw & _ & Hf). exists evs. auto.
  - destruct VC; auto.
  - apply (vc_new_block cfg VC).
Qed.

End Sentinel.

(** An instance: a write into the sparse block 6 of [img_sparse] on a
    store that moves at most 1024 bytes per call. *)
Lemma vhd_write_failure_sentinel_witness :
  exists r s' evs,
    vhd_write sample_cfg (repeat 7 512) 512 (6 * 2097152)
      (session (mkLimited img_sparse 1024) [] 1024 (zeros 1024)) = Some (r, s')
    /\ st_trace s'
       = st_trace (session (mkLimited img_sparse 1024) [] 1024 (zeros 1024)) ++ evs
    /\ st_world s'
       = replay (st_world (session (mkLimited img_sparse 1024) [] 1024 (zeros 1024))) evs
    /\ forall ev, In ev evs -> checked_failure ev = true ->
         r = -1 /\ st_errno s' = carried_errno ev.
Proof.
  apply (vhd_write_failure_sentinel sample_cfg (repeat 7 512) 512 (6 * 2097152)
           (session (mkLimited img_sparse 1024) [] 1024 (zeros 1024))).
  - constructor; cbn; try lia; reflexivity.
  - lia.
Defined.

(** C6, against the claim: on a store that moves at most 256 bytes per
    call, a write of 512 bytes into the allocated block 0 transfers 256
    bytes of data; [vhd_write] returns 256, not -1, and goes on to
    update the bitmap. *)
Lemma vhd_write_short_data_write_counted :
  write_calls
    (vhd_write sample_cfg (repeat 7 512) 512 0
       (session (mkLimited img_block0 256) [] 1024 (zeros 1024)))
  = Some (256, [(BatEntry, 1536, 4, 4); (Data, 2560, 512, 256); (Bitmap, 2048, 1, 1)]).
Proof. vm_compute; reflexivity. Qed.

(* ================================================================= *)
(** ** [vhd_write]: the footer, on samples *)

(** C4, against the claim: on a store that moves at most 1024 bytes per
    call, allocating block 6 of [img_sparse] overwrites the footer at
    2048 with the first 1024 zero bytes of the new block and stops
    there with -1: the file has 3072 bytes and its last 512 bytes are
    no longer the footer. *)
Lemma vhd_write_short_new_block_loses_footer :
  ends_with_footer img_sparse sample_footer = true
  /\ footer_report sample_footer
       (vhd_write sample_cfg (repeat 7 512) 512 (6 * 2097152)
          (session (mkLimited img_sparse 1024) [] 1024 (zeros 1024)))
     = Some (-1,
             [(BatEntry, 1560, 4, 4); (NewBlock, 0, 0, 2048);
              (BatEntry, 1560, 4, 4); (NewBlock, 2048, 2098176, 1024)],
             3072, false, E2BIG).
Proof. split; vm_compute; reflexivity. Qed.

(** An instance: a write of 512 bytes into the sparse block 6 of
    [img_sparse]. *)
Lemma footer_preserved_witness :
  exists s' evs,
    run_writes sample_cfg [(repeat 7 512, 512, 6 * 2097152)]
      (session img_sparse [] 1024 (zeros 1024)) = Some s'
    /\ st_trace s' = st_trace (session img_sparse [] 1024 (zeros 1024)) ++ evs
    /\ Forall (new_block_shape sample_cfg) evs
    /\ flen (st_world (session img_sparse [] 1024 (zeros 1024))) <= flen (st_world s')
    /\ (flen (st_world s') <= 2 ^ 41 ->
        image_bytes (st_world s') (flen (st_world s') - 512) 512
        = vhd_Footer sample_cfg).
Proof.
  apply (footer_preserved sample_cfg [(repeat 7 512, 512, 6 * 2097152)]
           (session img_sparse [] 1024 (zeros 1024))).
  - exact sample_vhd_config.
  - exact img_sparse_ok.
  - constructor; [|constructor]. unfold addresses_device. lia.
Defined.

(** C2, against the claim: a READ of 512 bytes at offset 0 of a raw
    image of 100 bytes.  [logical_read] transfers 100 bytes; the
    response has [errorno = 0] and [length = 512]. *)
Lemma read_data_short_read_reported_full :
  handler_report (read_data raw_cfg 0 short_read_session)
  = Some (1, [resp_block 0 512; image_bytes img_raw 0 100 ++ zeros 412],
          [(Data, 0, 512, 100)], ["Partial read"%string]).
Proof. vm_compute; reflexivity. Qed.

(** An instance: the same READ. *)
Lemma read_data_reports_clipped_size_witness :
  512 = Z.min 512 (st_buffer_size short_read_prepared)
  /\ (st_sent short_read_final = st_sent short_read_session ++ [resp_block 0 512]
      \/ st_sent short_read_final
         = st_sent short_read_session
             ++ [resp_block 0 512; firstn (Z.to_nat 512) short_read_region]).
Proof.
  apply (read_data_reports_clipped_size raw_cfg 0%nat short_read_session 0 512 512
           short_read_prepared 100 short_read_region short_read_done 1
           short_read_final).
  - vm_compute; reflexivity.
  - vm_compute; reflexivity.
  - lia.
  - vm_compute; reflexivity.
Defined.

(** C10, against the claim: a READ of 1024 bytes across the boundary of
    blocks 0 and 1, on a store that moves at most 256 bytes per call.
    Each part transfers 256 of its 512 bytes and [logical_read] returns
    512; the second part lies at position 512 of the payload, so the
    payload byte at position 512, beyond the count, is 225. *)
Lemma read_data_short_parts_leave_gap :
  read_count
    (vhd_read sample_cfg (zeros 2048) 1024 2096640
       (session (mkLimited img_two_blocks 256) [] 2048 (zeros 2048)))
  = Some 512
  /\ handler_report
       (read_data sample_cfg 0
          (session (mkLimited img_two_blocks 256) (request_header 2096640 1024)
             2048 (zeros 2048)))
     = Some (1,
             [resp_block 0 1024;
              image_bytes img_two_blocks 2099200 256 ++ zeros 256
                ++ image_bytes img_two_blocks 2100224 256 ++ zeros 256],
             [(BatEntry, 1536, 4, 4); (Data, 2099200, 512, 256);
              (Data, 2099200, 512, 256); (BatEntry, 1540, 4, 4);
              (Data, 2100224, 512, 256); (Data, 2100224, 512, 256)],
             ["Partial read"%string])
  /\ nth 512 (image_bytes img_two_blocks 2099200 256 ++ zeros 256
                ++ image_bytes img_two_blocks 2100224 256 ++ zeros 256) 0 = 225.
Proof. split; [|split]; vm_compute; reflexivity. Qed.

(** An instance: the READ of 512 bytes of the raw image of 100 bytes;
    the payload is zero from position 100 on. *)
Lemma read_data_zero_padding_witness :
  let payload := firstn (Z.to_nat 512) short_read_region in
  (st_sent short_read_final = st_sent short_read_session ++ [resp_block 0 512]
   \/ st_sent short_read_final
      = st_sent short_read_session ++ [resp_block 0 512; payload])
  /\ zero_between (st_buf short_read_prepared) 0 512
  /\ forall p, 100 <= p < 512 -> nth (Z.to_nat p) payload 0 = 0.
Proof.
  apply (read_data_zero_padding raw_cfg 0%nat short_read_session 0 512 512
           short_read_prepared 100 short_read_region short_read_done 1
           short_read_final).
  - vm_compute; reflexivity.
  - vm_compute; reflexivity.
  - lia.
  - vm_compute; reflexivity.
  - lia.
  - left; reflexivity.
Defined.

(* ================================================================= *)
(** ** Sessions on samples *)


(** The same WRITE: the response is [EBADF] with length 0, the store
    sees no call. *)
Example write_data_read_only_reply :
  handler_report (write_data ro_cfg 0 write_session)
  = Some (1, [resp_block EBADF 0], [],
          ["Device write attempt on read-only device."%string]).
Proof. vm_compute; reflexivity. Qed.


(** As a READ it is served in full after the buffer has grown to 4096
    bytes; as a WRITE it is refused and nothing is sent. *)
Example oversize_read_served :
  handler_report (read_data raw_cfg 0 oversize_session)
  = Some (1, [resp_block 0 4096; image_bytes img_raw 0 100 ++ zeros 3996],
          [(Data, 0, 4096, 100)], ["Partial read"%string])
  /\ st_buffer_size (state_of oversize_session (read_data raw_cfg 0 oversize_session))
     = 4096.
Proof. split; vm_compute; reflexivity. Qed.

Example oversize_write_refused :
  handler_report (write_data raw_cfg 0 oversize_session)
  = Some (0, [], [], ["Too big block write requested"%string]).
Proof. vm_compute; reflexivity. Qed.

(** An instance: a session of three requests. *)
Lemma buffer_size_never_shrinks_witness :
  match serve_one sample_cfg 1 three_requests with
  | Ret x s' =>
      st_buffer_size three_requests <= st_buffer_size s'
      /\ (x = None -> buffer_inv sample_cfg s')
  | Crash s' => st_buffer_size three_requests <= st_buffer_size s'
  | Diverge => True
  end
  /\ forall n,
       match do_comm_loop sample_cfg 1 n three_requests with
       | Ret _ s' | Crash s' => st_buffer_size three_requests <= st_buffer_size s'
       | Diverge => True
       end.
Proof.
  apply (buffer_size_never_shrinks sample_cfg).
  - apply script_host_ok. vm_compute. split; discriminate.
  - exact image_pread_bounded.
  - intros _. exact sample_vhd_config.
  - unfold buffer_inv. vm_compute. repeat split; discriminate.
Defined.

(** In that session the buffer grows from 1024 to 4096 bytes and stays
    there. *)
Example buffer_grows_on_demand :
  st_buffer_size three_requests = 1024
  /\ st_buffer_size (state_of three_requests (do_comm_loop sample_cfg 1 3 three_requests))
     = 4096
  /\ value_of None (do_comm_loop sample_cfg 1 3 three_requests) = None.
Proof. split; [|split]; vm_compute; reflexivity. Qed.

(* ================================================================= *)
(** ** The little-endian and big-endian readers, by value *)

(** [a | b] adds up when [b] fits below the bits of [a]. *)
Lemma lor_disjoint_add a b k :
  0 <= k -> 0 <= b < 2 ^ k -> Z.lor (a * 2 ^ k) b = a * 2 ^ k + b.
Proof.
  intros Hk Hb.
  assert (Hland : Z.land (a * 2 ^ k) b = 0).
  { apply Z.bits_inj'. intros n Hn. rewrite Z.land_spec, Z.bits_0.
    destruct (Z.lt_ge_cases n k) as [Hlt|Hge].
    - rewrite Z.mul_pow2_bits_low by lia. reflexivity.
    - assert (Hbn : Z.testbit b n = false).
      { destruct (Z.eq_dec b 0) as [->|Hb0]; [apply Z.bits_0|].
        apply Z.bits_above_log2; [lia|].
        apply Z.log2_lt_pow2; [lia|].
        apply Z.lt_le_trans with (2 ^ k); [lia|].
        apply Z.pow_le_mono_r; lia. }
      rewrite Hbn. apply andb_false_r. }
  rewrite <- Z.lxor_lor by exact Hland.
  symmetry. apply Z.add_nocarry_lxor. exact Hland.
Qed.

Lemma lor_add_shifted a b k :
  0 <= k -> 0 <= a < 2 ^ k -> Z.lor a (b * 2 ^ k) = a + b * 2 ^ k.
Proof.
  intros Hk Ha. rewrite Z.lor_comm, lor_disjoint_add by assumption. lia.
Qed.

(** X1: [GetLittleEndian32U] on four bytes is their little-endian
    value, [b0 + b1 * 2^8 + b2 * 2^16 + b3 * 2^24], and lies in
    [0, 2^32). *)
Theorem GetLittleEndian32U_value b0 b1 b2 b3 :
  0 <= b0 < 256 -> 0 <= b1 < 256 -> 0 <= b2 < 256 -> 0 <= b3 < 256 ->
  GetLittleEndian32U [b0; b1; b2; b3] = b0 + b1 * 2 ^ 8 + b2 * 2 ^ 16 + b3 * 2 ^ 24
  /\ 0 <= GetLittleEndian32U [b0; b1; b2; b3] < 2 ^ 32.
Proof.
  intros H0 H1 H2 H3.
  assert (Hv : GetLittleEndian32U [b0; b1; b2; b3]
               = b0 + b1 * 2 ^ 8 + b2 * 2 ^ 16 + b3 * 2 ^ 24).
  { unfold GetLittleEndian32U. cbn [GetLittleEndian32U_loop].
    change (Z.to_nat 0) with 0%nat. change (Z.to_nat (0 + 1)) with 1%nat.
    change (Z.to_nat (0 + 1 + 1)) with 2%nat.
    change (Z.to_nat (0 + 1 + 1 + 1)) with 3%nat.
    cbn [nth].
    change (Z.shiftl 0 3) with 0. change (Z.shiftl (0 + 1) 3) with 8.
    change (Z.shiftl (0 + 1 + 1) 3) with 16.
    change (Z.shiftl (0 + 1 + 1 + 1) 3) with 24.
    rewrite !Z.shiftl_mul_pow2 by lia.
    rewrite (u32_small b0), (u32_small b1), (u32_small b2), (u32_small b3) by lia.
    rewrite !u32_small by lia.
    rewrite Z.lor_0_l. change (2 ^ 0) with 1. rewrite Z.mul_1_r.
    rewrite (lor_add_shifted b0 b1 8) by lia.
    rewrite (lor_add_shifted (b0 + b1 * 2 ^ 8) b2 16) by lia.
    rewrite (lor_add_shifted (b0 + b1 * 2 ^ 8 + b2 * 2 ^ 16) b3 24) by lia.
    reflexivity. }
  rewrite Hv. lia.
Qed.

(** An instance: the bytes [FF 80 00 C8]. *)
Lemma GetLittleEndian32U_value_witness :
  GetLittleEndian32U [255; 128; 0; 200] = 255 + 128 * 2 ^ 8 + 0 * 2 ^ 16 + 200 * 2 ^ 24
  /\ 0 <= GetLittleEndian32U [255; 128; 0; 200] < 2 ^ 32.
Proof. apply GetLittleEndian32U_value; lia. Defined.

Lemma lor_multiple acc b k q :
  acc = q * 2 ^ k -> 0 <= k -> 0 <= b < 2 ^ k -> Z.lor acc b = acc + b.
Proof. intros -> Hk Hb. apply lor_disjoint_add; assumption. Qed.

(** One term of the loop of [GetBigEndian64]: byte [b] at shift [k]. *)
Lemma be64_term b k :
  0 <= b < 256 -> 0 <= k <= 56 ->
  s64 (Z.shiftl (s64 (int8 b)) k) = int8 b * 2 ^ k
  /\ (s64 (Z.shiftl (s64 (int8 b)) k) < 0 <-> 128 <= b).
Proof.
  intros Hb Hk.
  assert (Hi : -128 <= int8 b < 128 /\ (int8 b < 0 <-> 128 <= b)).
  { unfold int8. destruct (Z.ltb_spec b 128); lia. }
  destruct Hi as [Hi Hneg].
  rewrite (s64_small (int8 b)) by lia.
  rewrite Z.shiftl_mul_pow2 by lia.
  assert (Hp : 0 < 2 ^ k <= 2 ^ 56).
  { split; [apply Z.pow_pos_nonneg; lia|apply Z.pow_le_mono_r; lia]. }
  rewrite s64_small by nia.
  split; [reflexivity|]. rewrite <- Hneg. nia.
Qed.

(** X2: [GetBigEndian64] on eight bytes held as [char].  When the
    seven bytes after the first are below 128, the result is the
    big-endian value of the bytes as a signed 64-bit number; and the
    result is negative exactly when one of the eight bytes is 128 or
    more. *)
Theorem GetBigEndian64_small_bytes b0 b1 b2 b3 b4 b5 b6 b7 :
  0 <= b0 < 256 -> 0 <= b1 < 256 -> 0 <= b2 < 256 -> 0 <= b3 < 256 ->
  0 <= b4 < 256 -> 0 <= b5 < 256 -> 0 <= b6 < 256 -> 0 <= b7 < 256 ->
  let b := [b0; b1; b2; b3; b4; b5; b6; b7] in
  (b1 < 128 -> b2 < 128 -> b3 < 128 -> b4 < 128 -> b5 < 128 -> b6 < 128 ->
   b7 < 128 -> GetBigEndian64 (map int8 b) = s64 (big_endian_sum b))
  /\ (GetBigEndian64 (map int8 b) < 0 <-> Exists (fun x => 128 <= x) b).
Proof.
  intros H0 H1 H2 H3 H4 H5 H6 H7 b.
  assert (Hg : GetBigEndian64 (map int8 b)
    = Z.lor (Z.lor (Z.lor (Z.lor (Z.lor (Z.lor (Z.lor (Z.lor 0
        (s64 (Z.shiftl (s64 (int8 b0)) 56)))
        (s64 (Z.shiftl (s64 (int8 b1)) 48)))
        (s64 (Z.shiftl (s64 (int8 b2)) 40)))
        (s64 (Z.shiftl (s64 (int8 b3)) 32)))
        (s64 (Z.shiftl (s64 (int8 b4)) 24)))
        (s64 (Z.shiftl (s64 (int8 b5)) 16)))
        (s64 (Z.shiftl (s64 (int8 b6)) 8)))
        (s64 (Z.shiftl (s64 (int8 b7)) 0))) by reflexivity.
  destruct (be64_term b0 56 H0 ltac:(lia)) as [E0 N0].
  destruct (be64_term b1 48 H1 ltac:(lia)) as [E1 N1].
  destruct (be64_term b2 40 H2 ltac:(lia)) as [E2 N2].
  destruct (be64_term b3 32 H3 ltac:(lia)) as [E3 N3].
  destruct (be64_term b4 24 H4 ltac:(lia)) as [E4 N4].
  destruct (be64_term b5 16 H5 ltac:(lia)) as [E5 N5].
  destruct (be64_term b6 8 H6 ltac:(lia)) as [E6 N6].
  destruct (be64_term b7 0 H7 ltac:(lia)) as [E7 N7].
  split.
  - intros L1 L2 L3 L4 L5 L6 L7. rewrite Hg.
    rewrite E0, E1, E2, E3, E4, E5, E6, E7. rewrite Z.lor_0_l.
    assert (I1 : int8 b1 = b1) by (unfold int8; destruct (Z.ltb_spec b1 128); lia).
    assert (I2 : int8 b2 = b2) by (unfold int8; destruct (Z.ltb_spec b2 128); lia).
    assert (I3 : int8 b3 = b3) by (unfold int8; destruct (Z.ltb_spec b3 128); lia).
    assert (I4 : int8 b4 = b4) by (unfold int8; destruct (Z.ltb_spec b4 128); lia).
    assert (I5 : int8 b5 = b5) by (unfold int8; destruct (Z.ltb_spec b5 128); lia).
    assert (I6 : int8 b6 = b6) by (unfold int8; destruct (Z.ltb_spec b6 128); lia).
    assert (I7 : int8 b7 = b7) by (unfold int8; destruct (Z.ltb_spec b7 128); lia).
    rewrite I1, I2, I3, I4, I5, I6, I7.
    set (a := int8 b0).
    assert (Ha : a = b0 \/ a = b0 - 256)
      by (unfold a, int8; destruct (Z.ltb_spec b0 128); lia).
    assert (Har : -128 <= a < 128)
      by (unfold a, int8; destruct (Z.ltb_spec b0 128); lia).
    rewrite (lor_multiple (a * 2 ^ 56) (b1 * 2 ^ 48) 56 (a)) by (try ring; lia).
    rewrite (lor_multiple _ (b2 * 2 ^ 40) 48 (a * 2 ^ 8 + b1)) by (try ring; lia).
    rewrite (lor_multiple _ (b3 * 2 ^ 32) 40 ((a * 2 ^ 8 + b1) * 2 ^ 8 + b2))
      by (try ring; lia).
    rewrite (lor_multiple _ (b4 * 2 ^ 24) 32
               (((a * 2 ^ 8 + b1) * 2 ^ 8 + b2) * 2 ^ 8 + b3)) by (try ring; lia).
    rewrite (lor_multiple _ (b5 * 2 ^ 16) 24
               ((((a * 2 ^ 8 + b1) * 2 ^ 8 + b2) * 2 ^ 8 + b3) * 2 ^ 8 + b4))
      by (try ring; lia).
    rewrite (lor_multiple _ (b6 * 2 ^ 8) 16
               (((((a * 2 ^ 8 + b1) * 2 ^ 8 + b2) * 2 ^ 8 + b3) * 2 ^ 8 + b4) * 2 ^ 8 + b5))
      by (try ring; lia).
    rewrite (lor_multiple _ (b7 * 2 ^ 0) 8
               ((((((a * 2 ^ 8 + b1) * 2 ^ 8 + b2) * 2 ^ 8 + b3) * 2 ^ 8 + b4) * 2 ^ 8 + b5)
                * 2 ^ 8 + b6)) by (try ring; lia).
    unfold b. cbn [big_endian_sum length].
    change (8 * Z.of_nat 7) with 56. change (8 * Z.of_nat 6) with 48.
    change (8 * Z.of_nat 5) with 40. change (8 * Z.of_nat 4) with 32.
    change (8 * Z.of_nat 3) with 24. change (8 * Z.of_nat 2) with 16.
    change (8 * Z.of_nat 1) with 8. change (8 * Z.of_nat 0) with 0.
    destruct Ha as [Ha|Ha]; rewrite Ha.
    + rewrite s64_small; [ring|]. unfold a, int8 in Ha.
      destruct (Z.ltb_spec b0 128); lia.
    + unfold s64. 
      replace (b0 * 2 ^ 56 + (b1 * 2 ^ 48 + (b2 * 2 ^ 40 + (b3 * 2 ^ 32
                + (b4 * 2 ^ 24 + (b5 * 2 ^ 16 + (b6 * 2 ^ 8 + (b7 * 2 ^ 0 + 0)))))))
               + 2 ^ 63)
        with ((b0 - 256) * 2 ^ 56 + b1 * 2 ^ 48 + b2 * 2 ^ 40 + b3 * 2 ^ 32
              + b4 * 2 ^ 24 + b5 * 2 ^ 16 + b6 * 2 ^ 8 + b7 * 2 ^ 0 + 2 ^ 63
              + 1 * 2 ^ 64) by ring.
      rewrite Z_mod_plus_full. rewrite Z.mod_small; [ring|].
      unfold a, int8 in Ha. destruct (Z.ltb_spec b0 128); lia.
  - rewrite Hg. rewrite !Z.lor_neg.
    unfold b. rewrite !Exists_cons, Exists_nil.
    rewrite N0, N1, N2, N3, N4, N5, N6, N7. lia.
Qed.

(* ================================================================= *)
(** ** [main]: shifts, size arguments and the VHD autodetection *)

Lemma find_shift_loop_spec x : forall fuel shift,
  0 <= shift -> shift + Z.of_nat fuel = 64 ->
  let r := find_shift_loop x shift fuel in
  shift <= r <= 64
  /\ (r < 64 -> x = 2 ^ r)
  /\ (forall j, shift <= j < r -> x <> 2 ^ j).
Proof.
  induction fuel as [|fuel IH]; intros shift Hs Hf; cbn [find_shift_loop].
  - assert (shift = 64) by lia. subst shift. cbn. repeat split; lia.
  - destruct (Z.ltb_spec shift 64) as [Hlt|Hge]; cbn [andb].
    2: { lia. }
    assert (Hp : u64 (Z.shiftl 1 shift) = 2 ^ shift).
    { rewrite Z.shiftl_mul_pow2, Z.mul_1_l by lia. apply u64_small.
      split; [apply Z.pow_nonneg; lia|apply Z.pow_lt_mono_r; lia]. }
    rewrite Hp.
    destruct (Z.eqb_spec (2 ^ shift) x) as [He|Hne]; cbn [negb].
    + repeat split; try lia.
    + destruct (IH (shift + 1)) as (H1 & H2 & H3); [lia|lia|].
      repeat split; try lia; auto.
      intros j Hj. destruct (Z.eq_dec j shift) as [->|Hd]; [congruence|].
      apply H3. lia.
Qed.

(** X3: the loops of [main] that compute [block_shift] and
    [sector_shift].  The result lies between 0 and 64; it is below 64
    only for a power of two, and is then its exponent; for any other
    value, 0 included, it is 64. *)
Theorem find_shift_power_of_two x :
  0 <= find_shift x <= 64
  /\ (find_shift x < 64 -> x = 2 ^ find_shift x)
  /\ (forall k, 0 <= k < 64 -> x = 2 ^ k -> find_shift x = k)
  /\ ((forall k, 0 <= k < 64 -> x <> 2 ^ k) -> find_shift x = 64).
Proof.
  destruct (find_shift_loop_spec x 64 0) as (H1 & H2 & H3); [lia|reflexivity|].
  fold (find_shift x) in H1, H2, H3.
  split; [lia|]. split; [exact H2|]. split.
  - intros k Hk Hx.
    destruct (Z.lt_trichotomy (find_shift x) k) as [Hlt|[Heq|Hgt]].
    + specialize (H2 ltac:(lia)). rewrite H2 in Hx.
      apply Z.pow_inj_r in Hx; lia.
    + exact Heq.
    + exfalso. apply (H3 k); [lia|exact Hx].
  - intros Hn. destruct (Z.eq_dec (find_shift x) 64) as [He|Hd]; [exact He|].
    exfalso. apply (Hn (find_shift x)); [lia|]. apply H2. lia.
Qed.

Lemma u64_shl10 v n :
  0 <= n -> u64 (Z.shiftl (u64 (v * 2 ^ n)) 10) = u64 (v * 2 ^ (n + 10)).
Proof.
  intros Hn. unfold u64. rewrite Z.shiftl_mul_pow2 by lia.
  rewrite Z.mul_mod_idemp_l by lia. f_equal. rewrite Z.pow_add_r by lia. ring.
Qed.

Lemma u64_mul1000 v n m :
  u64 (u64 (v * n) * m) = u64 (v * (n * m)).
Proof.
  unfold u64. rewrite Z.mul_mod_idemp_l by lia. f_equal. ring.
Qed.

(** X4: the size suffixes of [main] on an unsigned 64-bit variable.
    [K], [M], [G], [T] multiply by 2^10, 2^20, 2^30, 2^40 and [k], [m],
    [g], [t] by 10^3, 10^6, 10^9, 10^12, modulo 2^64; [B] and [b] leave
    the value; any other suffix leaves the value as well and is logged
    as unsupported. *)
Theorem size_suffix_factor v :
  size_suffix u64 v "K" = (u64 (v * 2 ^ 10), false)
  /\ size_suffix u64 v "M" = (u64 (v * 2 ^ 20), false)
  /\ size_suffix u64 v "G" = (u64 (v * 2 ^ 30), false)
  /\ size_suffix u64 v "T" = (u64 (v * 2 ^ 40), false)
  /\ size_suffix u64 v "k" = (u64 (v * 10 ^ 3), false)
  /\ size_suffix u64 v "m" = (u64 (v * 10 ^ 6), false)
  /\ size_suffix u64 v "g" = (u64 (v * 10 ^ 9), false)
  /\ size_suffix u64 v "t" = (u64 (v * 10 ^ 12), false)
  /\ size_suffix u64 v "B" = (v, false)
  /\ size_suffix u64 v "b" = (v, false)
  /\ forall suf, In suf (list_ascii_of_string "TGMKBtgmkb") \/ size_suffix u64 v suf = (v, true).
Proof.
  assert (H0 : u64 (Z.shiftl v 10) = u64 (v * 2 ^ 10))
    by (rewrite Z.shiftl_mul_pow2 by lia; reflexivity).
  assert (H1 : u64 (v * 1000) = u64 (v * 10 ^ 3)) by reflexivity.
  unfold size_suffix. cbn [Ascii.eqb Bool.eqb]. cbv iota.
  repeat split.
  - exact (f_equal (fun x => (x, false)) H0).
  - rewrite H0, u64_shl10 by lia. reflexivity.
  - rewrite H0, !u64_shl10 by lia. reflexivity.
  - rewrite H0, !u64_shl10 by lia. reflexivity.
  - rewrite H1, !u64_mul1000. reflexivity.
  - rewrite H1, !u64_mul1000. reflexivity.
  - rewrite H1, !u64_mul1000. reflexivity.
  - intros suf.
    destruct (Ascii.eqb_spec suf "T"); [left; subst; cbn; tauto|].
    destruct (Ascii.eqb_spec suf "G"); [left; subst; cbn; tauto|].
    destruct (Ascii.eqb_spec suf "M"); [left; subst; cbn; tauto|].
    destruct (Ascii.eqb_spec suf "K"); [left; subst; cbn; tauto|].
    destruct (Ascii.eqb_spec suf "B"); [left; subst; cbn; tauto|].
    destruct (Ascii.eqb_spec suf "t"); [left; subst; cbn; tauto|].
    destruct (Ascii.eqb_spec suf "g"); [left; subst; cbn; tauto|].
    destruct (Ascii.eqb_spec suf "m"); [left; subst; cbn; tauto|].
    destruct (Ascii.eqb_spec suf "k"); [left; subst; cbn; tauto|].
    destruct (Ascii.eqb_spec suf "b"); [left; subst; cbn; tauto|].
    right. reflexivity.
Qed.

Lemma find_shift_pow2 k : 0 <= k < 64 -> find_shift (2 ^ k) = k.
Proof.
  intros Hk.
  destruct (find_shift_loop_spec (2 ^ k) 64 0) as (H1 & H2 & H3); [lia|reflexivity|].
  fold (find_shift (2 ^ k)) in H1, H2, H3.
  destruct (Z.lt_trichotomy (find_shift (2 ^ k)) k) as [Hlt|[Heq|Hgt]].
  - specialize (H2 ltac:(lia)). apply Z.pow_inj_r in H2; lia.
  - exact Heq.
  - exfalso. apply (H3 k); [lia|reflexivity].
Qed.

(** X5: the third argument of [main], as [sscanf] read it.  A number
    with a suffix is the size in bytes; a number below 512 alone is the
    partition number and leaves the size; a number of 512 or more alone
    is a count of sectors of 512 bytes, taken modulo 2^64; when nothing
    was read the partition number is 0 and the size is left. *)
Theorem size_argument_meaning argc sc file_size :
  3 < argc -> 0 <= sc_value sc < 2 ^ 64 ->
  (sc_count sc = 1 -> sc_value sc < 512 ->
   size_argument argc sc file_size = (sc_value sc, file_size, false))
  /\ (sc_count sc = 1 -> 512 <= sc_value sc ->
      size_argument argc sc file_size = (0, u64 (sc_value sc * 512), false))
  /\ (sc_count sc = 2 ->
      size_argument argc sc file_size
      = (0, fst (size_suffix u64 (sc_value sc) (sc_suf sc)),
         snd (size_suffix u64 (sc_value sc) (sc_suf sc))))
  /\ (sc_count sc <= 0 -> size_argument argc sc file_size = (0, file_size, false)).
Proof.
  intros Ha Hv. unfold size_argument.
  destruct (Z.ltb_spec 3 argc) as [_|?]; [|lia].
  repeat split.
  - intros Hc Hs. rewrite Hc.
    change (1 <=? 1) with true. change (1 =? 2) with false. cbv iota.
    rewrite u64_small by lia.
    destruct (Z.ltb_spec (sc_value sc) 512); [|lia].
    assert (Hs32 : s32 (sc_value sc) = sc_value sc)
      by (unfold s32; rewrite Z.mod_small by lia; lia).
    rewrite Hs32. reflexivity.
  - intros Hc Hs. rewrite Hc.
    change (1 <=? 1) with true. change (1 =? 2) with false. cbv iota.
    rewrite u64_small by lia.
    destruct (Z.ltb_spec (sc_value sc) 512); [lia|].
    rewrite Z.shiftl_mul_pow2 by lia. reflexivity.
  - intros Hc. rewrite Hc.
    change (1 <=? 2) with true. change (2 =? 2) with true. cbv iota.
    rewrite u64_small by lia.
    destruct (size_suffix u64 (sc_value sc) (sc_suf sc)); reflexivity.
  - intros Hc.
    destruct (Z.leb_spec 1 (sc_count sc)); [lia|].
    destruct (Z.eqb_spec (sc_count sc) 2); [lia|].
    reflexivity.
Qed.

Lemma store_at_full io d :
  length d = length io -> store_at io d = d.
Proof.
  intros H. unfold store_at. rewrite H, skipn_all. apply app_nil_r.
Qed.

Section Detect.
Context {W E : Type} {BK : Backing W} {HO : Host E}.
Implicit Type s : state W E.

(** X6: the VHD autodetection of [main].  When the first 1536 bytes
    are read in full and show the cookies [conectix] and [cxsparse] and
    the disk type of a dynamic disk, the second buffer is allocated,
    the block size is 2^k with 9 <= k <= 31 and the two sizes are below
    2^62, then [main] goes on in VHD mode with [block_size],
    [block_shift], [current_size], [table_offset] and the file size
    taken from the header and the footer, and with the footer saved;
    the image was only read. *)
Theorem detect_vhd_config cfg s d s1 g h k :
  physical_read Data 1536 0 s = (1536, d, s1) ->
  is_dynamic_vhd 1536 d = true ->
  malloc (st_buffer_size s1) (st_host s1) = (Some g, h) ->
  ntohl_bytes (field d 544 4) = 2 ^ k -> 9 <= k <= 31 ->
  0 <= GetBigEndian64 (map int8 (field d 48 8)) < 2 ^ 62 ->
  0 <= GetBigEndian64 (map int8 (field d 528 8)) < 2 ^ 62 ->
  exists cfg' s',
    detect_vhd true cfg s = (inr cfg', s')
    /\ vhd_config cfg'
    /\ vhd_mode cfg' = true
    /\ block_size cfg' = 2 ^ k /\ block_shift cfg' = k
    /\ current_size cfg' = GetBigEndian64 (map int8 (field d 48 8))
    /\ table_offset cfg' = GetBigEndian64 (map int8 (field d 528 8))
    /\ devio_info_file_size cfg' = current_size cfg'
    /\ vhd_Footer cfg' = firstn 512 d
    /\ st_world s' = st_world s
    /\ st_buf2 s' = Some (st_buffer_size s).
Proof.
  intros Hr Hd Hm Hb Hk Hc Ht.
  pose proof (physical_read_result _ _ _ _ _ _ _ Hr) as (Hw & Hlen).
  destruct Hlen as [Hlen|Hlen]; [discriminate Hlen|].
  assert (Hl : length d = 1536%nat) by lia.
  assert (Hbs : st_buffer_size s1 = st_buffer_size s).
  { unfold physical_read in Hr. destruct (bk_pread _ _ _); inversion Hr; reflexivity. }
  unfold detect_vhd. rewrite Hr.
  rewrite (store_at_full (repeat 0 1536) d) by (rewrite repeat_length; exact Hl).
  rewrite Hd. cbn [andb]. rewrite Hm.
  eexists. eexists. split; [reflexivity|].
  cbn [vhd_mode block_size block_shift current_size table_offset
       devio_info_file_size vhd_Footer sector_size sector_shift].
  rewrite Hb, (find_shift_pow2 k) by lia.
  split.
  { constructor;
      cbn [vhd_mode block_size block_shift current_size table_offset
           devio_info_file_size vhd_Footer sector_size sector_shift]; try lia; try reflexivity.
    rewrite length_firstn. lia. }
  repeat split; try reflexivity.
  - apply u64_small. lia.
  - cbn. exact Hw.
  - cbn. rewrite Hbs. reflexivity.
Qed.

End Detect.

(* ================================================================= *)
(** ** [main]: the partition selection *)

Section ReadsOnly.
Context {W E : Type} {BK : Backing W} {HO : Host E}.
Variable cfg : config.
Implicit Type s : state W E.

Lemma physical_read_world p n o s r d s' :
  physical_read p n o s = (r, d, s') -> st_world s' = st_world s.
Proof. intros H. apply physical_read_spec in H. tauto. Qed.

Lemma vhd_read_rec_world fuel : forall io size offset s r io' s',
  vhd_read_rec cfg fuel io size offset s = Some (r, io', s') ->
  st_world s' = st_world s.
Proof.
  induction fuel as [|fuel IH]; intros io size offset s r io' s' H;
    cbn [vhd_read_rec] in H; cbv zeta in H.
  all: destruct (u64 (current_size cfg) <? u64 (offset + size));
    [inversion H; subst; reflexivity|].
  all: destruct (physical_read BatEntry 4 _ s) as [[rd bo] s1] eqn:H1.
  all: apply physical_read_world in H1.
  all: destruct (negb (rd =? 4));
    [inversion H; subst; rewrite errno_e2big_world; exact H1|].
  all: destruct (is_sparse bo).
  - destruct (0 <? second_size_of cfg size offset); [discriminate|].
    inversion H; subst. exact H1.
  - destruct (physical_read Data _ _ s1) as [[rd1 d1] s2] eqn:H2.
    destruct (physical_read Data _ _ s2) as [[rd2 d2] s3] eqn:H3.
    apply physical_read_world in H2, H3.
    destruct (rd2 =? -1); [inversion H; subst; congruence|].
    destruct (0 <? second_size_of cfg size offset); [discriminate|].
    inversion H; subst. congruence.
  - destruct (0 <? second_size_of cfg size offset).
    + destruct (vhd_read_rec cfg fuel _ _ _ s1) as [[[r2 io2] s2]|] eqn:H2;
        [|discriminate].
      apply IH in H2.
      assert (s2 = s') by (destruct (u64 r2 =? u64 (-1)); congruence). subst.
      congruence.
    + inversion H; subst. exact H1.
  - destruct (physical_read Data _ _ s1) as [[rd1 d1] s2] eqn:H2.
    destruct (physical_read Data _ _ s2) as [[rd2 d2] s3] eqn:H3.
    apply physical_read_world in H2, H3.
    destruct (rd2 =? -1); [inversion H; subst; congruence|].
    destruct (0 <? second_size_of cfg size offset).
    + destruct (vhd_read_rec cfg fuel _ _ _ s3) as [[[r2 io2] s4]|] eqn:H4;
        [|discriminate].
      apply IH in H4.
      assert (s4 = s') by (destruct (u64 r2 =? u64 (-1)); congruence). subst.
      congruence.
    + inversion H; subst. congruence.
Qed.

Lemma logical_read_world io size offset s r io' s' :
  logical_read cfg io size offset s = Some (r, io', s') ->
  st_world s' = st_world s /\ st_sent s' = st_sent s.
Proof.
  intros H. split; [|apply logical_read_session in H; apply H].
  revert H. unfold logical_read, vhd_read. destruct (vhd_mode cfg).
  - apply vhd_read_rec_world.
  - destruct (physical_read Data size offset s) as [[rd d] s1] eqn:H1.
    apply physical_read_world in H1. intros H; inversion H; subst; auto.
Qed.

Lemma scan_ebr_chain_world fuel junk pn first : forall c io fs s c' io' fs' s',
  scan_ebr_chain cfg fuel junk pn first c io fs s = Some (c', io', fs', s') ->
  st_world s' = st_world s /\ st_sent s' = st_sent s.
Proof.
  induction fuel as [|fuel IH]; intros c io fs s c' io' fs' s' H;
    cbn [scan_ebr_chain] in H.
  all: destruct (logical_read cfg junk 512 io s) as [[[rd ebr] s1]|] eqn:Hl;
    [|discriminate].
  all: apply logical_read_world in Hl.
  all: destruct ((rd =? 512) && table_valid ebr); [|inversion H; subst; exact Hl].
  all: destruct (scan_ebr_entries cfg ebr pn first 0 4 c io fs) as [[[nx c1] io1] fs1].
  all: destruct nx; [|inversion H; subst; exact Hl].
  - discriminate.
  - apply IH in H. destruct H, Hl. split; congruence.
Qed.

Lemma scan_mbr_entries_world fuel junk mbr pn : forall n i c io fs s io' fs' s',
  scan_mbr_entries cfg fuel junk mbr pn i n c io fs s = Some (io', fs', s') ->
  st_world s' = st_world s /\ st_sent s' = st_sent s.
Proof.
  induction n as [|n IH]; intros i c io fs s io' fs' s' H;
    cbn [scan_mbr_entries] in H.
  - inversion H; subst. auto.
  - destruct (entry_type mbr i =? 0); [eapply IH; eauto|].
    destruct (is_extended (entry_type mbr i)).
    + destruct (scan_ebr_chain cfg fuel junk pn _ c _ fs s)
        as [[[[c1 io1] fs1] s1]|] eqn:Hc; [|discriminate].
      apply scan_ebr_chain_world in Hc. apply IH in H.
      destruct H, Hc. split; congruence.
    + destruct (s32 (c + 1) =? pn); [inversion H; subst; auto|].
      eapply IH; eauto.
Qed.

(** X7: the partition selection of [main] only reads: the image and
    what was sent are as before.  It makes [main] return only with exit
    code 1; and when it chooses a window, the window is not empty and,
    if the size of the image is known, ends inside the image. *)
Theorem select_partition_window fuel junk pn s out s' :
  select_partition cfg fuel junk pn s = Some (out, s') ->
  st_world s' = st_world s /\ st_sent s' = st_sent s
  /\ match out with
     | inl rc => rc = 1
     | inr cfg' =>
         cfg' = cfg
         \/ (cfg' = with_window cfg (image_offset cfg') (devio_info_file_size cfg')
             /\ devio_info_file_size cfg' <> 0
             /\ (current_size cfg = 0
                 \/ s64 (image_offset cfg' + s64 (devio_info_file_size cfg'))
                    <= current_size cfg))
     end.
Proof.
  unfold select_partition.
  destruct ((1 <=? pn) && (pn <? 512)).
  2: { intros H; inversion H; subst. auto. }
  destruct (logical_read cfg junk 512 0 s) as [[[rd mbr] s1]|] eqn:Hl; [|discriminate].
  apply logical_read_world in Hl. destruct Hl as [Hw Hs].
  destruct (rd <? 512). { intros H; inversion H; subst. cbn. auto. }
  destruct (table_valid mbr). 2: { intros H; inversion H; subst. auto. }
  destruct (scan_mbr_entries cfg fuel junk mbr pn 0 4 0 0 _ s1)
    as [[[io fs] s2]|] eqn:Hm; [|discriminate].
  apply scan_mbr_entries_world in Hm. destruct Hm as [Hw2 Hs2].
  destruct (Z.eqb_spec fs 0) as [Hz|Hnz]; cbn [orb].
  { intros H; inversion H; subst. cbn. repeat split; congruence. }
  destruct (Z.eqb_spec (current_size cfg) 0) as [Hcz|Hcnz]; cbn [negb andb].
  { intros H; inversion H; subst. repeat split; try congruence.
    right. cbn. auto. }
  destruct (Z.ltb_spec (current_size cfg) (s64 (io + s64 fs))) as [Hlt|Hge].
  { intros H; inversion H; subst. cbn. repeat split; congruence. }
  intros H; inversion H; subst. repeat split; try congruence.
  right. cbn. auto.
Qed.

End ReadsOnly.

Lemma used_before_range m i : 0 <= used_before m i <= Z.of_nat i.
Proof.
  induction i as [|i IH]; cbn [used_before]; [lia|].
  destruct (entry_type m i =? 0); lia.
Qed.

Lemma used_before_mono m i j : (i <= j)%nat -> used_before m i <= used_before m j.
Proof.
  induction 1 as [|j Hle IH]; [lia|]. cbn [used_before].
  destruct (entry_type m j =? 0); lia.
Qed.

Section Primary.
Context {W E : Type} {BK : Backing W} {HO : Host E}.
Variable cfg : config.
Implicit Type s : state W E.

Lemma scan_mbr_primary fuel junk mbr pn i :
  (i < 4)%nat ->
  entry_type mbr i <> 0 ->
  used_before mbr i + 1 = pn ->
  (forall j, (j <= i)%nat -> is_extended (entry_type mbr j) = false) ->
  forall n i0 io fs s,
    (i0 + n = 4)%nat -> (i0 <= i)%nat ->
    scan_mbr_entries cfg fuel junk mbr pn i0 n (used_before mbr i0) io fs s
    = Some (entry_start cfg mbr i, u64 (entry_length cfg mbr i), s).
Proof.
  intros Hi Ht Hpn Hext.
  induction n as [|n IH]; intros i0 io fs s Hn Hle; [lia|].
  cbn [scan_mbr_entries].
  pose proof (used_before_range mbr i0) as Hr.
  assert (Hs32 : s32 (used_before mbr i0 + 1) = used_before mbr i0 + 1)
    by (unfold s32; rewrite Z.mod_small by lia; lia).
  rewrite (Hext i0 Hle), Hs32.
  destruct (Nat.eq_dec i0 i) as [->|Hne].
  - destruct (Z.eqb_spec (entry_type mbr i) 0) as [|_]; [contradiction|].
    rewrite Hpn, Z.eqb_refl. reflexivity.
  - pose proof (used_before_mono mbr (S i0) i ltac:(lia)) as Hm.
    cbn [used_before] in Hm.
    destruct (Z.eqb_spec (entry_type mbr i0) 0) as [Hz|Hnz].
    + replace (used_before mbr i0) with (used_before mbr (S i0))
        by (cbn [used_before]; rewrite Hz; cbn; lia).
      apply IH; lia.
    + destruct (Z.eqb_spec (used_before mbr i0 + 1) pn) as [He|_]; [lia|].
      replace (used_before mbr i0 + 1) with (used_before mbr (S i0)).
      2: { cbn [used_before]. destruct (Z.eqb_spec (entry_type mbr i0) 0); [contradiction|lia]. }
      apply IH; lia.
Qed.

(** X8: the selection of a primary partition.  When the master boot
    record is read in full and is valid, entry [i] is used and is the
    [pn]-th used entry, and no entry up to [i] is an extended
    partition, the window becomes the start and the length of entry
    [i], in bytes; unless that length is 0 or the partition ends beyond
    a known image size: then [main] returns 1. *)
Theorem select_primary_partition fuel junk pn s readdone mbr s1 i :
  logical_read cfg junk 512 0 s = Some (readdone, mbr, s1) ->
  512 <= readdone ->
  table_valid mbr = true ->
  (i < 4)%nat ->
  entry_type mbr i <> 0 ->
  used_before mbr i + 1 = pn ->
  (forall j, (j <= i)%nat -> is_extended (entry_type mbr j) = false) ->
  let start := entry_start cfg mbr i in
  let len := u64 (entry_length cfg mbr i) in
  select_partition cfg fuel junk pn s
  = if (len =? 0)
       || (negb (current_size cfg =? 0) && (current_size cfg <? s64 (start + s64 len)))
    then Some (inl 1, syslog "Partition not found" s1)
    else Some (inr (with_window cfg start len), s1).
Proof.
  intros Hl Hrd Hv Hi Ht Hpn Hext start len.
  pose proof (used_before_range mbr i) as Hr.
  unfold select_partition.
  destruct (Z.leb_spec 1 pn); [|lia]. destruct (Z.ltb_spec pn 512); [|lia].
  cbn [andb]. rewrite Hl.
  destruct (Z.ltb_spec readdone 512); [lia|]. rewrite Hv.
  change 0 with (used_before mbr 0) at 1.
  rewrite (scan_mbr_primary fuel junk mbr pn i Hi Ht Hpn Hext 4 0) by lia.
  fold start. fold len. destruct (_ || _); reflexivity.
Qed.

End Primary.

Lemma s64_range x : - 2 ^ 63 <= s64 x < 2 ^ 63.
Proof.
  unfold s64. pose proof (Z.mod_pos_bound (x + 2 ^ 63) (2 ^ 64) ltac:(lia)). lia.
Qed.

Section CyclicChain.
Context {W E : Type} {BK : Backing W} {HO : Host E}.
Variable cfg : config.
Implicit Type s : state W E.

Lemma logical_read_raw_sector junk off s d :
  vhd_mode cfg = false ->
  length junk = 512%nat -> length d = 512%nat ->
  bk_pread (st_world s) 512 off = Done d ->
  logical_read cfg junk 512 off s
  = Some (512, d, add_event (EvRead Data off 512 512) s).
Proof.
  intros Hv Hj Hd Hp. unfold logical_read, physical_read. rewrite Hv, Hp.
  rewrite store_at_full by congruence. rewrite Hd. reflexivity.
Qed.

Lemma scan_ebr_first_extended ebr pn first e :
  (e < 4)%nat ->
  (forall j, (j < e)%nat -> entry_type ebr j = 0) ->
  is_extended (entry_type ebr e) = true ->
  forall n e0 c io fs,
    (e0 + n = 4)%nat -> (e0 <= e)%nat ->
    scan_ebr_entries cfg ebr pn first e0 n c io fs
    = (true, c, s64 (first + entry_start cfg ebr e), fs).
Proof.
  intros He Hz Hx. induction n as [|n IH]; intros e0 c io fs Hn Hle; [lia|].
  cbn [scan_ebr_entries].
  destruct (Nat.eq_dec e0 e) as [->|Hne].
  - rewrite Hx.
    destruct (Z.eqb_spec (entry_type ebr e) 0) as [H0|_]; [|reflexivity].
    rewrite H0 in Hx. discriminate Hx.
  - rewrite (Hz e0) by lia. cbn. apply IH; lia.
Qed.

(** X9: a chain of extended partition tables that leads back to
    itself.  On a raw image whose master boot record has an extended
    partition as its first used entry, and whose extended table has as
    its first used entry an extended entry with start 0, the loop
    [while (read_next_ebr)] reads that table again and again: the
    selection does not end, whatever number of iterations is allowed. *)
Theorem cyclic_partition_chain_never_ends junk (w : W) mbr ebr i e :
  vhd_mode cfg = false ->
  length junk = 512%nat ->
  bk_pread w 512 0 = Done mbr -> length mbr = 512%nat ->
  table_valid mbr = true ->
  (i < 4)%nat ->
  (forall j, (j < i)%nat -> entry_type mbr j = 0) ->
  is_extended (entry_type mbr i) = true ->
  bk_pread w 512 (entry_start cfg mbr i) = Done ebr -> length ebr = 512%nat ->
  table_valid ebr = true ->
  (e < 4)%nat ->
  (forall j, (j < e)%nat -> entry_type ebr j = 0) ->
  is_extended (entry_type ebr e) = true ->
  entry_start cfg ebr e = 0 ->
  forall fuel pn s,
    1 <= pn < 512 -> st_world s = w ->
    select_partition cfg fuel junk pn s = None.
Proof.
  intros Hv Hj Hm Hml Hmv Hi Hmz Hmx He Hel Hev Hee Hez Hex He0.
  set (X := entry_start cfg mbr i) in *.
  assert (HX : s64 (X + 0) = X).
  { rewrite Z.add_0_r. unfold X, entry_start. apply s64_small. apply s64_range. }
  assert (Hchain : forall fuel pn c fs s,
            st_world s = w -> scan_ebr_chain cfg fuel junk pn X c X fs s = None).
  { induction fuel as [|fuel IH]; intros pn c fs s Hw; cbn [scan_ebr_chain].
    all: rewrite (logical_read_raw_sector junk X s ebr Hv Hj Hel)
      by (rewrite Hw; exact He).
    all: rewrite Z.eqb_refl, Hev; cbn [andb].
    all: rewrite (scan_ebr_first_extended ebr pn X e Hee Hez Hex 4 0) by lia.
    - reflexivity.
    - rewrite He0, HX. apply IH. exact Hw. }
  assert (Hscan : forall fuel pn n i0 c io fs s,
            (i0 + n = 4)%nat -> (i0 <= i)%nat -> st_world s = w ->
            scan_mbr_entries cfg fuel junk mbr pn i0 n c io fs s = None).
  { intros fuel pn. induction n as [|n IH]; intros i0 c io fs s Hn Hle Hw; [lia|].
    cbn [scan_mbr_entries].
    destruct (Nat.eq_dec i0 i) as [->|Hne].
    - rewrite Hmx.
      destruct (Z.eqb_spec (entry_type mbr i) 0) as [H0|_].
      { rewrite H0 in Hmx. discriminate Hmx. }
      fold X. rewrite Hchain by exact Hw. reflexivity.
    - rewrite (Hmz i0) by lia. cbn. apply IH; [lia|lia|exact Hw]. }
  intros fuel pn s Hpn Hw. unfold select_partition.
  destruct (Z.leb_spec 1 pn); [|lia]. destruct (Z.ltb_spec pn 512); [|lia].
  cbn [andb].
  rewrite (logical_read_raw_sector junk 0 s mbr Hv Hj Hml) by (rewrite Hw; exact Hm).
  change (512 <? 512) with false. cbv iota. rewrite Hmv.
  rewrite (Hscan fuel pn 4%nat 0%nat) by (try lia; exact Hw). reflexivity.
Qed.

End CyclicChain.

(* ================================================================= *)
(** ** What single requests are answered with *)

Section Replies.
Context {W E : Type} {BK : Backing W} {HO : Host E}.
Variable cfg : config.
Implicit Type s : state W E.





(** X12: a request code that is none of INFO, READ and WRITE is
    answered with the eight bytes of [ENODEV]; the handler returns, and
    the image, the buffer and its size are as before. *)
Theorem unknown_request_enodev fuel s code s1 :
  comm_read cfg false 8 s = (Some code, s1) ->
  u64 (le_decode code) <> IMDPROXY_REQ_INFO cfg ->
  u64 (le_decode code) <> IMDPROXY_REQ_READ cfg ->
  u64 (le_decode code) <> IMDPROXY_REQ_WRITE cfg ->
  exists x s',
    serve_one cfg fuel s = Ret x s'
    /\ (x = None \/ x = Some 1)
    /\ st_sent s' = st_sent s ++ [le_encode 8 ENODEV]
    /\ st_world s' = st_world s /\ st_trace s' = st_trace s
    /\ st_buffer_size s' = st_buffer_size s /\ st_buf s' = st_buf s.
Proof.
  intros Hc Hi Hr Hw.
  pose proof (comm_read_struct_buf cfg _ _ _ _ Hc) as Hbuf.
  pose proof (comm_read_frame cfg _ _ _ _ _ Hc) as ((Hw1 & Ht1 & _) & Hs1 & Hb1).
  apply Z.eqb_neq in Hi, Hr, Hw.
  unfold serve_one. rewrite Hc, Hi, Hr, Hw.
  destruct (comm_write cfg false (le_encode 8 ENODEV) s1) as [ok s2] eqn:H2.
  apply comm_write_frame in H2.
  destruct H2 as ((Hw2 & Ht2 & _) & Hs2 & Hb2 & Hbuf2).
  destruct ok.
  - exists None, s2. change (1 =? 0) with false. cbv iota.
    repeat split; try congruence. left; reflexivity.
  - exists (Some 1), (syslog "stdout" s2). change (0 =? 0) with true. cbv iota.
    cbn [st_sent st_world st_trace st_buffer_size st_buf syslog].
    repeat split; try congruence. right; reflexivity.
Qed.









End Replies.

(* ================================================================= *)
(** ** The device held in a dynamic VHD image *)

Lemma vhd_bytes_length cfg f o n : length (vhd_bytes cfg f o n) = n.
Proof. unfold vhd_bytes. now rewrite length_map, length_seq. Qed.

Lemma seq_from n m : seq n m = map (fun i => (n + i)%nat) (seq 0 m).
Proof.
  induction n as [|n IH].
  - cbn. symmetry. apply map_id.
  - rewrite <- seq_shift, IH, map_map. reflexivity.
Qed.

Lemma vhd_bytes_app cfg f o n m :
  vhd_bytes cfg f o (n + m) = vhd_bytes cfg f o n ++ vhd_bytes cfg f (o + Z.of_nat n) m.
Proof.
  unfold vhd_bytes. rewrite seq_app, map_app. f_equal.
  cbn [Nat.add]. rewrite (seq_from n m), map_map.
  apply map_ext. intros a. f_equal. lia.
Qed.

Lemma map_const_repeat {A B} (c : B) (l : list A) :
  map (fun _ => c) l = repeat c (length l).
Proof. induction l as [|a l IH]; cbn; [reflexivity|now rewrite IH]. Qed.

Section ReadContent.
Context {E : Type} {HO : Host E}.
Variable cfg : config.
Hypothesis VC : vhd_config cfg.
Implicit Type s : state image E.

Lemma in_block_offset_small offset :
  0 <= offset < 2 ^ 62 -> in_block_offset_of cfg offset = offset mod block_size cfg.
Proof.
  intros H. rewrite (in_block_offset_mod cfg VC), u64_small by lia. reflexivity.
Qed.

Lemma part_in_block offset fs i :
  0 <= offset ->
  fs + offset mod block_size cfg <= block_size cfg ->
  0 <= i < fs ->
  (offset + i) / block_size cfg = offset / block_size cfg
  /\ (offset + i) mod block_size cfg = offset mod block_size cfg + i.
Proof.
  intros Ho Hf Hi. pose proof (block_size_range cfg VC) as Hb.
  pose proof (Z.mod_pos_bound offset (block_size cfg) ltac:(lia)) as Hm.
  pose proof (Z.div_mod offset (block_size cfg) ltac:(lia)) as Hd.
  assert (Hq : (offset + i) / block_size cfg = offset / block_size cfg).
  { symmetry. apply (Z.div_unique _ _ _ (offset mod block_size cfg + i)); lia. }
  split; [exact Hq|].
  pose proof (Z.div_mod (offset + i) (block_size cfg) ltac:(lia)) as Hd2.
  rewrite Hq in Hd2. lia.
Qed.

Lemma vhd_bytes_sparse_part f offset fs :
  0 <= offset ->
  fs + offset mod block_size cfg <= block_size cfg ->
  is_sparse (bat_entry cfg f (offset / block_size cfg)) = true ->
  vhd_bytes cfg f offset (Z.to_nat fs) = repeat 0 (Z.to_nat fs).
Proof.
  intros Ho Hf Hs. unfold vhd_bytes.
  transitivity (map (fun _ : nat => 0) (seq 0 (Z.to_nat fs)));
    [|rewrite map_const_repeat, length_seq; reflexivity].
  apply map_ext_in. intros i Hi. apply in_seq in Hi.
  unfold vhd_byte.
  destruct (part_in_block offset fs (Z.of_nat i) Ho Hf ltac:(lia)) as [Hq _].
  rewrite Hq, Hs. reflexivity.
Qed.

Lemma vhd_bytes_allocated_part f offset fs :
  0 <= offset ->
  fs + offset mod block_size cfg <= block_size cfg ->
  is_sparse (bat_entry cfg f (offset / block_size cfg)) = false ->
  vhd_bytes cfg f offset (Z.to_nat fs)
  = image_bytes f (ntohl_bytes (bat_entry cfg f (offset / block_size cfg)) * 512 + 512
                   + offset mod block_size cfg) (Z.to_nat fs).
Proof.
  intros Ho Hf Hs. unfold vhd_bytes, image_bytes.
  apply map_ext_in. intros i Hi. apply in_seq in Hi.
  unfold vhd_byte.
  destruct (part_in_block offset fs (Z.of_nat i) Ho Hf ltac:(lia)) as [Hq Hm].
  rewrite Hq, Hs, Hm. f_equal. lia.
Qed.


Lemma store_at_twice io d : store_at (store_at io d) d = store_at io d.
Proof.
  unfold store_at. rewrite skipn_app, skipn_all, Nat.sub_diag. reflexivity.
Qed.

Lemma skipn_memset io n : skipn (Z.to_nat n) (memset io 0 n) = skipn (Z.to_nat n) io.
Proof.
  unfold memset. rewrite skipn_app, repeat_length, Nat.sub_diag.
  rewrite skipn_all2 by (rewrite repeat_length; lia). reflexivity.
Qed.

Lemma firstn_memset io n m :
  0 <= m <= n -> firstn (Z.to_nat m) (memset io 0 n) = repeat 0 (Z.to_nat m).
Proof.
  intros H. unfold memset. rewrite firstn_app, repeat_length.
  replace (Z.to_nat m - Z.to_nat n)%nat with 0%nat by lia.
  cbn [firstn]. rewrite app_nil_r.
  replace (Z.to_nat n) with (Z.to_nat m + (Z.to_nat n - Z.to_nat m))%nat by lia.
  rewrite repeat_app, firstn_app, repeat_length, Nat.sub_diag.
  cbn [firstn]. rewrite app_nil_r. apply firstn_all2. rewrite repeat_length. lia.
Qed.

Lemma firstn_store_at io d : firstn (length d) (store_at io d) = d.
Proof.
  unfold store_at. rewrite firstn_app, Nat.sub_diag. cbn [firstn].
  rewrite app_nil_r. apply firstn_all.
Qed.

Lemma skipn_store_at io d : skipn (length d) (store_at io d) = skipn (length d) io.
Proof.
  unfold store_at. rewrite skipn_app, Nat.sub_diag, skipn_all. reflexivity.
Qed.

(** [vhd_read] on a well-formed image: the region receives the bytes of
    the device, block by block. *)
Lemma vhd_read_rec_content fuel : forall io size offset s,
  image_ok cfg (st_world s) ->
  0 <= offset -> 0 < size < 2 ^ 62 -> offset + size <= current_size cfg ->
  size <= Z.of_nat (length io) ->
  (Z.to_nat size <= fuel)%nat ->
  exists s',
    vhd_read_rec cfg fuel io size offset s
    = Some (size,
            vhd_bytes cfg (st_world s) offset (Z.to_nat size)
              ++ skipn (Z.to_nat size) io, s')
    /\ st_world s' = st_world s.
Proof.
  induction fuel as [|fuel IH]; intros io size offset s OK Ho Hs Hc Hio Hfuel; [lia|].
  pose proof (block_size_range cfg VC) as Hb.
  pose proof (bat_entries_nonneg cfg VC) as HN.
  pose proof (first_size_bounds cfg VC size offset Hs) as (Hfs & Hfit).
  pose proof (in_block_offset_range cfg VC offset) as Hib.
  assert (Hcs : 0 <= current_size cfg < 2 ^ 62) by (destruct VC; auto).
  assert (Hto : 0 <= table_offset cfg < 2 ^ 62) by (destruct VC; auto).
  assert (Hss : sector_size cfg = 512) by (destruct VC; auto).
  assert (Hsh : sector_shift cfg = 9) by (destruct VC; auto).
  pose proof (block_index_lt cfg VC offset) as Hk.
  rewrite (in_block_offset_small offset) in * by lia.
  set (k := offset / block_size cfg) in *.
  assert (Hk' : 0 <= k < bat_entries cfg) by (apply Hk; lia). clear Hk.
  pose proof OK as OK0.
  destruct OK as [Hbat Hal Hbl Hfo Hli].
  cbn [vhd_read_rec].
  rewrite (clip_eq cfg VC) by lia.
  destruct (Z.ltb_spec (current_size cfg) (offset + size)) as [Hx|_]; [lia|].
  assert (Hbn : s64 (u64 (Z.shiftr offset (block_shift cfg))) = k).
  { unfold k. rewrite <- (block_number_eq cfg VC offset) by lia.
    f_equal. apply u64_small. rewrite Z.shiftr_div_pow2 by (destruct VC; lia).
    destruct VC as [? Hbs ? ? ? ? ?]. rewrite <- Hbs.
    split; [apply Z.div_pos; lia|].
    apply Z.div_lt_upper_bound; nia. }
  rewrite Hbn.
  assert (Hdo : s64 (table_offset cfg + Z.shiftl k 2) = table_offset cfg + 4 * k).
  { rewrite Z.shiftl_mul_pow2 by lia. change (2 ^ 2) with 4.
    assert (k * 512 <= offset).
    { pose proof (Z.mul_div_le offset (block_size cfg)). fold k in H. nia. }
    rewrite s64_small by lia. lia. }
  rewrite Hdo.
  rewrite physical_read_image by lia.
  cbv zeta.
  rewrite image_bytes_length.
  replace (Z.to_nat (Z.min 4 (flen (st_world s) - (table_offset cfg + 4 * k))))
    with 4%nat by (unfold bat_end in Hbat; lia).
  change (negb (Z.of_nat 4 =? 4)) with false. cbv iota.
  fold (bat_entry cfg (st_world s) k).
  rewrite (in_block_offset_small offset) by lia.
  set (fs := first_size_of cfg size offset) in *.
  set (ib := offset mod block_size cfg) in *.
  set (f := st_world s) in *.
  (* the first part *)
  assert (Hpart : exists s1 io2,
    (if is_sparse (bat_entry cfg f k)
     then (s64 fs, memset io 0 size,
           add_event (EvRead BatEntry (table_offset cfg + 4 * k) 4 (Z.of_nat 4)) s, false)
     else
       let data_offset := data_offset_of cfg (ntohl_bytes (bat_entry cfg f k)) ib in
       let '(_, d1, s0) := physical_read Data fs data_offset
           (add_event (EvRead BatEntry (table_offset cfg + 4 * k) 4 (Z.of_nat 4)) s) in
       let io0 := store_at (memset io 0 size) d1 in
       let '(readdone, d2, s0) := physical_read Data fs data_offset s0 in
       (readdone, store_at io0 d2, s0, readdone =? -1))
    = (fs, io2, s1, false)
    /\ st_world s1 = f
    /\ firstn (Z.to_nat fs) io2 = vhd_bytes cfg f offset (Z.to_nat fs)
    /\ skipn (Z.to_nat fs) io2 = skipn (Z.to_nat fs) (memset io 0 size)).
  { destruct (is_sparse (bat_entry cfg f k)) eqn:Hsp.
    - eexists _, _. split; [rewrite s64_small by lia; reflexivity|].
      split; [reflexivity|]. split; [|reflexivity].
      rewrite firstn_memset by lia.
      symmetry. apply vhd_bytes_sparse_part; auto; fold ib; lia.
    - destruct (Hbl k Hk' Hsp) as [Hlo Hhi]. fold f in Hlo, Hhi.
      set (e := ntohl_bytes (bat_entry cfg f k)) in *.
      assert (Hdo2 : data_offset_of cfg e ib = e * 512 + 512 + ib).
      { unfold data_offset_of. rewrite Hss, Hsh, Z.shiftl_mul_pow2 by lia.
        change (2 ^ 9) with 512. apply s64_small. unfold bat_end in Hlo. lia. }
      cbv zeta. rewrite Hdo2.
      assert (He0 : 0 <= e * 512) by (unfold bat_end in Hlo; lia).
      rewrite physical_read_image by lia.
      cbv zeta. cbn [st_world add_event]. fold f.
      rewrite physical_read_image by lia.
      cbv zeta. cbn [st_world add_event]. fold f.
      rewrite image_bytes_length.
      replace (Z.to_nat (Z.min fs (flen f - (e * 512 + 512 + ib))))
        with (Z.to_nat fs) by lia.
      rewrite store_at_twice.
      set (d := image_bytes f (e * 512 + 512 + ib) (Z.to_nat fs)).
      assert (Hd : length d = Z.to_nat fs) by apply image_bytes_length.
      eexists _, _. split.
      { rewrite Z2Nat.id by lia.
        destruct (Z.eqb_spec fs (-1)) as [Hx|_]; [lia|]. reflexivity. }
      split; [reflexivity|].
      rewrite <- Hd at 1 3. rewrite firstn_store_at, skipn_store_at. rewrite Hd.
      split; [|reflexivity].
      symmetry. apply vhd_bytes_allocated_part; auto; fold ib; lia. }
  destruct Hpart as (s1 & io2 & Heq & Hw1 & Hfirst & Hrest).
  cbv zeta in Heq. rewrite Heq. cbv iota.
  destruct (Z.ltb_spec 0 (second_size_of cfg size offset)) as [Hp|Hp].
  - destruct (second_offset_eq cfg VC size offset) as (Hso & Hsz & Hlt); try lia.
    fold fs in Hso, Hsz, Hlt.
    assert (Hlen2 : length (skipn (Z.to_nat fs) io2) = (length io - Z.to_nat fs)%nat).
    { rewrite Hrest, length_skipn, memset_length by lia. reflexivity. }
    destruct (IH (skipn (Z.to_nat fs) io2) (second_size_of cfg size offset)
                 (second_offset_of cfg size offset) s1) as (s2 & Hrec & Hw2).
    { rewrite Hw1. exact OK0. }
    { lia. } { lia. } { lia. } { rewrite Hlen2. lia. } { lia. }
    rewrite Hrec. cbv zeta.
    rewrite Hso, Hsz, Hw1.
    rewrite u64_small by lia.
    destruct (Z.eqb_spec (size - fs) (u64 (-1))) as [Hx|_].
    { unfold u64 in Hx. change ((-1) mod 2 ^ 64) with (2 ^ 64 - 1) in Hx. lia. }
    exists s2. split; [|congruence].
    rewrite s64_small by lia.
    replace (fs + (size - fs)) with size by lia.
    f_equal. f_equal. f_equal.
    rewrite Hfirst, Hrest, app_assoc.
    replace (Z.to_nat size) with (Z.to_nat fs + Z.to_nat (size - fs))%nat by lia.
    rewrite vhd_bytes_app. rewrite Z2Nat.id by lia.
    f_equal.
    rewrite skipn_skipn.
    replace (Z.to_nat (size - fs) + Z.to_nat fs)%nat with (Z.to_nat size) by lia.
    rewrite skipn_memset.
    replace (Z.to_nat fs + Z.to_nat (size - fs))%nat with (Z.to_nat size) by lia.
    reflexivity.
  - assert (Hfsz : fs = size).
    { unfold fs. unfold second_size_of, first_size_of in *.
      destruct (crosses_block cfg size offset) eqn:Hx; [|reflexivity].
      destruct (split_cross cfg VC size offset) as (H1 & H2 & H3); [lia|auto|].
      unfold second_size_of, first_size_of in H2, H3. rewrite Hx in H2, H3. lia. }
    exists s1. split; [|exact Hw1].
    rewrite Hfsz in *.
    f_equal. f_equal. f_equal.
    rewrite <- (firstn_skipn (Z.to_nat size) io2).
    rewrite Hfirst, Hrest, skipn_memset. reflexivity.
Qed.

End ReadContent.

(** ** What [vhd_write] does to the content of the device *)

Lemma is_sparse_bytes b : is_sparse b = true -> b = [255; 255; 255; 255].
Proof.
  destruct b as [|a [|b' [|c [|d [|x l]]]]]; cbn [is_sparse]; try discriminate.
  intros H. apply andb_prop in H. destruct H as [H Hd].
  apply andb_prop in H. destruct H as [H Hc].
  apply andb_prop in H. destruct H as [Ha Hb].
  apply Z.eqb_eq in Ha, Hb, Hc, Hd. subst. reflexivity.
Qed.

Lemma htonl_not_sparse e : 0 <= e < 2 ^ 32 - 1 -> is_sparse (htonl_bytes e) = false.
Proof.
  intros H. destruct (is_sparse (htonl_bytes e)) eqn:Hs; [|reflexivity].
  apply is_sparse_bytes in Hs.
  pose proof (ntohl_htonl e ltac:(lia)) as Hn. rewrite Hs in Hn.
  unfold ntohl_bytes in Hn. cbn [nth] in Hn. lia.
Qed.

Section BlockContent.

Variable cfg : config.
Hypothesis VC : vhd_config cfg.

Lemma bat_entry_write_above f d o j :
  image_ok cfg f -> 0 <= j < bat_entries cfg -> bat_end cfg <= o ->
  bat_entry cfg (image_write f d o) j = bat_entry cfg f j.
Proof.
  intros [Hbat _ _ _ _] Hj Ho. unfold bat_entry.
  apply image_bytes_write_outside; unfold bat_end in *;
    change (Z.of_nat 4) with 4; lia.
Qed.

Lemma blocks_disjoint_ext f g :
  (forall j, 0 <= j < bat_entries cfg -> bat_entry cfg g j = bat_entry cfg f j) ->
  blocks_disjoint cfg f -> blocks_disjoint cfg g.
Proof.
  intros Hent DJ j k Hj Hk Hjk. rewrite (Hent j Hj), (Hent k Hk). apply DJ; auto.
Qed.

Lemma same_block offset x n :
  0 <= offset -> offset mod block_size cfg + n <= block_size cfg ->
  offset <= x < offset + n ->
  x / block_size cfg = offset / block_size cfg
  /\ x mod block_size cfg = offset mod block_size cfg + (x - offset).
Proof.
  intros Ho Hn Hx.
  destruct (part_in_block cfg VC offset n (x - offset) Ho ltac:(lia) ltac:(lia)) as [Hq Hm].
  replace (offset + (x - offset)) with x in * by lia. auto.
Qed.

(** Data and bitmap bytes written into an allocated block. *)
Lemma write_block_content f data bits offset bo :
  image_ok cfg f -> blocks_disjoint cfg f ->
  0 <= offset < current_size cfg ->
  is_sparse (bat_entry cfg f (offset / block_size cfg)) = false ->
  offset mod block_size cfg + Z.of_nat (length data) <= block_size cfg ->
  0 <= bo -> bo + Z.of_nat (length bits) <= 512 ->
  let e := ntohl_bytes (bat_entry cfg f (offset / block_size cfg)) in
  let f' := image_write
              (image_write f data (e * 512 + 512 + offset mod block_size cfg))
              bits (e * 512 + bo) in
  (forall j, 0 <= j < bat_entries cfg -> bat_entry cfg f' j = bat_entry cfg f j)
  /\ forall x, 0 <= x < current_size cfg ->
       vhd_byte cfg f' x
       = if (offset <=? x) && (x <? offset + Z.of_nat (length data))
         then nth (Z.to_nat (x - offset)) data 0
         else vhd_byte cfg f x.
Proof.
  intros OK DJ Ho Hsp Hfit Hbo Hbits e f'.
  pose proof (block_size_range cfg VC) as Hb.
  pose proof (bat_entries_nonneg cfg VC) as HN.
  set (k := offset / block_size cfg) in *.
  set (ib := offset mod block_size cfg) in *.
  assert (Hk : 0 <= k < bat_entries cfg) by (apply (block_index_lt cfg VC); lia).
  assert (Hib : 0 <= ib < block_size cfg) by (apply Z.mod_pos_bound; lia).
  pose proof OK as OK0.
  destruct OK as [Hbat Hal Hbl Hfo Hli].
  destruct (Hbl k Hk Hsp) as [Hlo Hhi]. fold e in Hlo, Hhi.
  assert (Hbe : 0 <= bat_end cfg) by (destruct VC; unfold bat_end; lia).
  set (f1 := image_write f data (e * 512 + 512 + ib)) in *.
  assert (OK1 : image_ok cfg f1).
  { apply (image_ok_write_inside cfg VC); auto; lia. }
  assert (Hl1 : flen f1 = flen f) by (apply image_write_inside; lia).
  assert (Hent : forall j, 0 <= j < bat_entries cfg ->
            bat_entry cfg f' j = bat_entry cfg f j).
  { intros j Hj. unfold f'. rewrite bat_entry_write_above by (auto; lia).
    unfold f1. apply bat_entry_write_above; auto; lia. }
  split; [exact Hent|].
  intros x Hx.
  assert (Hj : 0 <= x / block_size cfg < bat_entries cfg)
    by (apply (block_index_lt cfg VC); lia).
  pose proof (Z.mod_pos_bound x (block_size cfg) ltac:(lia)) as Hxm.
  pose proof (Z.div_mod x (block_size cfg) ltac:(lia)) as Hxd.
  pose proof (Z.div_mod offset (block_size cfg) ltac:(lia)) as Hod.
  fold k ib in Hod.
  unfold vhd_byte. rewrite (Hent _ Hj).
  destruct (Z.leb_spec offset x) as [H1|H1];
    destruct (Z.ltb_spec x (offset + Z.of_nat (length data))) as [H2|H2]; cbn [andb].
  - (* a byte of the request *)
    destruct (same_block offset x (Z.of_nat (length data))) as [Hq Hm]; try lia.
    fold k in Hq. fold ib in Hm. rewrite Hq, Hsp. fold e. rewrite Hm.
    unfold f'. rewrite image_write_outside by lia.
    unfold f1. rewrite image_write_at by lia.
    f_equal. lia.
  - destruct (is_sparse (bat_entry cfg f (x / block_size cfg))) eqn:Hsx; [reflexivity|].
    destruct (Hbl _ Hj Hsx) as [Hlo' Hhi'].
    destruct (Z.eq_dec (x / block_size cfg) k) as [Hjk|Hjk].
    + rewrite Hjk in *. fold e.
      assert (x mod block_size cfg < ib \/ ib + Z.of_nat (length data) <= x mod block_size cfg)
        by nia.
      unfold f'. rewrite image_write_outside by lia.
      unfold f1. apply image_write_outside; lia.
    + destruct (DJ _ _ Hj Hk Hjk Hsx Hsp) as [Hd|Hd]; fold e in Hd;
        unfold f'; rewrite image_write_outside by lia;
        unfold f1; apply image_write_outside; lia.
  - destruct (is_sparse (bat_entry cfg f (x / block_size cfg))) eqn:Hsx; [reflexivity|].
    destruct (Hbl _ Hj Hsx) as [Hlo' Hhi'].
    destruct (Z.eq_dec (x / block_size cfg) k) as [Hjk|Hjk].
    + rewrite Hjk in *. fold e.
      assert (x mod block_size cfg < ib) by nia.
      unfold f'. rewrite image_write_outside by lia.
      unfold f1. apply image_write_outside; lia.
    + destruct (DJ _ _ Hj Hk Hjk Hsx Hsp) as [Hd|Hd]; fold e in Hd;
        unfold f'; rewrite image_write_outside by lia;
        unfold f1; apply image_write_outside; lia.
  - lia.
Qed.

(** The allocation of a block leaves the content of the device as it
    was: the new block holds zeros. *)
Lemma allocate_content f k :
  image_ok cfg f -> blocks_disjoint cfg f ->
  0 <= k < bat_entries cfg ->
  is_sparse (bat_entry cfg f k) = true ->
  flen f + 512 + block_size cfg <= 2 ^ 41 ->
  let e := (flen f - 512) / 512 in
  let f1 := image_write f (htonl_bytes (u32 e)) (table_offset cfg + 4 * k) in
  let f2 := image_write f1
              (repeat 0 (Z.to_nat (512 + block_size cfg)) ++ vhd_Footer cfg)
              (flen f - 512) in
  blocks_disjoint cfg f2
  /\ bat_entry cfg f2 k = htonl_bytes e
  /\ is_sparse (bat_entry cfg f2 k) = false
  /\ forall x, 0 <= x < current_size cfg -> vhd_byte cfg f2 x = vhd_byte cfg f x.
Proof.
  intros OK DJ Hk Hsp Hlim e f1 f2.
  pose proof OK as OK0.
  destruct OK as [Hbat Hal Hbl Hfo Hli].
  pose proof (block_size_range cfg VC) as Hb.
  pose proof (bat_entries_nonneg cfg VC) as HN.
  assert (Hfl : length (vhd_Footer cfg) = 512%nat) by (destruct VC; auto).
  assert (Hto : 0 <= table_offset cfg < 2 ^ 62) by (destruct VC; auto).
  assert (He : e * 512 = flen f - 512).
  { unfold e. pose proof (Z.div_mod (flen f - 512) 512). lia. }
  assert (Her : 0 <= e < 2 ^ 32 - 1).
  { unfold bat_end in Hbat. change (2 ^ 41) with (2 ^ 32 * 512) in Hlim. lia. }
  assert (Hu : u32 e = e) by (apply u32_small; lia).
  assert (Hnt : ntohl_bytes (htonl_bytes e) = e) by (apply ntohl_htonl; lia).
  assert (Hl1 : flen f1 = flen f).
  { apply image_write_inside. unfold bat_end in Hbat. rewrite htonl_bytes_length. lia. }
  assert (Hnb : Z.of_nat (length (repeat 0 (Z.to_nat (512 + block_size cfg)) ++ vhd_Footer cfg))
                = 512 + block_size cfg + 512).
  { rewrite length_app, repeat_length, Hfl. lia. }
  assert (Hent : forall j, 0 <= j < bat_entries cfg -> j <> k ->
            bat_entry cfg f2 j = bat_entry cfg f j).
  { intros j Hj Hjk. unfold bat_entry, f2.
    rewrite image_bytes_write_outside by (unfold bat_end in Hbat; change (Z.of_nat 4) with 4; lia).
    unfold f1. apply image_bytes_write_outside; unfold bat_end in Hbat;
      rewrite ?htonl_bytes_length; change (Z.of_nat 4) with 4; lia. }
  assert (Hentk : bat_entry cfg f2 k = htonl_bytes e).
  { unfold bat_entry, f2.
    rewrite image_bytes_write_outside by (unfold bat_end in Hbat; change (Z.of_nat 4) with 4; lia).
    unfold f1. rewrite Hu. apply (image_bytes_write_at f (htonl_bytes e)). }
  assert (Hnsp : is_sparse (bat_entry cfg f2 k) = false).
  { rewrite Hentk. apply htonl_not_sparse. lia. }
  split; [|split; [exact Hentk|split; [exact Hnsp|]]].
  - intros i j Hi Hj Hij Hsi Hsj.
    destruct (Z.eq_dec i k) as [Hik|Hik]; destruct (Z.eq_dec j k) as [Hjk|Hjk]; try lia.
    + subst i. rewrite (Hent j Hj Hjk) in *. rewrite Hentk, Hnt.
      destruct (Hbl j Hj Hsj). lia.
    + subst j. rewrite (Hent i Hi Hik) in *. rewrite Hentk, Hnt.
      destruct (Hbl i Hi Hsi). lia.
    + rewrite (Hent i Hi Hik), (Hent j Hj Hjk) in *. apply DJ; auto.
  - intros x Hx.
    assert (Hj : 0 <= x / block_size cfg < bat_entries cfg)
      by (apply (block_index_lt cfg VC); lia).
    pose proof (Z.mod_pos_bound x (block_size cfg) ltac:(lia)) as Hxm.
    unfold vhd_byte.
    destruct (Z.eq_dec (x / block_size cfg) k) as [Hjk|Hjk].
    + rewrite Hjk, Hnsp, Hsp, Hentk, Hnt.
      unfold f2. rewrite image_write_at by (rewrite Hnb; lia).
      rewrite app_nth1 by (rewrite repeat_length; lia).
      apply nth_repeat.
    + rewrite (Hent _ Hj Hjk).
      destruct (is_sparse (bat_entry cfg f (x / block_size cfg))) eqn:Hsx; [reflexivity|].
      destruct (Hbl _ Hj Hsx) as [Hlo' Hhi'].
      unfold f2. rewrite image_write_outside by lia.
      unfold f1. apply image_write_outside; rewrite ?htonl_bytes_length;
        unfold bat_end in *; lia.
Qed.

End BlockContent.

Lemma nth_firstn_lt {A} (l : list A) : forall n i d,
  (i < n)%nat -> nth i (firstn n l) d = nth i l d.
Proof.
  induction l as [|a l IH]; intros [|n] [|i] d H; cbn; try lia; try reflexivity.
  apply IH. lia.
Qed.

Section WriteContent.

Context {E : Type} {HO : Host E}.
Variable cfg : config.
Hypothesis VC : vhd_config cfg.
Hypothesis Hshift : block_shift cfg <= 21.
Implicit Type s : state image E.

Lemma bitmap_in_sector ib fs :
  0 <= ib -> 0 < fs -> fs + ib <= block_size cfg ->
  0 <= Z.shiftr (Z.shiftr ib 9) 3
  /\ 0 <= Z.shiftr (Z.shiftr (u64 (fs + 512 - 1)) 9 + 7) 3
  /\ Z.shiftr (Z.shiftr ib 9) 3 + Z.shiftr (Z.shiftr (u64 (fs + 512 - 1)) 9 + 7) 3 <= 512.
Proof.
  intros Hib Hfs Hfit.
  assert (Hb : block_size cfg <= 2 ^ 21).
  { destruct VC as [? Hbs ? ? ? ? ?]. rewrite Hbs.
    apply Z.pow_le_mono_r; lia. }
  change (2 ^ 21) with 2097152 in Hb.
  rewrite u64_small by lia.
  rewrite !Z.shiftr_div_pow2 by lia.
  change (2 ^ 9) with 512. change (2 ^ 3) with 8.
  Z.div_mod_to_equations. lia.
Qed.

Lemma vhd_write_first_content io size offset s w s' :
  image_ok cfg (st_world s) -> blocks_disjoint cfg (st_world s) ->
  0 <= offset -> 0 < size < 2 ^ 62 -> offset + size <= current_size cfg ->
  size <= Z.of_nat (length io) ->
  vhd_write_first cfg io size offset s = (Some w, s') ->
  flen (st_world s') <= 2 ^ 41 ->
  w = first_size_of cfg size offset
  /\ blocks_disjoint cfg (st_world s')
  /\ forall x, 0 <= x < current_size cfg ->
       vhd_byte cfg (st_world s') x
       = if (offset <=? x) && (x <? offset + first_size_of cfg size offset)
         then nth (Z.to_nat (x - offset)) io 0
         else vhd_byte cfg (st_world s) x.
Proof.
  intros OK DJ Hoff Hsize Hclip Hio Hrun Hlim.
  pose proof (block_size_range cfg VC) as Hb.
  pose proof (bat_entries_nonneg cfg VC) as HN.
  pose proof (first_size_bounds cfg VC size offset Hsize) as (Hfs & Hfit).
  pose proof (in_block_offset_range cfg VC offset) as Hib.
  assert (Hcs : 0 <= current_size cfg < 2 ^ 62) by (destruct VC; auto).
  assert (Hto : 0 <= table_offset cfg < 2 ^ 62) by (destruct VC; auto).
  assert (Hss : sector_size cfg = 512) by (destruct VC; auto).
  assert (Hsh : sector_shift cfg = 9) by (destruct VC; auto).
  pose proof (block_index_lt cfg VC offset) as Hk.
  unfold vhd_write_first in Hrun.
  rewrite (block_number_eq cfg VC) in Hrun by lia.
  rewrite (in_block_offset_small cfg VC offset) in * by lia.
  set (k := offset / block_size cfg) in *.
  assert (Hk' : 0 <= k < bat_entries cfg) by (apply Hk; lia). clear Hk.
  assert (Hkb : k * 512 <= offset).
  { pose proof (Z.mul_div_le offset (block_size cfg)). fold k in H. nia. }
  pose proof OK as OK0.
  destruct OK as [Hbat Hal Hbl Hfo Hli].
  assert (Hdo : s64 (table_offset cfg + Z.shiftl k 2) = table_offset cfg + 4 * k).
  { rewrite Z.shiftl_mul_pow2 by lia. change (2 ^ 2) with 4.
    rewrite s64_small by lia. lia. }
  rewrite Hdo in Hrun.
  rewrite physical_read_image in Hrun by lia.
  cbv zeta in Hrun.
  rewrite image_bytes_length in Hrun.
  replace (Z.to_nat (Z.min 4 (flen (st_world s) - (table_offset cfg + 4 * k))))
    with 4%nat in Hrun by (unfold bat_end in Hbat; lia).
  change (negb (Z.of_nat 4 =? 4)) with false in Hrun. cbv iota in Hrun.
  fold (bat_entry cfg (st_world s) k) in Hrun.
  set (fs := first_size_of cfg size offset) in *.
  set (ib := offset mod block_size cfg) in *.
  rewrite Hss, Hsh in Hrun.
  assert (Hnq : forall fuel,
            (Z.shiftr (u64 (fs + 7)) 3
             <=? zero_scan io (Z.shiftr (u64 (fs + 7)) 3) fuel 0) = false).
  { intros fuel. rewrite zero_scan_skips_iff. apply Z.leb_gt.
    rewrite u64_small by lia. rewrite Z.shiftr_div_pow2 by lia.
    apply Z.div_str_pos. change (2 ^ 3) with 8. lia. }
  destruct (bitmap_in_sector ib fs) as (Hbo0 & Hbm0 & Hbits); try lia.
  set (bm := Z.shiftr (Z.shiftr (u64 (fs + 512 - 1)) 9 + 7) 3) in *.
  set (bo := Z.shiftr (Z.shiftr ib 9) 3) in *.
  assert (Hbml : Z.of_nat (length (repeat 255 (Z.to_nat bm))) = bm).
  { rewrite repeat_length. lia. }
  assert (Hdl : Z.of_nat (length (firstn (Z.to_nat fs) io)) = fs).
  { rewrite length_firstn. lia. }
  assert (Hbe : table_offset cfg + 4 * k + 4 <= bat_end cfg /\ 0 <= bat_end cfg)
    by (unfold bat_end; lia).
  assert (Hfinal : forall f0 : image,
    image_ok cfg f0 -> blocks_disjoint cfg f0 ->
    is_sparse (bat_entry cfg f0 k) = false ->
    (forall x, 0 <= x < current_size cfg -> vhd_byte cfg f0 x = vhd_byte cfg (st_world s) x) ->
    let e := ntohl_bytes (bat_entry cfg f0 k) in
    let f' := image_write (image_write f0 (firstn (Z.to_nat fs) io) (e * 512 + 512 + ib))
                (repeat 255 (Z.to_nat bm)) (e * 512 + bo) in
    blocks_disjoint cfg f'
    /\ forall x, 0 <= x < current_size cfg ->
         vhd_byte cfg f' x
         = if (offset <=? x) && (x <? offset + fs)
           then nth (Z.to_nat (x - offset)) io 0
           else vhd_byte cfg (st_world s) x).
  { intros f0 OKf DJf Hspf Hsame e f'.
    destruct (write_block_content cfg VC f0 (firstn (Z.to_nat fs) io)
                (repeat 255 (Z.to_nat bm)) offset bo OKf DJf) as [Hent Hcont];
      try (fold k ib; lia); [exact Hspf|].
    fold k ib e f' in Hent, Hcont.
    split; [apply (blocks_disjoint_ext cfg f0); assumption|].
    intros x Hx. rewrite (Hcont x Hx), Hdl.
    destruct (Z.leb_spec offset x); destruct (Z.ltb_spec x (offset + fs)); cbn [andb];
      try (apply Hsame; assumption).
    apply nth_firstn_lt. lia. }
  destruct (is_sparse (bat_entry cfg (st_world s) k)) eqn:Hsp.
  - rewrite Hnq in Hrun.
    destruct (malloc _ (st_host _)) as [[g|] h].
    + rewrite lseek_end_image in Hrun by (cbn [st_world set_host add_event]; lia).
      cbn [st_world set_host add_event] in Hrun.
      destruct (Z.eqb_spec (flen (st_world s) + -512) (-1)) as [Hx|_]; [lia|].
      rewrite physical_write_image in Hrun by lia.
      cbn [st_world set_host add_event set_world] in Hrun.
      rewrite htonl_bytes_length in Hrun.
      change (negb (4 =? 4)) with false in Hrun. cbv iota in Hrun.
      rewrite physical_write_image in Hrun by lia.
      cbn [st_world set_host add_event set_world] in Hrun.
      assert (Hnb : Z.of_nat (length (repeat 0 (Z.to_nat (512 + block_size cfg))
                                        ++ vhd_Footer cfg))
                    = s64 (512 + block_size cfg) + 512).
      { rewrite length_app, repeat_length, s64_small by lia.
        destruct VC as [_ _ _ _ Hfl _ _]. rewrite Hfl. lia. }
      rewrite Hnb, Z.eqb_refl in Hrun. cbn [negb] in Hrun. cbv iota in Hrun.
      replace (flen (st_world s) + -512) with (flen (st_world s) - 512) in Hrun by lia.
      set (e' := u32 (Z.shiftr (flen (st_world s) - 512) 9)) in *.
      assert (He' : 0 <= e' < 2 ^ 32) by (apply Z.mod_pos_bound; lia).
      assert (Hnt : ntohl_bytes (htonl_bytes e') = e') by (apply ntohl_htonl; lia).
      rewrite Hnt in Hrun.
      assert (Hdo2 : data_offset_of cfg e' ib = e' * 512 + 512 + ib).
      { unfold data_offset_of. rewrite Hss, Hsh, Z.shiftl_mul_pow2 by lia.
        change (2 ^ 9) with 512. apply s64_small. lia. }
      assert (Hbo2 : s64 (Z.shiftl e' 9 + bo) = e' * 512 + bo).
      { rewrite Z.shiftl_mul_pow2 by lia. change (2 ^ 9) with 512.
        apply s64_small. lia. }
      rewrite Hdo2, Hbo2 in Hrun.
      rewrite physical_write_image in Hrun by lia.
      cbn [st_world set_host add_event set_world] in Hrun.
      rewrite Hdl in Hrun.
      destruct (Z.eqb_spec fs (-1)) as [Hx|_]; [lia|].
      rewrite physical_write_image in Hrun by lia.
      cbn [st_world set_host add_event set_world] in Hrun.
      rewrite Hbml, Z.eqb_refl in Hrun. cbn [negb] in Hrun.
      apply pair_equal_spec in Hrun. destruct Hrun as [Hr Hs'].
      inversion Hr; subst w. subst s'. clear Hr.
      cbn [st_world set_host add_event set_world] in Hlim |- *.
      set (f := st_world s) in *.
      set (f2 := image_write (image_write f (htonl_bytes e') (table_offset cfg + 4 * k))
                   (repeat 0 (Z.to_nat (512 + block_size cfg)) ++ vhd_Footer cfg)
                   (flen f - 512)) in *.
      assert (Hl2 : flen f2 = flen f + 512 + block_size cfg)
        by (apply (allocate_flen cfg VC); auto).
      set (f3 := image_write f2 (firstn (Z.to_nat fs) io) (e' * 512 + 512 + ib)) in *.
      pose proof (image_write_flen_le f2 (firstn (Z.to_nat fs) io) (e' * 512 + 512 + ib)) as Hm3.
      pose proof (image_write_flen_le f3 (repeat 255 (Z.to_nat bm)) (e' * 512 + bo)) as Hm4.
      fold f3 in Hm3.
      assert (Hroom : flen f + 512 + block_size cfg <= 2 ^ 41) by lia.
      assert (Hee : e' = (flen f - 512) / 512).
      { unfold e'. rewrite Z.shiftr_div_pow2 by lia. change (2 ^ 9) with 512.
        apply u32_small. change (2 ^ 32) with 4294967296.
        change (2 ^ 41) with 2199023255552 in Hroom.
        Z.div_mod_to_equations. lia. }
      destruct (image_ok_allocate cfg VC f k OK0 Hk' Hroom) as (OK2 & _ & _).
      destruct (allocate_content cfg VC f k OK0 DJ Hk' Hsp Hroom)
        as (DJ2 & Hentk & Hnsp & Hsame).
      cbv zeta in OK2, DJ2, Hentk, Hnsp, Hsame.
      rewrite <- Hee in OK2, DJ2, Hentk, Hnsp, Hsame.
      rewrite u32_small in OK2, DJ2, Hentk, Hnsp, Hsame by lia.
      fold f2 in OK2, DJ2, Hentk, Hnsp, Hsame.
      split; [reflexivity|].
      pose proof (Hfinal f2 OK2 DJ2 Hnsp Hsame) as HF.
      cbv zeta in HF. rewrite Hentk, Hnt in HF. exact HF.
    + apply pair_equal_spec in Hrun. destruct Hrun as [Hr _]. discriminate.
  - destruct (Hbl k Hk' Hsp) as [Hlo Hhi].
    pose proof (Hfinal (st_world s) OK0 DJ Hsp (fun x _ => eq_refl)) as HF.
    cbv zeta in HF.
    set (e := ntohl_bytes (bat_entry cfg (st_world s) k)) in *.
    assert (He : 0 <= e < 2 ^ 32).
    { change (2 ^ 41) with (2 ^ 32 * 512) in Hli. lia. }
    assert (Hdo2 : data_offset_of cfg e ib = e * 512 + 512 + ib).
    { unfold data_offset_of. rewrite Hss, Hsh, Z.shiftl_mul_pow2 by lia.
      change (2 ^ 9) with 512. apply s64_small. lia. }
    assert (Hbo2 : s64 (Z.shiftl e 9 + bo) = e * 512 + bo).
    { rewrite Z.shiftl_mul_pow2 by lia. change (2 ^ 9) with 512.
      apply s64_small. lia. }
    rewrite Hdo2, Hbo2 in Hrun.
    rewrite physical_write_image in Hrun by lia.
    cbn [st_world set_host add_event set_world] in Hrun.
    rewrite Hdl in Hrun.
    destruct (Z.eqb_spec fs (-1)) as [Hx|_]; [lia|].
    rewrite physical_write_image in Hrun by lia.
    cbn [st_world set_host add_event set_world] in Hrun.
    rewrite Hbml, Z.eqb_refl in Hrun. cbn [negb] in Hrun.
    apply pair_equal_spec in Hrun. destruct Hrun as [Hr Hs'].
    inversion Hr; subst w. subst s'. clear Hr.
    cbn [st_world set_host add_event set_world] in Hlim |- *.
    split; [reflexivity|]. exact HF.
Qed.

End WriteContent.

Section WriteRec.

Context {E : Type} {HO : Host E}.
Variable cfg : config.
Hypothesis VC : vhd_config cfg.
Hypothesis Hshift : block_shift cfg <= 21.
Implicit Type s : state image E.

Lemma u64_minus_one_eq r : -1 <= r < 2 ^ 62 -> u64 r = u64 (-1) -> r = -1.
Proof.
  intros Hr H. unfold u64 in H. change ((-1) mod 2 ^ 64) with (2 ^ 64 - 1) in H.
  destruct (Z.eq_dec r (-1)) as [|Hn]; [assumption|].
  rewrite Z.mod_small in H by lia. lia.
Qed.

Lemma vhd_write_rec_content fuel : forall io size offset s r s',
  image_ok cfg (st_world s) -> blocks_disjoint cfg (st_world s) ->
  0 <= offset -> 0 < size < 2 ^ 62 -> offset + size <= current_size cfg ->
  size <= Z.of_nat (length io) ->
  vhd_write_rec cfg fuel io size offset s = Some (r, s') ->
  r <> -1 ->
  flen (st_world s') <= 2 ^ 41 ->
  r = size
  /\ image_ok cfg (st_world s')
  /\ blocks_disjoint cfg (st_world s')
  /\ forall x, 0 <= x < current_size cfg ->
       vhd_byte cfg (st_world s') x
       = if (offset <=? x) && (x <? offset + size)
         then nth (Z.to_nat (x - offset)) io 0
         else vhd_byte cfg (st_world s) x.
Proof.
  assert (Hcs : 0 <= current_size cfg < 2 ^ 62) by (destruct VC; auto).
  induction fuel as [|fuel IH];
    intros io size offset s r s' OK DJ Ho Hs Hc Hio Hrun Hr Hlim.
  - cbn [vhd_write_rec] in Hrun. rewrite (clip_eq cfg VC) in Hrun by lia.
    destruct (Z.ltb_spec (current_size cfg) (offset + size)) as [Hx|_]; [lia|].
    destruct (vhd_write_first cfg io size offset s) as [[wd|] s1] eqn:H1;
      [|inversion Hrun; subst; lia].
    destruct (Z.ltb_spec 0 (second_size_of cfg size offset)) as [Hp|Hp]; [discriminate|].
    inversion Hrun; subst wd s1. clear Hrun.
    assert (Hfsz : first_size_of cfg size offset = size).
    { unfold second_size_of, first_size_of in *.
      destruct (crosses_block cfg size offset) eqn:Hx; [|reflexivity].
      destruct (split_cross cfg VC size offset) as (H2 & H3 & H4); [lia|auto|].
      unfold second_size_of, first_size_of in H3, H4. rewrite Hx in H3, H4. lia. }
    destruct (vhd_write_first_content cfg VC Hshift io size offset s r s')
      as (Hw & DJ' & Hcont); auto.
    destruct (vhd_write_first_image_ok cfg VC io size offset s (Some r) s')
      as (OK' & _); auto.
    rewrite Hfsz in *. auto.
  - cbn [vhd_write_rec] in Hrun. rewrite (clip_eq cfg VC) in Hrun by lia.
    destruct (Z.ltb_spec (current_size cfg) (offset + size)) as [Hx|_]; [lia|].
    destruct (vhd_write_first cfg io size offset s) as [[wd|] s1] eqn:H1;
      [|inversion Hrun; subst; lia].
    destruct (Z.ltb_spec 0 (second_size_of cfg size offset)) as [Hp|Hp].
    + destruct (vhd_write_rec cfg fuel _ _ _ s1) as [[r2 s2]|] eqn:H2; [|discriminate].
      destruct (second_offset_eq cfg VC size offset) as (Hso & Hsz & Hfs); try lia.
      set (fs := first_size_of cfg size offset) in *.
      pose proof (vhd_write_rec_flen cfg VC _ _ _ _ _ _ _ H2) as Hm.
      destruct (Z.eqb_spec (u64 r2) (u64 (-1))) as [Hu|Hu];
        [inversion Hrun; subst; lia|].
      inversion Hrun; subst r s2. clear Hrun.
      destruct (vhd_write_first_content cfg VC Hshift io size offset s wd s1)
        as (Hw & DJ1 & Hcont1); auto; try lia.
      destruct (vhd_write_first_image_ok cfg VC io size offset s (Some wd) s1)
        as (OK1 & _); auto; try lia.
      fold fs in Hw, Hcont1.
      assert (Hr2 : r2 <> -1) by (intros ->; apply Hu; reflexivity).
      destruct (IH (skipn (Z.to_nat fs) io) (second_size_of cfg size offset)
                   (second_offset_of cfg size offset) s1 r2 s')
        as (Hr2e & OK2 & DJ2 & Hcont2); auto; try lia.
      { rewrite length_skipn. lia. }
      split.
      { rewrite Hr2e, Hsz, Hw, u64_small, s64_small by lia. lia. }
      split; [exact OK2|]. split; [exact DJ2|].
      intros x Hx. rewrite (Hcont2 x Hx), Hso, Hsz.
      replace (offset + fs + (size - fs)) with (offset + size) by lia.
      destruct (Z.leb_spec (offset + fs) x) as [Ha|Ha];
        destruct (Z.ltb_spec x (offset + size)) as [Hb|Hb]; cbn [andb].
      * destruct (Z.leb_spec offset x); [|lia]. cbn [andb].
        rewrite nth_skipn. f_equal. lia.
      * rewrite (Hcont1 x Hx).
        destruct (Z.leb_spec offset x); destruct (Z.ltb_spec x (offset + fs));
          cbn [andb]; try lia; reflexivity.
      * rewrite (Hcont1 x Hx).
        destruct (Z.leb_spec offset x); destruct (Z.ltb_spec x (offset + fs));
          cbn [andb]; try lia; reflexivity.
      * rewrite (Hcont1 x Hx).
        destruct (Z.leb_spec offset x); destruct (Z.ltb_spec x (offset + fs));
          cbn [andb]; try lia; reflexivity.
    + inversion Hrun; subst wd s1. clear Hrun.
      assert (Hfsz : first_size_of cfg size offset = size).
      { unfold second_size_of, first_size_of in *.
        destruct (crosses_block cfg size offset) eqn:Hx; [|reflexivity].
        destruct (split_cross cfg VC size offset) as (H2 & H3 & H4); [lia|auto|].
        unfold second_size_of, first_size_of in H3, H4. rewrite Hx in H3, H4. lia. }
      destruct (vhd_write_first_content cfg VC Hshift io size offset s r s')
        as (Hw & DJ' & Hcont); auto.
      destruct (vhd_write_first_image_ok cfg VC io size offset s (Some r) s')
        as (OK' & _); auto.
      rewrite Hfsz in *. auto.
Qed.

End WriteRec.

Lemma firstn_as_map (l : list Z) : forall n,
  (n <= length l)%nat -> firstn n l = map (fun i => nth i l 0) (seq 0 n).
Proof.
  induction l as [|a l IH]; intros [|n] H; cbn in *; try lia; try reflexivity.
  f_equal. rewrite <- seq_shift, map_map. apply IH. lia.
Qed.

(* ================================================================= *)
(** ** [vhd_read] and [vhd_write] on the content of the device *)

Lemma img_two_blocks_ok : image_ok sample_cfg img_two_blocks.
Proof.
  constructor.
  - vm_compute. discriminate.
  - reflexivity.
  - intros k Hk Hs.
    change (bat_entries sample_cfg) with 8 in Hk.
    assert (Hc : k = 0 \/ k = 1 \/ k = 2 \/ k = 3 \/ k = 4 \/ k = 5 \/ k = 6 \/ k = 7)
      by lia.
    destruct Hc as [Hc|[Hc|[Hc|[Hc|[Hc|[Hc|[Hc|Hc]]]]]]]; subst k;
      try (vm_compute in Hs; discriminate Hs);
      vm_compute; split; discriminate.
  - vm_compute. reflexivity.
  - vm_compute. discriminate.
Qed.

Lemma img_two_blocks_disjoint : blocks_disjoint sample_cfg img_two_blocks.
Proof.
  intros j k Hj Hk Hjk Hsj Hsk.
  change (bat_entries sample_cfg) with 8 in Hj, Hk.
  assert (Hcj : j = 0 \/ j = 1 \/ j = 2 \/ j = 3 \/ j = 4 \/ j = 5 \/ j = 6 \/ j = 7)
    by lia.
  assert (Hck : k = 0 \/ k = 1 \/ k = 2 \/ k = 3 \/ k = 4 \/ k = 5 \/ k = 6 \/ k = 7)
    by lia.
  destruct Hcj as [Hc|[Hc|[Hc|[Hc|[Hc|[Hc|[Hc|Hc]]]]]]]; subst j;
    try (vm_compute in Hsj; discriminate Hsj);
    destruct Hck as [Hc|[Hc|[Hc|[Hc|[Hc|[Hc|[Hc|Hc]]]]]]]; subst k;
    try (vm_compute in Hsk; discriminate Hsk); try lia.
  - left. vm_compute. discriminate.
  - right. vm_compute. discriminate.
Qed.

(** X16: [vhd_read] on a well-formed dynamic VHD.  A request that lies
    inside the device returns [size] and puts the bytes of the device
    into the first [size] bytes of the region: zeros for a block whose
    BAT entry is [0xFFFFFFFF], else the bytes of the file in the data
    area of the block, across block boundaries.  The rest of the region
    and the file are left as they were. *)
Theorem vhd_read_device_bytes {E : Type} {HO : Host E} (cfg : config)
    (io : list Z) (size offset : Z) (s : state image E) :
  vhd_config cfg ->
  image_ok cfg (st_world s) ->
  0 <= offset -> 0 < size < 2 ^ 62 -> offset + size <= current_size cfg ->
  size <= Z.of_nat (length io) ->
  exists s',
    vhd_read cfg io size offset s
    = Some (size,
            vhd_bytes cfg (st_world s) offset (Z.to_nat size)
              ++ skipn (Z.to_nat size) io, s')
    /\ st_world s' = st_world s.
Proof.
  intros VC OK Ho Hs Hc Hio. unfold vhd_read.
  apply (vhd_read_rec_content cfg VC); auto.
Qed.

(** An instance: sixteen bytes across the boundary of blocks 0 and 1 of
    [img_two_blocks]. *)
Lemma vhd_read_device_bytes_witness :
  exists s',
    vhd_read sample_cfg (zeros 32) 16 2097144 boundary_session
    = Some (16,
            vhd_bytes sample_cfg (st_world boundary_session) 2097144 (Z.to_nat 16)
              ++ skipn (Z.to_nat 16) (zeros 32), s')
    /\ st_world s' = st_world boundary_session.
Proof.
  apply (vhd_read_device_bytes sample_cfg (zeros 32) 16 2097144 boundary_session).
  - exact sample_vhd_config.
  - exact img_two_blocks_ok.
  - lia.
  - lia.
  - vm_compute. discriminate.
  - vm_compute. discriminate.
Defined.

(** X17: [vhd_write] on a well-formed dynamic VHD with blocks of at most
    2 MiB whose allocated blocks do not overlap.  When a request that
    lies inside the device does not return -1, it returns [size]; the
    bytes of the device in [offset, offset + size) are then the bytes of
    the region and every other byte of the device is as before, whether
    or not blocks were allocated on the way; the image stays well formed
    and its blocks still do not overlap. *)
Theorem vhd_write_device_bytes {E : Type} {HO : Host E} (cfg : config)
    (io : list Z) (size offset : Z) (s : state image E) (r : Z) (s' : state image E) :
  vhd_config cfg -> block_shift cfg <= 21 ->
  image_ok cfg (st_world s) -> blocks_disjoint cfg (st_world s) ->
  0 <= offset -> 0 < size < 2 ^ 62 -> offset + size <= current_size cfg ->
  size <= Z.of_nat (length io) ->
  vhd_write cfg io size offset s = Some (r, s') ->
  r <> -1 ->
  flen (st_world s') <= 2 ^ 41 ->
  r = size
  /\ image_ok cfg (st_world s')
  /\ blocks_disjoint cfg (st_world s')
  /\ forall x, 0 <= x < current_size cfg ->
       vhd_byte cfg (st_world s') x
       = if (offset <=? x) && (x <? offset + size)
         then nth (Z.to_nat (x - offset)) io 0
         else vhd_byte cfg (st_world s) x.
Proof.
  intros VC Hshift OK DJ Ho Hs Hc Hio Hrun Hr Hlim.
  apply (vhd_write_rec_content cfg VC Hshift (Z.to_nat size) io size offset s r s'); auto.
Qed.

(** An instance: [boundary_data] written across the boundary of blocks 0
    and 1 of [img_two_blocks]. *)
Lemma vhd_write_device_bytes_witness :
  match vhd_write sample_cfg boundary_data 16 2097144 boundary_session with
  | Some (r, s') =>
      r = 16
      /\ image_ok sample_cfg (st_world s')
      /\ blocks_disjoint sample_cfg (st_world s')
      /\ forall x, 0 <= x < current_size sample_cfg ->
           vhd_byte sample_cfg (st_world s') x
           = if (2097144 <=? x) && (x <? 2097144 + 16)
             then nth (Z.to_nat (x - 2097144)) boundary_data 0
             else vhd_byte sample_cfg (st_world boundary_session) x
  | None => False
  end.
Proof.
  assert (Hv : option_map (fun p => (fst p, flen (st_world (snd p))))
                 (vhd_write sample_cfg boundary_data 16 2097144 boundary_session)
               = Some (16, 4197888)) by (vm_compute; reflexivity).
  destruct (vhd_write sample_cfg boundary_data 16 2097144 boundary_session)
    as [[r s']|] eqn:Hrun; [|discriminate Hv].
  cbn [option_map fst snd] in Hv. inversion Hv as [[Hr Hl]]. subst r.
  apply (vhd_write_device_bytes sample_cfg boundary_data 16 2097144 boundary_session
           16 s').
  - exact sample_vhd_config.
  - vm_compute. discriminate.
  - exact img_two_blocks_ok.
  - exact img_two_blocks_disjoint.
  - lia.
  - lia.
  - vm_compute. discriminate.
  - vm_compute. discriminate.
  - exact Hrun.
  - lia.
  - rewrite Hl. vm_compute. discriminate.
Defined.

(** X18: what [vhd_write] wrote, [vhd_read] returns.  After a request
    that did not return -1, a read of the same range into any region
    returns [size] and the bytes that were written. *)
Theorem vhd_read_after_write {E : Type} {HO : Host E} (cfg : config)
    (io : list Z) (size offset : Z) (s : state image E) (r : Z) (s' : state image E)
    (io2 : list Z) :
  vhd_config cfg -> block_shift cfg <= 21 ->
  image_ok cfg (st_world s) -> blocks_disjoint cfg (st_world s) ->
  0 <= offset -> 0 < size < 2 ^ 62 -> offset + size <= current_size cfg ->
  size <= Z.of_nat (length io) ->
  vhd_write cfg io size offset s = Some (r, s') ->
  r <> -1 ->
  flen (st_world s') <= 2 ^ 41 ->
  size <= Z.of_nat (length io2) ->
  exists s'',
    vhd_read cfg io2 size offset s'
    = Some (size, firstn (Z.to_nat size) io ++ skipn (Z.to_nat size) io2, s'')
    /\ st_world s'' = st_world s'.
Proof.
  intros VC Hshift OK DJ Ho Hs Hc Hio Hrun Hr Hlim Hio2.
  destruct (vhd_write_rec_content cfg VC Hshift (Z.to_nat size) io size offset s r s')
    as (_ & OK' & _ & Hcont); auto.
  destruct (vhd_read_rec_content cfg VC (Z.to_nat size) io2 size offset s')
    as (s'' & Hread & Hw); auto.
  exists s''. split; [|exact Hw].
  unfold vhd_read. rewrite Hread. f_equal. f_equal. f_equal. f_equal.
  rewrite firstn_as_map by lia.
  unfold vhd_bytes. apply map_ext_in. intros i Hi. apply in_seq in Hi.
  assert (Hcs : 0 <= current_size cfg < 2 ^ 62) by (destruct VC; auto).
  rewrite Hcont by lia.
  destruct (Z.leb_spec offset (offset + Z.of_nat i)); [|lia].
  destruct (Z.ltb_spec (offset + Z.of_nat i) (offset + size)); [|lia].
  cbn [andb]. f_equal. lia.
Qed.

(** An instance: the same write, read back. *)
Lemma vhd_read_after_write_witness :
  match vhd_write sample_cfg boundary_data 16 2097144 boundary_session with
  | Some (r, s') =>
      exists s'',
        vhd_read sample_cfg (zeros 32) 16 2097144 s'
        = Some (16, firstn (Z.to_nat 16) boundary_data
                      ++ skipn (Z.to_nat 16) (zeros 32), s'')
        /\ st_world s'' = st_world s'
  | None => False
  end.
Proof.
  assert (Hv : option_map (fun p => (fst p, flen (st_world (snd p))))
                 (vhd_write sample_cfg boundary_data 16 2097144 boundary_session)
               = Some (16, 4197888)) by (vm_compute; reflexivity).
  destruct (vhd_write sample_cfg boundary_data 16 2097144 boundary_session)
    as [[r s']|] eqn:Hrun; [|discriminate Hv].
  cbn [option_map fst snd] in Hv. inversion Hv as [[Hr Hl]]. subst r.
  apply (vhd_read_after_write sample_cfg boundary_data 16 2097144 boundary_session
           16 s' (zeros 32)).
  - exact sample_vhd_config.
  - vm_compute. discriminate.
  - exact img_two_blocks_ok.
  - exact img_two_blocks_disjoint.
  - lia.
  - lia.
  - vm_compute. discriminate.
  - vm_compute. discriminate.
  - exact Hrun.
  - lia.
  - rewrite Hl. vm_compute. discriminate.
  - vm_compute. discriminate.
Defined.

(* ================================================================= *)
(** ** The shared-memory transport *)

Lemma store_at_pos_read io pos data :
  0 <= pos -> pos + Z.of_nat (length data) <= Z.of_nat (length io) ->
  firstn (length data) (skipn (Z.to_nat pos) (store_at_pos io pos data)) = data.
Proof.
  intros Hp Hl. unfold store_at_pos.
  rewrite skipn_app, length_firstn.
  replace (Nat.min (Z.to_nat pos) (length io)) with (Z.to_nat pos) by lia.
  rewrite Nat.sub_diag. cbn [skipn].
  rewrite (skipn_all2 (firstn (Z.to_nat pos) io)) by (rewrite length_firstn; lia).
  cbn [app]. apply firstn_store_at.
Qed.

Lemma store_at_pos_length io pos data :
  0 <= pos -> pos + Z.of_nat (length data) <= Z.of_nat (length io) ->
  length (store_at_pos io pos data) = length io.
Proof.
  intros Hp Hl. unfold store_at_pos.
  rewrite length_app, length_firstn, store_at_length by (rewrite length_skipn; lia).
  rewrite length_skipn. lia.
Qed.

Lemma store_at_pos_before io pos data n :
  0 <= pos -> pos + Z.of_nat (length data) <= Z.of_nat (length io) ->
  (n <= Z.to_nat pos)%nat ->
  firstn n (store_at_pos io pos data) = firstn n io.
Proof.
  intros Hp Hl Hn. unfold store_at_pos.
  rewrite firstn_app, length_firstn.
  replace (n - Nat.min (Z.to_nat pos) (length io))%nat with 0%nat by lia.
  cbn [firstn]. rewrite app_nil_r, firstn_firstn.
  replace (Nat.min n (Z.to_nat pos)) with n by lia. reflexivity.
Qed.

Section Shm.
Context {W E : Type} {BK : Backing W} {HO : Host E}.
Variable cfg : config.
Implicit Type s : state W E.

(** X19: the records of the shared-memory transport.  After a flush,
    two records written with [shm_write] that fit in the header are
    both accepted, and two calls of [shm_read] with their sizes return
    them in the same order: both functions start at the same place
    (after the driver header in driver mode) and advance by the size of
    each record.  The bytes before that place, the length of the
    header, the buffer and the image are as before. *)
Theorem shm_records_layout (a b : list Z) s :
  win32 cfg = true ->
  st_shm_writeptr s = None -> st_shm_readptr s = None ->
  let base := if drv_mode cfg then DEVIODRV_BUFFER_HEADER_SIZE cfg else 0 in
  0 <= base ->
  base + Z.of_nat (length a) + Z.of_nat (length b) <= IMDPROXY_HEADER_SIZE cfg ->
  IMDPROXY_HEADER_SIZE cfg < 2 ^ 63 ->
  IMDPROXY_HEADER_SIZE cfg <= Z.of_nat (length (st_shm_hdr s)) ->
  exists s1 s2 s3 s4,
    shm_write cfg false a s = (true, s1)
    /\ shm_write cfg false b s1 = (true, s2)
    /\ shm_read cfg false (Z.of_nat (length a)) s2 = (Some a, s3)
    /\ shm_read cfg false (Z.of_nat (length b)) s3 = (Some b, s4)
    /\ firstn (Z.to_nat base) (st_shm_hdr s4) = firstn (Z.to_nat base) (st_shm_hdr s)
    /\ length (st_shm_hdr s4) = length (st_shm_hdr s)
    /\ st_buf s4 = st_buf s /\ st_world s4 = st_world s.
Proof.
  intros Hwin Hwp Hrp base Hb Hfit Hhs Hlen.
  set (la := Z.of_nat (length a)) in *. set (lb := Z.of_nat (length b)) in *.
  assert (Hla : 0 <= la) by (unfold la; lia).
  assert (Hlb : 0 <= lb) by (unfold lb; lia).
  unfold shm_write at 1. rewrite Hwin, Hwp. cbn [negb]. fold base. fold la.
  cbn [st_shm_hdr st_shm_writeptr st_shm_readptr set_shm_writeptr set_shm_hdr].
  rewrite s64_small by lia.
  destruct (Z.ltb_spec (IMDPROXY_HEADER_SIZE cfg - base) la) as [Hx|_]; [lia|].
  eexists. eexists. eexists. eexists. split; [reflexivity|].
  unfold shm_write at 1. rewrite Hwin. cbn [negb].
  cbn [st_shm_hdr st_shm_writeptr st_shm_readptr set_shm_writeptr set_shm_hdr].
  fold lb. rewrite s64_small by lia.
  destruct (Z.ltb_spec (IMDPROXY_HEADER_SIZE cfg - (base + la)) lb) as [Hx|_]; [lia|].
  split; [reflexivity|].
  set (h1 := store_at_pos (st_shm_hdr s) base a).
  assert (Hl1 : length h1 = length (st_shm_hdr s)).
  { apply store_at_pos_length; fold la; lia. }
  set (h2 := store_at_pos h1 (base + la) b).
  assert (Hl2 : length h2 = length (st_shm_hdr s)).
  { unfold h2. rewrite store_at_pos_length; fold lb; lia. }
  assert (Ha : firstn (length a) (skipn (Z.to_nat base) h2) = a).
  { unfold h2, store_at_pos.
    rewrite skipn_app, length_firstn.
    replace (Z.to_nat base - Nat.min (Z.to_nat (base + la)) (length h1))%nat
      with 0%nat by lia.
    cbn [skipn]. rewrite firstn_app.
    rewrite length_skipn, length_firstn.
    replace (length a - (Nat.min (Z.to_nat (base + la)) (length h1) - Z.to_nat base))%nat
      with 0%nat by lia.
    cbn [firstn]. rewrite app_nil_r.
    rewrite <- (firstn_skipn (Z.to_nat base) h1) at 1.
    rewrite firstn_app, length_firstn.
    replace (Z.to_nat (base + la) - Nat.min (Z.to_nat base) (length h1))%nat
      with (length a) by lia.
    rewrite skipn_app, length_firstn, length_firstn.
    replace (Z.to_nat base
             - Nat.min (Z.to_nat (base + la)) (Nat.min (Z.to_nat base) (length h1)))%nat
      with 0%nat by lia.
    cbn [skipn].
    rewrite (skipn_all2 (firstn (Z.to_nat (base + la)) (firstn (Z.to_nat base) h1)))
      by (rewrite !length_firstn; lia).
    cbn [app]. rewrite firstn_firstn, Nat.min_id.
    apply store_at_pos_read; fold la; lia. }
  assert (Hbb : firstn (length b) (skipn (Z.to_nat (base + la)) h2) = b).
  { apply store_at_pos_read; fold lb; lia. }
  unfold shm_read at 1. rewrite Hwin. cbn [negb].
  cbn [st_shm_hdr st_shm_writeptr st_shm_readptr set_shm_writeptr set_shm_hdr
       set_shm_readptr].
  rewrite Hrp. fold base. rewrite s64_small by lia.
  destruct (Z.ltb_spec (IMDPROXY_HEADER_SIZE cfg - base) la) as [Hx|_]; [lia|].
  unfold la at 1. rewrite Nat2Z.id. fold h1 h2. rewrite Ha.
  split; [reflexivity|].
  unfold shm_read at 1. rewrite Hwin. cbn [negb].
  cbn [st_shm_hdr st_shm_writeptr st_shm_readptr set_shm_writeptr set_shm_hdr
       set_shm_readptr].
  rewrite s64_small by lia.
  destruct (Z.ltb_spec (IMDPROXY_HEADER_SIZE cfg - (base + la)) lb) as [Hx|_]; [lia|].
  unfold lb at 1. rewrite Nat2Z.id. fold h1 h2. rewrite Hbb.
  split; [reflexivity|].
  cbn [st_shm_hdr st_shm_writeptr st_shm_readptr set_shm_writeptr set_shm_hdr
       set_shm_readptr st_buf st_world].
  fold h1 h2. repeat split.
  - unfold h2. rewrite store_at_pos_before by (fold lb; lia).
    unfold h1. apply store_at_pos_before; fold la; lia.
  - exact Hl2.
Qed.

End Shm.

(* ================================================================= *)
(** ** Instances on the samples *)

(** An instance: the [CurrentSize] of a disk of 16 MiB. *)
Lemma GetBigEndian64_small_bytes_witness :
  let b := [0; 0; 0; 0; 1; 0; 0; 0] in
  (0 < 128 -> 0 < 128 -> 0 < 128 -> 1 < 128 -> 0 < 128 -> 0 < 128 ->
   0 < 128 -> GetBigEndian64 (map int8 b) = s64 (big_endian_sum b))
  /\ (GetBigEndian64 (map int8 b) < 0 <-> Exists (fun x => 128 <= x) b).
Proof.
  apply (GetBigEndian64_small_bytes 0 0 0 0 1 0 0 0); lia.
Defined.

(** An instance: the argument [10M]. *)
Lemma size_argument_meaning_witness :
  let sc := mkScanned 2 10 "M" in
  (sc_count sc = 1 -> sc_value sc < 512 ->
   size_argument 4 sc 0 = (sc_value sc, 0, false))
  /\ (sc_count sc = 1 -> 512 <= sc_value sc ->
      size_argument 4 sc 0 = (0, u64 (sc_value sc * 512), false))
  /\ (sc_count sc = 2 ->
      size_argument 4 sc 0
      = (0, fst (size_suffix u64 (sc_value sc) (sc_suf sc)),
         snd (size_suffix u64 (sc_value sc) (sc_suf sc))))
  /\ (sc_count sc <= 0 -> size_argument 4 sc 0 = (0, 0, false)).
Proof.
  apply (size_argument_meaning 4 (mkScanned 2 10 "M") 0).
  - lia.
  - cbn. lia.
Defined.

(** An instance: partition 1 of [img_mbr]. *)
Lemma select_partition_window_witness :
  st_world mbr_read = st_world mbr_session /\ st_sent mbr_read = st_sent mbr_session
  /\ (with_window part_cfg 512 1024 = part_cfg
      \/ (with_window part_cfg 512 1024
          = with_window part_cfg (image_offset (with_window part_cfg 512 1024))
              (devio_info_file_size (with_window part_cfg 512 1024))
          /\ devio_info_file_size (with_window part_cfg 512 1024) <> 0
          /\ (current_size part_cfg = 0
              \/ s64 (image_offset (with_window part_cfg 512 1024)
                      + s64 (devio_info_file_size (with_window part_cfg 512 1024)))
                 <= current_size part_cfg))).
Proof.
  apply (select_partition_window part_cfg 8%nat (zeros 512) 1 mbr_session
           (inr (with_window part_cfg 512 1024)) mbr_read).
  vm_compute. reflexivity.
Defined.

(** An instance: partition 1 of [img_mbr], entry 0 of its table. *)
Lemma select_primary_partition_witness :
  let mbr := image_bytes img_mbr 0 512 in
  let start := entry_start part_cfg mbr 0 in
  let len := u64 (entry_length part_cfg mbr 0) in
  select_partition part_cfg 8%nat (zeros 512) 1 mbr_session
  = if (len =? 0)
       || (negb (current_size part_cfg =? 0)
           && (current_size part_cfg <? s64 (start + s64 len)))
    then Some (inl 1, syslog "Partition not found" mbr_read)
    else Some (inr (with_window part_cfg start len), mbr_read).
Proof.
  apply (select_primary_partition part_cfg 8%nat (zeros 512) 1 mbr_session 512
           (image_bytes img_mbr 0 512) mbr_read 0%nat).
  - vm_compute. reflexivity.
  - lia.
  - vm_compute. reflexivity.
  - lia.
  - vm_compute. discriminate.
  - reflexivity.
  - intros j Hj. replace j with 0%nat by lia. vm_compute. reflexivity.
Defined.

(** An instance: partition 1 of [img_cyclic], with 1000 iterations
    allowed. *)
Lemma cyclic_partition_chain_never_ends_witness :
  select_partition part_cfg 1000%nat (zeros 512) 1
    (session img_cyclic [] 1024 (zeros 1024)) = None.
Proof.
  apply (cyclic_partition_chain_never_ends part_cfg (zeros 512) img_cyclic
           (image_bytes img_cyclic 0 512) (image_bytes img_cyclic 512 512) 0%nat 0%nat).
  - reflexivity.
  - reflexivity.
  - vm_compute. reflexivity.
  - reflexivity.
  - vm_compute. reflexivity.
  - lia.
  - intros j Hj. lia.
  - vm_compute. reflexivity.
  - vm_compute. reflexivity.
  - reflexivity.
  - vm_compute. reflexivity.
  - lia.
  - intros j Hj. lia.
  - vm_compute. reflexivity.
  - vm_compute. reflexivity.
  - lia.
  - reflexivity.
Defined.

(** An instance: [img_dynamic], blocks of 2^21 bytes. *)
Lemma detect_vhd_config_witness :
  exists cfg' s',
    detect_vhd true part_cfg dynamic_session = (inr cfg', s')
    /\ vhd_config cfg'
    /\ vhd_mode cfg' = true
    /\ block_size cfg' = 2 ^ 21 /\ block_shift cfg' = 21
    /\ current_size cfg' = GetBigEndian64 (map int8 (field dynamic_info 48 8))
    /\ table_offset cfg' = GetBigEndian64 (map int8 (field dynamic_info 528 8))
    /\ devio_info_file_size cfg' = current_size cfg'
    /\ vhd_Footer cfg' = firstn 512 dynamic_info
    /\ st_world s' = st_world dynamic_session
    /\ st_buf2 s' = Some (st_buffer_size dynamic_session).
Proof.
  apply (detect_vhd_config part_cfg dynamic_session dynamic_info
           (snd (physical_read Data 1536 0 dynamic_session))
           (fun _ => 205) (mkScript [] true) 21).
  - vm_compute. reflexivity.
  - vm_compute. reflexivity.
  - vm_compute. reflexivity.
  - vm_compute. reflexivity.
  - lia.
  - vm_compute. split; [discriminate|reflexivity].
  - vm_compute. split; [discriminate|reflexivity].
Defined.



(** An instance: the request code 9. *)
Lemma unknown_request_enodev_witness :
  exists x s',
    serve_one raw_cfg 0%nat unknown_session = Ret x s'
    /\ (x = None \/ x = Some 1)
    /\ st_sent s' = st_sent unknown_session ++ [le_encode 8 ENODEV]
    /\ st_world s' = st_world unknown_session
    /\ st_trace s' = st_trace unknown_session
    /\ st_buffer_size s' = st_buffer_size unknown_session
    /\ st_buf s' = st_buf unknown_session.
Proof.
  apply (unknown_request_enodev raw_cfg 0%nat unknown_session (le_encode 8 9)
           (snd (comm_read raw_cfg false 8 unknown_session))).
  - vm_compute. reflexivity.
  - vm_compute. discriminate.
  - vm_compute. discriminate.
  - vm_compute. discriminate.
Defined.




(** An instance: a response header and four bytes in a header of 4096 bytes. *)
Lemma shm_records_layout_witness :
  exists s1 s2 s3 s4,
    shm_write shm_cfg false (resp_block 0 4) shm_session = (true, s1)
    /\ shm_write shm_cfg false [9; 8; 7; 6] s1 = (true, s2)
    /\ shm_read shm_cfg false (Z.of_nat (length (resp_block 0 4))) s2
       = (Some (resp_block 0 4), s3)
    /\ shm_read shm_cfg false (Z.of_nat (length [9; 8; 7; 6])) s3
       = (Some [9; 8; 7; 6], s4)
    /\ firstn (Z.to_nat 0) (st_shm_hdr s4) = firstn (Z.to_nat 0) (st_shm_hdr shm_session)
    /\ length (st_shm_hdr s4) = length (st_shm_hdr shm_session)
    /\ st_buf s4 = st_buf shm_session /\ st_world s4 = st_world shm_session.
Proof.
  apply (shm_records_layout shm_cfg (resp_block 0 4) [9; 8; 7; 6] shm_session).
  - reflexivity.
  - reflexivity.
  - reflexivity.
  - cbn. lia.
  - vm_compute. discriminate.
  - vm_compute. reflexivity.
  - vm_compute. discriminate.
Defined.
